(** * Release helper: version file, tags and changelog

    A shallow embedding of the two release scripts of the repository,
    [src/release.ts] and its earlier sibling [src/unnamed/part_000], together
    with the properties of their versioning, tagging and changelog logic.

    Layout:
    - [Js]: the JavaScript built-ins the scripts call (strings as UTF-16
      code units, [trim], [split], [join], [Number], number to string,
      the two regular expressions, numeric [localeCompare], stable [sort]);
    - [Env]: the file system, the git repository behind [simple-git], the
      console, and the state-and-exception monad the scripts run in;
    - [Part000] and [Release]: the two scripts, function by function;
    - the properties. *)

From Stdlib Require Import ZArith NArith List String Ascii Bool Lia.
From Stdlib Require Import Permutation Sorted.
From Stdlib Require Import Floats.SpecFloat.
Import ListNotations.

Set Implicit Arguments.

(* ================================================================== *)
(** * JavaScript built-ins *)
(* ================================================================== *)

Module Js.

Local Open Scope N_scope.

(** ** Strings

    A JavaScript string is a sequence of UTF-16 code units. *)

Definition codeUnit := N.
Definition jsstring := list codeUnit.

(** An ASCII literal as a JavaScript string. *)
Definition lit (s : string) : jsstring :=
  map N_of_ascii (list_ascii_of_string s).

Fixpoint eqb (a b : jsstring) : bool :=
  match a, b with
  | [], [] => true
  | x :: a', y :: b' => (x =? y) && eqb a' b'
  | _, _ => false
  end.

(** The three changelog markers: U+1F4A5 (collision), U+2728 (sparkles)
    and U+1F41B (bug).  The first and the last lie outside the basic
    plane and take a surrogate pair each. *)
Definition COLLISION : jsstring := [0xD83D; 0xDCA5].
Definition SPARKLES : jsstring := [0x2728].
Definition BUG : jsstring := [0xD83D; 0xDC1B].

(** [WhiteSpace] and [LineTerminator] of ECMAScript: what [trim] strips
    and what [Number] skips around a numeric literal. *)
Definition isWhiteSpace (c : codeUnit) : bool :=
  ((9 <=? c) && (c <=? 13)) || (c =? 32) || (c =? 0xA0) || (c =? 0x1680)
  || ((0x2000 <=? c) && (c <=? 0x200A)) || (c =? 0x2028) || (c =? 0x2029)
  || (c =? 0x202F) || (c =? 0x205F) || (c =? 0x3000) || (c =? 0xFEFF).

Fixpoint trimStart (s : jsstring) : jsstring :=
  match s with
  | [] => []
  | c :: s' => if isWhiteSpace c then trimStart s' else s
  end.

Definition trimEnd (s : jsstring) : jsstring := rev (trimStart (rev s)).

(** [String.prototype.trim]. *)
Definition trim (s : jsstring) : jsstring := trimEnd (trimStart s).

(** [String.prototype.split] with a separator of one code unit (the
    scripts split on ["."] and on the line feed).  The empty string splits
    into one empty piece. *)
Fixpoint split (sep : codeUnit) (s : jsstring) : list jsstring :=
  match s with
  | [] => [[]]
  | c :: s' =>
      if c =? sep then [] :: split sep s'
      else match split sep s' with
           | [] => [[c]]
           | w :: ws => (c :: w) :: ws
           end
  end.

(** [Array.prototype.join]. *)
Fixpoint join (sep : jsstring) (l : list jsstring) : jsstring :=
  match l with
  | [] => []
  | [x] => x
  | x :: l' => x ++ sep ++ join sep l'
  end.

Definition DOT : codeUnit := 46.
Definition LF : codeUnit := 10.

Definition isDigit (c : codeUnit) : bool := (48 <=? c) && (c <=? 57).

(** The longest prefix of ASCII digits, and what follows it. *)
Fixpoint spanDigits (s : jsstring) : jsstring * jsstring :=
  match s with
  | c :: s' =>
      if isDigit c then let (d, r) := spanDigits s' in (c :: d, r)
      else ([], s)
  | [] => ([], [])
  end.

(** The mathematical value of a digit string in the given radix;
    [digitOf] gives each code unit's digit. *)
Definition valueIn (radix : Z) (digitOf : codeUnit -> Z) (s : jsstring) : Z :=
  fold_left (fun acc c => (radix * acc + digitOf c)%Z) s 0%Z.

Definition decDigit (c : codeUnit) : Z := Z.of_N (c - 48).

Definition digitsValue (s : jsstring) : Z := valueIn 10 decDigit s.

(** The decimal digits of a natural number, most significant first, as
    [Number::toString] prints an integer. *)
Fixpoint digitsAux (fuel : nat) (n : N) (acc : jsstring) : jsstring :=
  match fuel with
  | O => acc
  | S fuel' =>
      let acc' := (48 + n mod 10) :: acc in
      if n <? 10 then acc' else digitsAux fuel' (n / 10) acc'
  end.

Definition digitsOf (n : N) : jsstring :=
  digitsAux (S (N.to_nat (N.log2 n))) n [].

(** ** Numbers

    A JavaScript number is an IEEE 754 binary64 value (53 bits of
    precision); the operations are those of the standard library's
    specification of binary floating point, rounding to nearest, ties to
    even. *)

Local Open Scope Z_scope.

Definition prec : Z := 53.
Definition emax : Z := 1024.
Definition number := spec_float.
Definition NaN : number := S754_nan.

(** The number nearest to an integer. *)
Definition ofZ (z : Z) : number := binary_normalize prec emax z 0 false.

(** The number nearest to the fraction [num / den]. *)
Definition ofRatio (neg : bool) (num den : positive) : number :=
  let '(q, e, l) :=
    SFdiv_core_binary prec emax (Z.pos num) 0 (Z.pos den) 0 in
  binary_round_aux prec emax neg q e l.

(** The number nearest to [m * 10 ^ k] for a natural [m], negated when
    [neg] is set. *)
Definition ofDecimal (neg : bool) (m k : Z) : number :=
  match m with
  | Z.pos p =>
      let x := if 0 <=? k
               then ofZ (Z.pos p * 10 ^ k)
               else match 10 ^ (- k) with
                    | Z.pos d => ofRatio false p d
                    | _ => NaN
                    end in
      if neg then SFopp x else x
  | _ => S754_zero neg
  end.

Definition add (x y : number) : number := SFadd prec emax x y.

(** *** [Number(string)]: the [StringToNumber] grammar *)

Definition allOf (ok : codeUnit -> bool) (s : jsstring) : bool :=
  negb (Nat.eqb (List.length s) 0) && forallb ok s.

Definition isHexDigit (c : codeUnit) : bool :=
  (isDigit c || ((65 <=? c) && (c <=? 70)) || ((97 <=? c) && (c <=? 102)))%N.

Definition hexDigit (c : codeUnit) : Z :=
  if isDigit c then decDigit c
  else if (c <=? 70)%N then Z.of_N (c - 55) else Z.of_N (c - 87).

Definition isOctalDigit (c : codeUnit) : bool := ((48 <=? c) && (c <=? 55))%N.
Definition isBinaryDigit (c : codeUnit) : bool := ((c =? 48) || (c =? 49))%N.

(** [NonDecimalIntegerLiteral]: [0x], [0o] and [0b] literals, unsigned. *)
Definition nonDecimalLiteral (s : jsstring) : option number :=
  match s with
  | z :: x :: ds =>
      if negb (z =? 48)%N then None
      else if ((x =? 120) || (x =? 88))%N then
        if allOf isHexDigit ds then Some (ofZ (valueIn 16 hexDigit ds))
        else None
      else if ((x =? 111) || (x =? 79))%N then
        if allOf isOctalDigit ds then Some (ofZ (valueIn 8 decDigit ds))
        else None
      else if ((x =? 98) || (x =? 66))%N then
        if allOf isBinaryDigit ds then Some (ofZ (valueIn 2 decDigit ds))
        else None
      else None
  | _ => None
  end.

(** An optional sign. *)
Definition signed (s : jsstring) : bool * jsstring :=
  match s with
  | c :: r =>
      if (c =? 43)%N then (false, r)
      else if (c =? 45)%N then (true, r)
      else (false, s)
  | [] => (false, [])
  end.

(** [ExponentPart], when present; [None] when what follows the digits is
    not an exponent part. *)
Definition exponentPart (s : jsstring) : option Z :=
  match s with
  | [] => Some 0
  | c :: r =>
      if ((c =? 101) || (c =? 69))%N then
        let (neg, ds) := signed r in
        if allOf isDigit ds
        then Some (if neg then - digitsValue ds else digitsValue ds)
        else None
      else None
  end.

(** [StrDecimalLiteral]. *)
Definition decimalLiteral (s : jsstring) : number :=
  let (neg, u) := signed s in
  if eqb u (lit "Infinity") then S754_infinity neg
  else
    let (ip, r1) := spanDigits u in
    let (fp, r2) :=
      match r1 with
      | c :: r => if (c =? DOT)%N then spanDigits r else ([], r1)
      | [] => ([], [])
      end in
    match ip ++ fp with
    | [] => NaN
    | ds =>
        match exponentPart r2 with
        | Some e => ofDecimal neg (digitsValue ds) (e - Z.of_nat (List.length fp))
        | None => NaN
        end
    end.

(** [Number(s)] for a string [s]: white space around the literal is
    skipped, the empty string is [+0], anything that is not a numeric
    literal is [NaN]. *)
Definition Number (s : jsstring) : number :=
  match trim s with
  | [] => S754_zero false
  | t =>
      match nonDecimalLiteral t with
      | Some n => n
      | None => decimalLiteral t
      end
  end.

(** *** [Number::toString] *)

(** The value of a finite number when it is an integer. *)
Definition integerValue (m : positive) (e : Z) : option Z :=
  if 0 <=? e then Some (Z.pos m * 2 ^ e)
  else if Z.pos m mod 2 ^ (- e) =? 0 then Some (Z.pos m / 2 ^ (- e))
  else None.

(** A positive finite number as a fraction. *)
Definition ratioOf (m : positive) (e : Z) : Z * Z :=
  if 0 <=? e then (Z.pos m * 2 ^ e, 1) else (Z.pos m, 2 ^ (- e)).

(** The least [j >= 1] with [num * 10 ^ j >= den], for [num < den]. *)
Fixpoint leadingZeros (fuel : nat) (num den j : Z) : Z :=
  match fuel with
  | O => j
  | S fuel' =>
      if den <=? num * 10 ^ j then j else leadingZeros fuel' num den (j + 1)
  end.

(** The [n] with [10 ^ (n - 1) <= num / den < 10 ^ n]. *)
Definition decimalExponent (num den : Z) : Z :=
  if den <=? num
  then Z.of_nat (List.length (digitsOf (Z.to_N (num / den))))
  else 1 - leadingZeros 400 num den 1.

(** The candidates with [k] digits: the two multiples of [10 ^ j],
    [j = n - k], around the value; the one that rounds to [x] and is
    nearest the value wins (the even one on a tie). *)
Definition candidate (x : number) (num den n k : Z) : option (Z * Z) :=
  let j := n - k in
  let lo := if 0 <=? j then num / (den * 10 ^ j)
            else (num * 10 ^ (- j)) / den in
  let hi := lo + 1 in
  let okLo := (0 <? lo) && SFeqb (ofDecimal false lo j) x in
  let okHi := SFeqb (ofDecimal false hi j) x in
  let twice := if 0 <=? j then (2 * num ?= (2 * lo + 1) * 10 ^ j * den)
               else (2 * num * 10 ^ (- j) ?= (2 * lo + 1) * den) in
  let pickHi := if hi =? 10 ^ k then (1, j + k) else (hi, j) in
  match okLo, okHi with
  | true, true =>
      match twice with
      | Lt => Some (lo, j)
      | Gt => Some pickHi
      | Eq => if Z.even lo then Some (lo, j) else Some pickHi
      end
  | true, false => Some (lo, j)
  | false, true => Some pickHi
  | false, false => None
  end.

(** The shortest digit string that reads back as [x]: the first [k]
    from [k] upwards that has a candidate.  Seventeen digits always
    suffice for a binary64 value. *)
Fixpoint shortest (fuel : nat) (x : number) (num den n k : Z) : Z * Z :=
  match fuel with
  | O => (if 0 <=? n - k then num / (den * 10 ^ (n - k))
          else (num * 10 ^ (k - n)) / den, n - k)
  | S fuel' =>
      match candidate x num den n k with
      | Some r => r
      | None => shortest fuel' x num den n (k + 1)
      end
  end.

Definition zeros (n : Z) : jsstring := repeat 48%N (Z.to_nat n).

(** The digits [ds] of [s] and the exponent [n] of [s * 10 ^ (n - k)],
    laid out as [Number::toString] lays them out. *)
Definition layout (ds : jsstring) (n : Z) : jsstring :=
  let k := Z.of_nat (List.length ds) in
  if (k <=? n) && (n <=? 21) then ds ++ zeros (n - k)
  else if (0 <? n) && (n <=? 21)
  then firstn (Z.to_nat n) ds ++ lit "." ++ skipn (Z.to_nat n) ds
  else if (-6 <? n) && (n <=? 0) then lit "0." ++ zeros (- n) ++ ds
  else
    let e := n - 1 in
    let ex := (if e <? 0 then lit "-" else lit "+")
                ++ digitsOf (Z.to_N (Z.abs e)) in
    match ds with
    | [d] => [d] ++ lit "e" ++ ex
    | d :: rest => [d] ++ lit "." ++ rest ++ lit "e" ++ ex
    | [] => []
    end.

Definition finiteToString (m : positive) (e : Z) : jsstring :=
  let x := S754_finite false m e in
  let (num, den) := ratioOf m e in
  let n := decimalExponent num den in
  let (s, j) := shortest 17 x num den n 1 in
  let ds := digitsOf (Z.to_N s) in
  layout ds (j + Z.of_nat (List.length ds)).

(** [Number::toString] in radix 10.  An integer of magnitude at most
    [2 ^ 53] prints as its decimal digits, which is what the shortest
    digit string of such a value is; every other finite value goes
    through the search for the shortest digit string. *)
Definition numberToString (x : number) : jsstring :=
  match x with
  | S754_nan => lit "NaN"
  | S754_zero _ => lit "0"
  | S754_infinity s => (if s then lit "-" else []) ++ lit "Infinity"
  | S754_finite s m e =>
      (if s then lit "-" else []) ++
      match integerValue m e with
      | Some v =>
          if v <=? 2 ^ 53 then digitsOf (Z.to_N v) else finiteToString m e
      | None => finiteToString m e
      end
  end.

(** ** Values

    A field of the object that [readCurrentVersionFromFile] returns holds
    a number, or [undefined] when the array it is destructured from is too
    short. *)

Inductive jsval :=
| Undefined
| Num (n : number).

(** [ToNumber]. *)
Definition toNumber (v : jsval) : number :=
  match v with
  | Undefined => NaN
  | Num n => n
  end.

(** [ToString], as a template literal applies it. *)
Definition toString (v : jsval) : jsstring :=
  match v with
  | Undefined => lit "undefined"
  | Num n => numberToString n
  end.

(** [v + 1] and [v++] on a value that is not a string. *)
Definition plusOne (v : jsval) : jsval := Num (add (toNumber v) (ofZ 1)).

(** [a > b]: both sides go through [ToNumber]; a comparison with [NaN]
    is false. *)
Definition gt (a b : jsval) : bool :=
  match SFcompare (toNumber a) (toNumber b) with
  | Some Gt => true
  | _ => false
  end.

(** [a === b]. *)
Definition strictEq (a b : jsval) : bool :=
  match a, b with
  | Undefined, Undefined => true
  | Num x, Num y => SFeqb x y
  | _, _ => false
  end.

(** [arr[i]] as array destructuring reads it. *)
Definition element (arr : list number) (i : nat) : jsval :=
  match nth_error arr i with
  | Some n => Num n
  | None => Undefined
  end.

(** [o || d] for a string or [null]: the empty string is falsy too. *)
Definition orElse (o : option jsstring) (d : jsstring) : jsstring :=
  match o with
  | Some (c :: s) => c :: s
  | _ => d
  end.

(** ** The two regular expressions *)

Definition digits1 (s : jsstring) : option jsstring :=
  match spanDigits s with
  | ([], _) => None
  | (_, r) => Some r
  end.

Definition dot (s : jsstring) : option jsstring :=
  match s with
  | c :: r => if (c =? DOT)%N then Some r else None
  | [] => None
  end.

Definition andThen (o : option jsstring) (f : jsstring -> option jsstring) :=
  match o with
  | Some r => f r
  | None => None
  end.

(** [/^\d+\.\d+\.\d+\.\d+$/.test(s)].  Each [\d+] takes the whole run of
    digits: a dot or the end must follow it, so no shorter match helps. *)
Definition isVersionTag (s : jsstring) : bool :=
  match andThen (andThen (andThen (andThen (andThen (andThen
          (digits1 s) dot) digits1) dot) digits1) dot) digits1 with
  | Some [] => true
  | _ => false
  end.

(** The code point a string starts with, as a [/u] pattern reads it: a
    high surrogate followed by a low one is one code point. *)
Definition firstCodePoint (s : jsstring) : option N :=
  match s with
  | [] => None
  | hi :: rest =>
      if ((0xD800 <=? hi) && (hi <=? 0xDBFF))%N then
        match rest with
        | lo :: _ =>
            if ((0xDC00 <=? lo) && (lo <=? 0xDFFF))%N
            then Some (0x10000 + (hi - 0xD800) * 0x400 + (lo - 0xDC00))%N
            else Some hi
        | [] => Some hi
        end
      else Some hi
  end.

(** [/^[\u{1F4A5}\u{2728}\u{1F41B}]/u.test(s)]. *)
Definition startsWithMarker (s : jsstring) : bool :=
  match firstCodePoint s with
  | Some cp => ((cp =? 0x1F4A5) || (cp =? 0x2728) || (cp =? 0x1F41B))%N
  | None => false
  end.

(** ** Numeric collation and sorting *)

(** What numeric collation compares: a run of digits counts as the
    number it denotes (leading zeros do not matter), any other code unit
    as itself. *)
Inductive token :=
| TNum (v : Z)
| TChar (c : codeUnit).

Definition flush (acc : option Z) : list token :=
  match acc with
  | Some v => [TNum v]
  | None => []
  end.

Fixpoint tokensFrom (acc : option Z) (s : jsstring) : list token :=
  match s with
  | [] => flush acc
  | c :: r =>
      if isDigit c then
        tokensFrom (Some (10 * match acc with Some v => v | None => 0 end
                          + decDigit c)) r
      else flush acc ++ TChar c :: tokensFrom None r
  end.

Definition tokens (s : jsstring) : list token := tokensFrom None s.

Definition compareToken (a b : token) : comparison :=
  match a, b with
  | TNum x, TNum y => x ?= y
  | TChar c, TChar d => (c ?= d)%N
  | TChar c, TNum _ => if (c <? 48)%N then Lt else Gt
  | TNum _, TChar d => if (d <? 48)%N then Gt else Lt
  end.

Fixpoint compareTokens (a b : list token) : comparison :=
  match a, b with
  | [], [] => Eq
  | [], _ :: _ => Lt
  | _ :: _, [] => Gt
  | x :: a', y :: b' =>
      match compareToken x y with
      | Eq => compareTokens a' b'
      | c => c
      end
  end.

(** [a.localeCompare(b, undefined, { numeric: true })], as a sign.  The
    model is that of the collation on strings of ASCII digits and dots,
    which is all the scripts hand to it (the tags that passed
    [isVersionTag]): digit runs compare by value, and two tags that differ
    only in leading zeros compare equal.  Other code units are ordered by
    their value, which the scripts never rely on. *)
Definition localeCompareNumeric (a b : jsstring) : comparison :=
  compareTokens (tokens a) (tokens b).

Section Sort.
Variable A : Type.
Variable cmp : A -> A -> comparison.

Fixpoint insert (x : A) (l : list A) : list A :=
  match l with
  | [] => [x]
  | y :: l' =>
      match cmp x y with
      | Gt => y :: insert x l'
      | _ => x :: l
      end
  end.

(** [Array.prototype.sort] with a comparator: the sort is stable, so
    with a consistent comparator its result is the one an insertion
    sort from the right produces. *)
Definition sort (l : list A) : list A := fold_right insert [] l.
End Sort.

End Js.

(* ================================================================== *)
(** * The environment of a run *)
(* ================================================================== *)

Module Env.
Import Js.

(** ** Commits, tags, status *)

(** A commit is one the repository already holds, or one a script makes
    on top of another. *)
Inductive commit :=
| Existing (id : nat)
| Child (parent : commit) (message : jsstring).

Fixpoint commit_eqb (a b : commit) : bool :=
  match a, b with
  | Existing i, Existing j => Nat.eqb i j
  | Child p m, Child q n => commit_eqb p q && eqb m n
  | _, _ => false
  end.

(** Named references, in listing order. *)
Definition refs := list (jsstring * commit).

Fixpoint lookup (name : jsstring) (l : refs) : option commit :=
  match l with
  | [] => None
  | (n, c) :: l' => if eqb n name then Some c else lookup name l'
  end.

Definition names (l : refs) : list jsstring := map fst l.

(** [arr.includes(s)]. *)
Definition includes (l : list jsstring) (s : jsstring) : bool :=
  existsb (eqb s) l.

Definition remove (name : jsstring) (l : refs) : refs :=
  filter (fun p => negb (eqb (fst p) name)) l.

(** The fields of the [StatusResult] of [simple-git]. *)
Record StatusResult := {
  not_added : list jsstring;
  conflicted : list jsstring;
  created : list jsstring;
  deleted : list jsstring;
  modified : list jsstring;
  renamed : list (jsstring * jsstring);
  staged : list jsstring
}.

(** ** Exceptions and console output *)

Inductive exn :=
| FsError (path : jsstring)
| GitError (command : list jsstring)
| PromptError.

Inductive output :=
| Log (msg : jsstring)
| LogTags (exists_ : bool) (fromTag : jsstring) (allTags : list jsstring)
| LogRaw (logs : jsstring)
| Warn (msg : jsstring)
| Error (msg : jsstring)
| ErrorWith (msg : jsstring) (e : exn).

(** ** The world *)

Record World := {
  versionFile : option jsstring;    (* version.txt, when it exists *)
  changelogFile : option jsstring;  (* CHANGELOG.md, when it exists *)
  tags : refs;                      (* the local tags *)
  originTags : refs;                (* the tags of the remote *)
  originUp : bool;                  (* the remote can be reached *)
  HEAD : commit;
  revisions : refs;                 (* the other names git resolves *)
  logSince : commit -> jsstring;    (* git log c..HEAD, subjects, no merges *)
  status : option StatusResult;     (* git status, when it succeeds *)
  console : list output;            (* oldest first *)
  today : jsstring                  (* the date part of toISOString() *)
}.

Definition setVersionFile (s : jsstring) (w : World) : World :=
  {| versionFile := Some s; changelogFile := changelogFile w; tags := tags w;
     originTags := originTags w; originUp := originUp w; HEAD := HEAD w;
     revisions := revisions w; logSince := logSince w; status := status w;
     console := console w; today := today w |}.

Definition setChangelogFile (s : jsstring) (w : World) : World :=
  {| versionFile := versionFile w; changelogFile := Some s; tags := tags w;
     originTags := originTags w; originUp := originUp w; HEAD := HEAD w;
     revisions := revisions w; logSince := logSince w; status := status w;
     console := console w; today := today w |}.

Definition setTags (t : refs) (w : World) : World :=
  {| versionFile := versionFile w; changelogFile := changelogFile w;
     tags := t; originTags := originTags w; originUp := originUp w;
     HEAD := HEAD w; revisions := revisions w; logSince := logSince w;
     status := status w; console := console w; today := today w |}.

Definition setOriginTags (t : refs) (w : World) : World :=
  {| versionFile := versionFile w; changelogFile := changelogFile w;
     tags := tags w; originTags := t; originUp := originUp w;
     HEAD := HEAD w; revisions := revisions w; logSince := logSince w;
     status := status w; console := console w; today := today w |}.

Definition setHead (c : commit) (l : commit -> jsstring) (w : World) : World :=
  {| versionFile := versionFile w; changelogFile := changelogFile w;
     tags := tags w; originTags := originTags w; originUp := originUp w;
     HEAD := c; revisions := revisions w; logSince := l;
     status := status w; console := console w; today := today w |}.

Definition print (o : output) (w : World) : World :=
  {| versionFile := versionFile w; changelogFile := changelogFile w;
     tags := tags w; originTags := originTags w; originUp := originUp w;
     HEAD := HEAD w; revisions := revisions w; logSince := logSince w;
     status := status w; console := console w ++ [o]; today := today w |}.

(** ** The monad: state and exceptions

    An [await]ed promise that rejects throws; the scripts run one task
    after the other. *)

Inductive result (A : Type) :=
| Ok (a : A)
| Throw (e : exn).

Arguments Ok {A} a.
Arguments Throw {A} e.

Definition M (A : Type) : Type := World -> result A * World.

Definition ret {A} (a : A) : M A := fun w => (Ok a, w).

Definition throw {A} (e : exn) : M A := fun w => (Throw e, w).

Definition bind {A B} (m : M A) (k : A -> M B) : M B :=
  fun w =>
    match m w with
    | (Ok a, w') => k a w'
    | (Throw e, w') => (Throw e, w')
    end.

(** [try { m } catch (e) { h e }] and [m.catch(h)]. *)
Definition catch {A} (m : M A) (h : exn -> M A) : M A :=
  fun w =>
    match m w with
    | (Ok a, w') => (Ok a, w')
    | (Throw e, w') => h e w'
    end.

Definition gets {A} (f : World -> A) : M A := fun w => (Ok (f w), w).

Definition modify (f : World -> World) : M unit := fun w => (Ok tt, f w).

Declare Scope js_scope.
Delimit Scope js_scope with js.

Notation "x <- m ;; k" := (bind m (fun x => k))
  (at level 61, m at next level, right associativity) : js_scope.
Notation "m ;; k" := (bind m (fun _ => k))
  (at level 61, right associativity) : js_scope.

Local Open Scope js_scope.

(** ** The console *)

Definition console_log (s : jsstring) : M unit := modify (print (Log s)).
Definition console_warn (s : jsstring) : M unit := modify (print (Warn s)).
Definition console_error (s : jsstring) : M unit := modify (print (Error s)).

(** ** The file system *)

Definition VERSION_TXT : jsstring := lit "version.txt".

(** [fs.readFileSync(versionFile, "utf-8")]. *)
Definition readVersionFile : M jsstring :=
  fun w =>
    match versionFile w with
    | Some s => (Ok s, w)
    | None => (Throw (FsError VERSION_TXT), w)
    end.

(** [fs.writeFileSync(versionFile, s, "utf-8")]. *)
Definition writeVersionFile (s : jsstring) : M unit :=
  modify (setVersionFile s).

(** [fs.existsSync(changelogFile) ? fs.readFileSync(changelogFile,
    "utf-8") : ""]. *)
Definition existingChangelog : M jsstring :=
  gets (fun w => match changelogFile w with Some s => s | None => [] end).

Definition writeChangelogFile (s : jsstring) : M unit :=
  modify (setChangelogFile s).

(** ** [simple-git]

    Each task runs git and rejects when git exits with an error. *)

(** [git.tags()]: the names of the local tags. *)
Definition git_tags : M (list jsstring) := gets (fun w => names (tags w)).

(** What [git fetch --tags] brings in: the remote tags whose names are
    not taken locally. *)
Definition fetched (local remote : refs) : refs :=
  local ++ filter (fun p => negb (includes (names local) (fst p))) remote.

(** [clashes these those]: one of [these] tags is held by [those] on
    another commit.  Git moves no tag on a fetch or on a push: such a tag
    is rejected, and the command fails. *)
Definition clashes (these those : refs) : bool :=
  existsb (fun p => match lookup (fst p) those with
                    | Some c => negb (commit_eqb c (snd p))
                    | None => false
                    end) these.

(** [git.fetch(["--tags"])].  A tag of the remote whose name is taken
    locally by another commit is rejected ("would clobber existing tag"):
    the other tags are fetched all the same, and the command fails. *)
Definition git_fetch_tags : M unit :=
  fun w =>
    if originUp w then
      let w' := setTags (fetched (tags w) (originTags w)) w in
      if clashes (originTags w) (tags w)
      then (Throw (GitError [lit "fetch"; lit "--tags"]), w')
      else (Ok tt, w')
    else (Throw (GitError [lit "fetch"; lit "--tags"]), w).

(** The commit a revision name denotes: a tag, or another name. *)
Definition resolve (name : jsstring) (w : World) : option commit :=
  match lookup name (tags w) with
  | Some c => Some c
  | None => lookup name (revisions w)
  end.

(** [git.raw(["log", `${from}..HEAD`, "--pretty=format:%s",
    "--no-merges"])]: git fails on a name it cannot resolve. *)
Definition git_log_since (from : jsstring) : M jsstring :=
  fun w =>
    match resolve from w with
    | Some c => (Ok (logSince w c), w)
    | None => (Throw (GitError [lit "log"; from ++ lit "..HEAD"]), w)
    end.

(** [git.push(["--delete", "origin", tag])]. *)
Definition git_push_delete (tag : jsstring) : M unit :=
  fun w =>
    if originUp w && includes (names (originTags w)) tag
    then (Ok tt, setOriginTags (remove tag (originTags w)) w)
    else (Throw (GitError [lit "push"; lit "--delete"; lit "origin"; tag]), w).

(** [git.tag(["-d", tag])]. *)
Definition git_tag_delete (tag : jsstring) : M unit :=
  fun w =>
    if includes (names (tags w)) tag
    then (Ok tt, setTags (remove tag (tags w)) w)
    else (Throw (GitError [lit "tag"; lit "-d"; tag]), w).

(** [git.addTag(name, ...rest)] runs [git tag name]: a lightweight tag
    on the head of the current branch.  The method takes the name and an
    optional callback: of what follows the name only a function is used,
    so the strings in [rest] are dropped.  Git refuses a name that is
    taken. *)
Definition git_addTag (name : jsstring) (rest : list jsstring) : M unit :=
  fun w =>
    if includes (names (tags w)) name
    then (Throw (GitError [lit "tag"; name]), w)
    else (Ok tt, setTags (tags w ++ [(name, HEAD w)]) w).

(** What [git push --tags] leaves on the remote: the local tags whose
    names are new there are added. *)
Definition pushed (local remote : refs) : refs :=
  remote ++ filter (fun p => negb (includes (names remote) (fst p))) local.

(** [git.pushTags()]. *)
Definition git_pushTags : M unit :=
  fun w =>
    if originUp w then
      let w' := setOriginTags (pushed (tags w) (originTags w)) w in
      if clashes (tags w) (originTags w)
      then (Throw (GitError [lit "push"; lit "--tags"]), w')
      else (Ok tt, w')
    else (Throw (GitError [lit "push"; lit "--tags"]), w).

(** [git.status()]. *)
Definition git_status : M StatusResult :=
  fun w =>
    match status w with
    | Some s => (Ok s, w)
    | None => (Throw (GitError [lit "status"]), w)
    end.

(** [git.add(files)] followed by [git.commit(message)]: a new commit on
    top of [HEAD], whose subject now heads every log up to [HEAD].

    [src/release.ts] starts the two commands and does not wait for them,
    so in a run of the script the commit may land while the commands that
    follow it are at work, or fail.  This is the run in which it lands at
    once.  What is proved of the UAT release after this point says nothing
    of [HEAD] or of the commit a tag is put on. *)
Definition git_add_commit (message : jsstring) : M unit :=
  modify (fun w =>
    let c := Child (HEAD w) message in
    setHead c (fun from =>
      if commit_eqb from c then []
      else match logSince w from with
           | [] => message
           | older => message ++ LF :: older
           end) w).

(** ** The prompt

    An [inquirer] list prompt answers with one of its choices; [pick] is
    the position of the one the user takes. *)
Definition prompt (choices : list jsstring) (pick : nat) : M jsstring :=
  match nth_error choices pick with
  | Some c => ret c
  | None => throw PromptError
  end.

End Env.

(* ================================================================== *)
(** * What the two scripts share *)
(* ================================================================== *)

(** [interface Version]. *)
Module Version.
Record t := { X : Js.jsval; Y : Js.jsval; Z : Js.jsval; R : Js.jsval }.
End Version.

Module Common.
Import Js Env.
Local Open Scope js_scope.

(** The four transitions of the menu. *)
Inductive transition :=
| UatRelease
| StartNextRelease
| ProdRelease
| Generation.

(** The template [`${v.X}.${v.Y}.${v.Z}.${v.R}`]. *)
Definition versionString (v : Version.t) : jsstring :=
  toString (Version.X v) ++ lit "." ++ toString (Version.Y v) ++ lit "."
  ++ toString (Version.Z v) ++ lit "." ++ toString (Version.R v).

(** The template [`${current.X}.${current.Y}.${current.Z}.${current.R +
    1}`]. *)
Definition nextTag (v : Version.t) : jsstring :=
  toString (Version.X v) ++ lit "." ++ toString (Version.Y v) ++ lit "."
  ++ toString (Version.Z v) ++ lit "."
  ++ toString (plusOne (Version.R v)).

(** [const [X, Y, Z, R] = content.trim().split(".").map(Number); return
    { X, Y, Z, R }]. *)
Definition parseVersion (content : jsstring) : Version.t :=
  let parts := map Number (split DOT (trim content)) in
  {| Version.X := element parts 0; Version.Y := element parts 1;
     Version.Z := element parts 2; Version.R := element parts 3 |}.

(** [current.R++]. *)
Definition bumpR (v : Version.t) : Version.t :=
  {| Version.X := Version.X v; Version.Y := Version.Y v;
     Version.Z := Version.Z v; Version.R := plusOne (Version.R v) |}.

(** [current.Z++; current.R = 0]. *)
Definition bumpZ (v : Version.t) : Version.t :=
  {| Version.X := Version.X v; Version.Y := Version.Y v;
     Version.Z := plusOne (Version.Z v); Version.R := Num (ofZ 0) |}.

(** [current.Y++; current.Z = 0; current.R = 0]. *)
Definition bumpY (v : Version.t) : Version.t :=
  {| Version.X := Version.X v; Version.Y := plusOne (Version.Y v);
     Version.Z := Num (ofZ 0); Version.R := Num (ofZ 0) |}.

(** [(line) => /^[\u{1F4A5}\u{2728}\u{1F41B}]/u.test(line.trim())]. *)
Definition qualifies (line : jsstring) : bool := startsWithMarker (trim line).

(** [(a, b) => b.localeCompare(a, undefined, { numeric: true })]. *)
Definition descending (a b : jsstring) : comparison :=
  localeCompareNumeric b a.

(** The block [`## ${version} (${date})\n${logLines.map((l) => `- ${l}`)
    .join("\n")}\n\n`]. *)
Definition changelogEntry (version date : jsstring) (logLines : list jsstring)
  : jsstring :=
  lit "## " ++ version ++ lit " (" ++ date ++ lit ")" ++ [LF]
  ++ join [LF] (map (fun l => lit "- " ++ l) logLines) ++ [LF; LF].

(** [`${selectedTag.split(".").slice(0, 3).join(".")}.PRODUCTION`]. *)
Definition productionTag (selectedTag : jsstring) : jsstring :=
  join (lit ".") (firstn 3 (split DOT selectedTag)) ++ lit ".PRODUCTION".

(** [deleteRemoteTag]: both deletions swallow their failure. *)
Definition deleteRemoteTag (tag : jsstring) : M unit :=
  catch (git_push_delete tag) (fun _ => ret tt) ;;
  catch (git_tag_delete tag) (fun _ => ret tt).

Definition CHECK_MARK : jsstring := [0x2705%N].
Definition BROOM : jsstring := [0xD83E%N; 0xDDF9%N].

Definition UAT_LATEST : jsstring := lit "UAT-LATEST".
Definition PRODUCTION_LATEST : jsstring := lit "PRODUCTION-LATEST".

Definition START_NEXT : jsstring := lit "UAT start work on next release".
Definition PROD_RELEASE : jsstring := lit "PROD release".
Definition GENERATION : jsstring := lit "GENERATION".

(** The first choice of the menu. *)
Definition uatChoice (shown newTag : jsstring) : jsstring :=
  lit "UAT release, current version: " ++ shown
  ++ lit ", changes will be tagged as " ++ newTag.

(** The PROD release branch, the same in both scripts. [tags] is what
    [getAllTags] answered. *)
Definition prodRelease (getAllTags : M (list jsstring)) (pickTag : nat)
  : M unit :=
  tags <- getAllTags ;;
  let sorted := sort descending tags in
  selectedTag <- prompt sorted pickTag ;;
  deleteRemoteTag PRODUCTION_LATEST ;;
  git_addTag PRODUCTION_LATEST [selectedTag] ;;
  git_pushTags ;;
  let prodTag := productionTag selectedTag in
  deleteRemoteTag prodTag ;;
  git_addTag prodTag [selectedTag] ;;
  git_pushTags ;;
  console_log (CHECK_MARK ++ lit " Promoted " ++ selectedTag ++ lit " -> "
               ++ prodTag ++ lit " & PRODUCTION-LATEST").

End Common.

(* ================================================================== *)
(** * [src/unnamed/part_000] *)
(* ================================================================== *)

Module Part000.
Import Js Env Common.
Local Open Scope js_scope.

Definition readCurrentVersion : M Version.t :=
  content <- readVersionFile ;;
  ret (parseVersion content).

Definition writeVersion (v : Version.t) : M unit :=
  writeVersionFile (versionString v).

Definition getAllTags : M (list jsstring) :=
  all <- git_tags ;;
  ret (filter isVersionTag all).

Definition getChangelogSince (fromTag : jsstring) : M (list jsstring) :=
  logs <- git_log_since fromTag ;;
  ret (filter qualifies (split LF logs)).

Definition updateChangelog (version : jsstring) (logLines : list jsstring)
  : M unit :=
  date <- gets today ;;
  let entry := changelogEntry version date logLines in
  existing <- existingChangelog ;;
  writeChangelogFile (entry ++ existing).

(** The branch the answer selects: the chain of [if (releaseType ===
    ...)]. *)
Definition branchOf (releaseType : jsstring) : option transition :=
  if eqb releaseType (lit "UAT release") then Some UatRelease
  else if eqb releaseType START_NEXT then Some StartNextRelease
  else if eqb releaseType PROD_RELEASE then Some ProdRelease
  else if eqb releaseType GENERATION then Some Generation
  else None.

(** The body of the UAT release branch. *)
Definition uatRelease (current : Version.t)
    (currentTag newTagMakeUATRelease : jsstring) : M unit :=
  let current := bumpR current in
  writeVersion current ;;
  logs <- getChangelogSince currentTag ;;
  git_addTag newTagMakeUATRelease [] ;;
  git_pushTags ;;
  updateChangelog newTagMakeUATRelease logs ;;
  console_log (CHECK_MARK ++ lit " UAT released: " ++ newTagMakeUATRelease).

Definition startNextRelease (current : Version.t) : M unit :=
  let current := bumpZ current in
  writeVersion current ;;
  console_log (CHECK_MARK ++ lit " Started work on UAT release: "
               ++ versionString current).

Definition generation (current : Version.t) : M unit :=
  let current := bumpY current in
  writeVersion current ;;
  console_log (CHECK_MARK ++ lit " Generation version updated to: "
               ++ toString (Version.X current) ++ lit "."
               ++ toString (Version.Y current) ++ lit ".0.0").

(** The body of the script; [pick] and [pickTag] are the user's answers
    to the two prompts. *)
Definition main (pick pickTag : nat) : M unit :=
  current <- readCurrentVersion ;;
  let currentTag := versionString current in
  let newTagMakeUATRelease := nextTag current in
  releaseType <-
    prompt [uatChoice currentTag newTagMakeUATRelease;
            START_NEXT; PROD_RELEASE; GENERATION] pick ;;
  match branchOf releaseType with
  | Some UatRelease => uatRelease current currentTag newTagMakeUATRelease
  | Some StartNextRelease => startNextRelease current
  | Some ProdRelease => prodRelease getAllTags pickTag
  | Some Generation => generation current
  | None => ret tt
  end.

End Part000.

(* ================================================================== *)
(** * [src/release.ts] *)
(* ================================================================== *)

Module Release.
Import Js Env Common.
Local Open Scope js_scope.

Definition loadRemoteTags : M unit :=
  catch git_fetch_tags
    (fun error =>
       modify (print (ErrorWith (lit "Failed to fetch remote tags:") error)) ;;
       throw error).

Definition readCurrentVersionFromFile : M Version.t :=
  content <- readVersionFile ;;
  ret (parseVersion content).

Definition writeVersionIntoFile (v : Version.t) : M unit :=
  writeVersionFile (versionString v).

Definition getAllTags : M (list jsstring) :=
  all <- git_tags ;;
  ret (sort descending (filter isVersionTag all)).

Definition getLatestTag : M (option jsstring) :=
  tags <- getAllTags ;;
  ret (nth_error tags 0).

Definition tagExists (tag : jsstring) : M bool :=
  all <- git_tags ;;
  ret (includes all tag).

(** The filter of [findBiggerVersion]: the tag is above the version of
    the file. *)
Definition bigger (currentVersion : Version.t) (tag : jsstring) : bool :=
  let parts := map Number (split DOT tag) in
  let X := element parts 0 in
  let Y := element parts 1 in
  let Z := element parts 2 in
  let R := element parts 3 in
  gt X (Version.X currentVersion)
  || (strictEq X (Version.X currentVersion)
      && gt Y (Version.Y currentVersion))
  || (strictEq X (Version.X currentVersion)
      && strictEq Y (Version.Y currentVersion)
      && gt Z (Version.Z currentVersion))
  || (strictEq X (Version.X currentVersion)
      && strictEq Y (Version.Y currentVersion)
      && strictEq Z (Version.Z currentVersion)
      && gt R (Version.R currentVersion)).

Definition findBiggerVersion : M (option jsstring) :=
  loadRemoteTags ;;
  currentVersion <- readCurrentVersionFromFile ;;
  allTags <- getAllTags ;;
  let biggerTags := filter (bigger currentVersion) allTags in
  ret (nth_error biggerTags 0).

Definition getChangelogSince (fromTag : jsstring) : M (list jsstring) :=
  exists_ <- tagExists fromTag ;;
  allTags <- getAllTags ;;
  modify (print (LogTags exists_ fromTag allTags)) ;;
  if negb exists_ then
    console_warn (lit "Tag '" ++ fromTag
                  ++ lit "' does not exist. Skipping changelog.") ;;
    ret []
  else
    logs <- git_log_since fromTag ;;
    modify (print (LogRaw logs)) ;;
    ret (filter qualifies (split LF logs)).

Definition updateChangelogAndCommitIt (version : jsstring)
    (logLines : list jsstring) : M unit :=
  date <- gets today ;;
  let entry := changelogEntry version date logLines in
  existing <- existingChangelog ;;
  writeChangelogFile (entry ++ existing) ;;
  git_add_commit (BROOM ++ lit " chore: update changelog for " ++ version).

Definition getUnchangedFileCount : M Z :=
  catch
    (status <- git_status ;;
     ret (Z.of_nat (List.length (not_added status))
          + Z.of_nat (List.length (renamed status))
          + Z.of_nat (List.length (modified status)))%Z)
    (fun error =>
       modify (print (ErrorWith (lit "Failed to get unchanged file count:")
                        error)) ;;
       ret (-1)%Z).

(** The branch the answer selects: the chain of [if (releaseType ===
    ...)]; the first test is against [choices[0]]. *)
Definition branchOf (choices : list jsstring) (releaseType : jsstring)
  : option transition :=
  if match nth_error choices 0 with
     | Some c => eqb releaseType c
     | None => false
     end then Some UatRelease
  else if eqb releaseType START_NEXT then Some StartNextRelease
  else if eqb releaseType PROD_RELEASE then Some ProdRelease
  else if eqb releaseType GENERATION then Some Generation
  else None.

(** The body of the UAT release branch. *)
Definition uatRelease (current : Version.t)
    (latestTagVersion latestVersion : option jsstring)
    (currentVersionStr newTagMakeUATRelease : jsstring) : M unit :=
  let current := bumpR current in
  writeVersionIntoFile current ;;
  let fromTag :=
    orElse latestTagVersion (orElse latestVersion currentVersionStr) in
  logs <- getChangelogSince fromTag ;;
  console_log (lit "Preparing UAT release: " ++ newTagMakeUATRelease) ;;
  match logs with
  | [] => console_log (lit "No changes to release, exiting.")
  | _ =>
      console_log (lit "Changes since last release:" ++ [LF]
                   ++ join [LF] logs) ;;
      updateChangelogAndCommitIt newTagMakeUATRelease logs ;;
      git_addTag newTagMakeUATRelease [] ;;
      deleteRemoteTag UAT_LATEST ;;
      git_addTag UAT_LATEST [] ;;
      git_pushTags ;;
      console_log (CHECK_MARK ++ lit " UAT released: "
                   ++ newTagMakeUATRelease)
  end.

Definition startNextRelease (current : Version.t) : M unit :=
  let current := bumpZ current in
  writeVersionIntoFile current ;;
  console_log (CHECK_MARK ++ lit " Started work on UAT release: "
               ++ versionString current).

Definition generation (current : Version.t) : M unit :=
  let current := bumpY current in
  writeVersionIntoFile current ;;
  console_log (CHECK_MARK ++ lit " Generation version updated to: "
               ++ toString (Version.X current) ++ lit "."
               ++ toString (Version.Y current) ++ lit ".0.0").

(** What follows the guard on the working tree. *)
Definition release (pick pickTag : nat) : M unit :=
  current <- readCurrentVersionFromFile ;;
  latestVersion <- findBiggerVersion ;;
  latestTagVersion <- getLatestTag ;;
  let currentVersionStr := versionString current in
  let displayVersion := orElse latestVersion currentVersionStr in
  let newTagMakeUATRelease := nextTag current in
  let choices := [uatChoice displayVersion newTagMakeUATRelease;
                  START_NEXT; PROD_RELEASE; GENERATION] in
  releaseType <- prompt choices pick ;;
  match branchOf choices releaseType with
  | Some UatRelease =>
      uatRelease current latestTagVersion latestVersion currentVersionStr
        newTagMakeUATRelease
  | Some StartNextRelease => startNextRelease current
  | Some ProdRelease => prodRelease getAllTags pickTag
  | Some Generation => generation current
  | None => ret tt
  end.

(** The body of the script; [pick] and [pickTag] are the user's answers
    to the two prompts. *)
Definition main (pick pickTag : nat) : M unit :=
  unchangedFileCount <- getUnchangedFileCount ;;
  if (0 <? unchangedFileCount)%Z then
    console_error (lit "There are "
                   ++ toString (Num (ofZ unchangedFileCount))
                   ++ lit " unchanged files. Please commit or stash them"
                   ++ lit " before proceeding.")
  else release pick pickTag.

End Release.

(* ================================================================== *)
(** * The notions the properties are stated with *)
(* ================================================================== *)

(** ** Small integers as binary64 values *)

Module Binary64.
Import Js.
Local Open Scope Z_scope.

(** A mantissa in the course of a right shift, with no bit lost so
    far. *)
Definition exactly (m : Z) : shr_record :=
  {| shr_m := m; shr_r := false; shr_s := false |}.

(** The canonical mantissa and exponent of a positive integer of at most
    53 bits. *)
Definition mantissa (p : positive) : positive :=
  match (53 - Z.pos (digits2_pos p))%Z with
  | Z.pos k => (p * 2 ^ k)%positive
  | _ => p
  end.

Definition exponent (p : positive) : Z := (Z.pos (digits2_pos p) - 53)%Z.

End Binary64.

Import Js Env Common.
Local Open Scope js_scope.

(** ** Worlds to run the scripts in *)

(** The status of a clean working tree. *)
Definition cleanStatus : StatusResult :=
  {| not_added := []; conflicted := []; created := []; deleted := [];
     modified := []; renamed := []; staged := [] |}.

(** A repository with no tag, a reachable remote and a clean tree, with
    the given version file and the given log for every range. *)
Definition repo (version : option jsstring) (log : jsstring) : World :=
  {| versionFile := version; changelogFile := None; tags := [];
     originTags := []; originUp := true; HEAD := Existing 0;
     revisions := []; logSince := fun _ => log; status := Some cleanStatus;
     console := []; today := lit "2025-01-31" |}.

(** The same with the given local tags and [HEAD]. *)
Definition withTags (t : refs) (head : commit) (w : World) : World :=
  setHead head (logSince w) (setTags t w).

(** [keeps f m]: running [m] does not change what [f] observes. *)
Definition keeps {A B} (f : World -> A) (m : M B) : Prop :=
  forall w, f (snd (m w)) = f w.

(** What the guard counts. *)
Definition counted (st : StatusResult) : Z :=
  (Z.of_nat (List.length (not_added st))
   + Z.of_nat (List.length (renamed st))
   + Z.of_nat (List.length (modified st)))%Z.

(** [x] goes before [y] for the comparator, or they tie. *)
Definition before {A : Type} (cmp : A -> A -> comparison) (x y : A) : Prop :=
  cmp x y <> Gt.

(** The integers a tag denotes. *)
Definition components (tag : jsstring) : list Z :=
  map digitsValue (split DOT tag).

(** Component by component, as integers. *)
Fixpoint compareVersions (a b : list Z) : comparison :=
  match a, b with
  | [], [] => Eq
  | [], _ :: _ => Lt
  | _ :: _, [] => Gt
  | x :: a', y :: b' =>
      match (x ?= y)%Z with
      | Eq => compareVersions a' b'
      | c => c
      end
  end.

(** A numeric run: one digit at least, and digits only. *)
Definition isRun (d : jsstring) : Prop :=
  d <> [] /\ forallb isDigit d = true.

(** [a] denotes a version that is not below the one of [b]. *)
Definition notBelow (a b : jsstring) : Prop :=
  compareVersions (components a) (components b) <> Lt.

(** [a] denotes a version above the one of [b]. *)
Definition above (a b : jsstring) : Prop :=
  compareVersions (components a) (components b) = Gt.

(** [t] matches the four-integer pattern. *)
Definition versionTag (t : jsstring) : Prop := isVersionTag t = true.

(** A string that neither starts nor ends with white space. *)
Definition untrimmed (s : jsstring) : Prop :=
  match s with c :: _ => isWhiteSpace c = false | [] => True end
  /\ match rev s with c :: _ => isWhiteSpace c = false | [] => True end.

(** The file that holds the version (x, y, z, r): [x.y.z.r] in decimal
    digits, without leading zeros. *)
Definition canonical (x y z r : N) : jsstring :=
  digitsOf x ++ lit "." ++ digitsOf y ++ lit "." ++ digitsOf z ++ lit "."
  ++ digitsOf r.

(** The Version that holds (x, y, z, r). *)
Definition versionOf (x y z r : N) : Version.t :=
  {| Version.X := Num (ofZ (Z.of_N x)); Version.Y := Num (ofZ (Z.of_N y));
     Version.Z := Num (ofZ (Z.of_N z)); Version.R := Num (ofZ (Z.of_N r)) |}.

(** What the version file holds after the version is read and written
    back. *)
Definition rewritten (read : M Version.t) (write : Version.t -> M unit)
    (w : World) : option jsstring :=
  match read w with
  | (Ok v, w1) => versionFile (snd (write v w1))
  | (Throw _, _) => None
  end.

(* ================================================================== *)
(** * Properties *)
(* ================================================================== *)

(** ** Strings *)

Lemma eqb_refl (s : jsstring) : eqb s s = true.
Proof.
  induction s as [|c s IH]; simpl; [reflexivity|].
  now rewrite N.eqb_refl, IH.
Qed.

Lemma eqb_eq (a b : jsstring) : eqb a b = true <-> a = b.
Proof.
  split.
  - revert b; induction a as [|x a IH]; intros [|y b]; simpl; try easy.
    intros H; apply andb_prop in H as [Hx Hab].
    apply N.eqb_eq in Hx; subst; f_equal; auto.
  - intros ->; apply eqb_refl.
Qed.

Lemma includes_In (l : list jsstring) (s : jsstring) :
  includes l s = true <-> In s l.
Proof.
  unfold includes; rewrite existsb_exists; split.
  - intros (x & Hx & E); apply eqb_eq in E; now subst.
  - intros H; exists s; split; [assumption | apply eqb_refl].
Qed.

Lemma includes_lookup (l : refs) (name : jsstring) :
  includes (names l) name = true -> exists c, lookup name l = Some c.
Proof.
  induction l as [|[n c] l IH]; simpl; [discriminate|].
  unfold includes in *; simpl.
  destruct (eqb n name) eqn:E.
  - intros _; now exists c.
  - assert (eqb name n = false) as ->.
    { destruct (eqb name n) eqn:E'; [|reflexivity].
      apply eqb_eq in E'; subst; now rewrite eqb_refl in E. }
    simpl; exact IH.
Qed.

Lemma lookup_includes (l : refs) (name : jsstring) :
  includes (names l) name = false -> lookup name l = None.
Proof.
  intros H; destruct (lookup name l) eqn:E; [|reflexivity].
  assert (In name (names l)) as Hin.
  { clear H; induction l as [|[n c'] l IH]; simpl in *; [discriminate|].
    destruct (eqb n name) eqn:E'.
    - left; now apply eqb_eq.
    - right; auto. }
  apply includes_In in Hin; congruence.
Qed.

(** ** What a computation leaves alone *)

Lemma keeps_ret {A B} (f : World -> A) (b : B) : keeps f (ret b).
Proof. now intros w. Qed.

Lemma keeps_throw {A B} (f : World -> A) (e : exn) : keeps f (@throw B e).
Proof. now intros w. Qed.

Lemma keeps_gets {A B} (f : World -> A) (g : World -> B) : keeps f (gets g).
Proof. now intros w. Qed.

Lemma keeps_bind {A B C} (f : World -> A) (m : M B) (k : B -> M C) :
  keeps f m -> (forall b, keeps f (k b)) -> keeps f (bind m k).
Proof.
  intros Hm Hk w; unfold bind.
  specialize (Hm w); destruct (m w) as [[b|e] w']; simpl in *.
  - now rewrite Hk.
  - assumption.
Qed.

Lemma keeps_catch {A B} (f : World -> A) (m : M B) (h : exn -> M B) :
  keeps f m -> (forall e, keeps f (h e)) -> keeps f (catch m h).
Proof.
  intros Hm Hh w; unfold catch.
  specialize (Hm w); destruct (m w) as [[b|e] w']; simpl in *.
  - assumption.
  - now rewrite Hh.
Qed.

Lemma keeps_print {A} (f : World -> A) (o : output) :
  (forall w, f (print o w) = f w) -> keeps f (modify (print o)).
Proof. intros H w; apply H. Qed.

Lemma keeps_prompt {A} (f : World -> A) (choices : list jsstring) (n : nat) :
  keeps f (prompt choices n).
Proof. unfold prompt; destruct (nth_error choices n); now intros w. Qed.

(** Unfolds a primitive and decides its tests. *)
Ltac primitive :=
  let w := fresh "w" in
  intro w; cbv beta delta [git_fetch_tags git_log_since git_push_delete
    git_tag_delete git_addTag git_pushTags git_status git_add_commit
    readVersionFile writeVersionFile existingChangelog writeChangelogFile
    git_tags console_log console_warn console_error modify gets];
  repeat match goal with
         | |- context [if ?b then _ else _] => destruct b
         | |- context [match ?o with Some _ => _ | None => _ end] =>
             destruct o
         end;
  reflexivity.

Lemma deleteRemoteTag_keeps_files {A} (f : World -> A) (tag : jsstring) :
  (forall t w, f (setTags t w) = f w) ->
  (forall t w, f (setOriginTags t w) = f w) ->
  keeps f (deleteRemoteTag tag).
Proof.
  intros Ht Ho; unfold deleteRemoteTag.
  apply keeps_bind; [|intro]; (apply keeps_catch; [|intro; apply keeps_ret]).
  - intro w; unfold git_push_delete.
    destruct (originUp w && _); [apply Ho | reflexivity].
  - intro w; unfold git_tag_delete.
    destruct (includes _ _); [apply Ht | reflexivity].
Qed.

(** [deleteRemoteTag] never throws. *)
Lemma deleteRemoteTag_ok (tag : jsstring) (w : World) :
  fst (deleteRemoteTag tag w) = Ok tt.
Proof.
  unfold deleteRemoteTag, bind, catch, ret, git_push_delete, git_tag_delete.
  destruct (originUp w && _); simpl;
    match goal with |- context [if ?b then _ else _] => destruct b end;
    reflexivity.
Qed.

(** After [deleteRemoteTag] the name is free locally. *)
Lemma remove_lookup (name : jsstring) (l : refs) :
  lookup name (remove name l) = None.
Proof.
  induction l as [|[n c] l IH]; simpl; [reflexivity|].
  destruct (eqb n name) eqn:E; simpl; [assumption|].
  now rewrite E.
Qed.

Lemma remove_absent (name : jsstring) (l : refs) :
  includes (names l) name = false -> remove name l = l.
Proof.
  induction l as [|[n c] l IH]; simpl; [reflexivity|].
  unfold includes in *; simpl.
  intros H; apply orb_false_elim in H as [Hn Hl].
  assert (eqb n name = false) as ->.
  { destruct (eqb n name) eqn:E; [|reflexivity].
    apply eqb_eq in E; subst; now rewrite eqb_refl in Hn. }
  simpl; f_equal; auto.
Qed.

Lemma deleteRemoteTag_tags (tag : jsstring) (w : World) :
  tags (snd (deleteRemoteTag tag w)) = remove tag (tags w).
Proof.
  unfold deleteRemoteTag, bind, catch, ret, git_push_delete, git_tag_delete.
  destruct (originUp w && _); simpl;
    destruct (includes (names (tags w)) tag) eqn:E; simpl;
    try reflexivity; now rewrite remove_absent.
Qed.

Lemma deleteRemoteTag_HEAD (tag : jsstring) (w : World) :
  HEAD (snd (deleteRemoteTag tag w)) = HEAD w.
Proof. now apply deleteRemoteTag_keeps_files. Qed.

(** ** The version file is read without validation *)

Lemma split_nonempty (sep : codeUnit) (s : jsstring) : split sep s <> [].
Proof.
  destruct s as [|c s]; simpl; [discriminate|].
  destruct (c =? sep)%N; [discriminate|].
  destruct (split sep s); discriminate.
Qed.

(** C1, counterexample.  The read operation returns a Version for a file
    that does not hold four dot-separated numeric segments, in both
    scripts: with three segments [R] is [undefined], with five the last
    one is dropped, and a segment that is not a number reads as [NaN]. *)
Lemma read_accepts_malformed_version_file :
  isVersionTag (lit "1.2.3") = false
  /\ fst (Release.readCurrentVersionFromFile (repo (Some (lit "1.2.3")) []))
     = Ok {| Version.X := Num (ofZ 1); Version.Y := Num (ofZ 2);
             Version.Z := Num (ofZ 3); Version.R := Undefined |}
  /\ fst (Part000.readCurrentVersion (repo (Some (lit "1.2.3")) []))
     = Ok {| Version.X := Num (ofZ 1); Version.Y := Num (ofZ 2);
             Version.Z := Num (ofZ 3); Version.R := Undefined |}
  /\ isVersionTag (lit "1.2.3.4.5") = false
  /\ fst (Release.readCurrentVersionFromFile
            (repo (Some (lit "1.2.3.4.5")) []))
     = Ok {| Version.X := Num (ofZ 1); Version.Y := Num (ofZ 2);
             Version.Z := Num (ofZ 3); Version.R := Num (ofZ 4) |}
  /\ isVersionTag (lit "4.x.2.1") = false
  /\ fst (Release.readCurrentVersionFromFile (repo (Some (lit "4.x.2.1")) []))
     = Ok {| Version.X := Num (ofZ 4); Version.Y := Num NaN;
             Version.Z := Num (ofZ 2); Version.R := Num (ofZ 1) |}.
Proof. repeat split; vm_compute; reflexivity. Qed.

(** C1, as the code has it.  Whatever the version file holds, the read
    operation of either script returns a Version and does not fail: each
    of X, Y, Z, R is [Number] of the segment of the trimmed content at its
    position, and [undefined] when the content has no such segment;
    segments after the fourth are ignored.  X is never [undefined]. *)
Theorem read_version_never_fails (w : World) (content : jsstring) :
  let w' := setVersionFile content w in
  let parts := map Number (split DOT (trim content)) in
  exists v : Version.t,
    Release.readCurrentVersionFromFile w' = (Ok v, w')
    /\ Part000.readCurrentVersion w' = (Ok v, w')
    /\ Version.X v = element parts 0 /\ Version.Y v = element parts 1
    /\ Version.Z v = element parts 2 /\ Version.R v = element parts 3
    /\ Version.X v <> Undefined.
Proof.
  intros w' parts; exists (parseVersion content).
  repeat split.
  subst parts; simpl.
  destruct (split DOT (trim content)) eqn:E.
  - now apply split_nonempty in E.
  - discriminate.
Qed.

(** ** The menu *)

(** The later script takes the branch of the choice that was picked. *)
Lemma release_branchOf (shown newTag : jsstring) :
  let choices := [uatChoice shown newTag; START_NEXT; PROD_RELEASE;
                  GENERATION] in
  map (Release.branchOf choices) choices
  = [Some UatRelease; Some StartNextRelease; Some ProdRelease;
     Some Generation].
Proof.
  simpl; unfold Release.branchOf; cbn [nth_error].
  rewrite eqb_refl; reflexivity.
Qed.

(** With a version file and a reachable remote whose tags the fetch
    accepts, the first choice of the later script runs its UAT release: on
    the tags as fetched, from the latest tag if there is one. *)
Lemma release_first_choice_runs_uat
    (w : World) (content : jsstring) (pickTag : nat) :
  versionFile w = Some content -> originUp w = true ->
  clashes (originTags w) (tags w) = false ->
  let w1 := setTags (fetched (tags w) (originTags w)) w in
  let current := parseVersion content in
  let listed := sort descending (filter isVersionTag (names (tags w1))) in
  Release.release 0 pickTag w
  = Release.uatRelease current (nth_error listed 0)
      (nth_error (filter (Release.bigger current) listed) 0)
      (versionString current) (nextTag current) w1.
Proof.
  intros Hv Hup Hcl w1 current listed.
  unfold Release.release, Release.readCurrentVersionFromFile,
    Release.findBiggerVersion, Release.loadRemoteTags, Release.getLatestTag,
    Release.getAllTags, Release.readCurrentVersionFromFile.
  unfold bind, catch, readVersionFile, git_fetch_tags, git_tags, gets, ret,
    prompt.
  rewrite Hv, Hup, Hcl; cbn [versionFile setTags nth_error].
  rewrite Hv; unfold Release.branchOf, ret; cbn [nth_error].
  now rewrite eqb_refl.
Qed.

(** C3, the defect.  In [src/unnamed/part_000] the first choice of the
    menu, the UAT release, matches none of the four tests: the choice is
    the long sentence that shows the versions and the test is against the
    string "UAT release".  Picking it runs no transition and leaves
    everything as it was, whereas the later script, which tests against
    [choices[0]], runs the UAT release. *)
Theorem part000_first_choice_runs_nothing
    (w : World) (pickTag : nat) (shown newTag : jsstring) :
  Part000.branchOf (uatChoice shown newTag) = None
  /\ snd (Part000.main 0 pickTag w) = w
  /\ Release.branchOf [uatChoice shown newTag; START_NEXT; PROD_RELEASE;
                       GENERATION] (uatChoice shown newTag)
     = Some UatRelease.
Proof.
  split; [reflexivity|split].
  - unfold Part000.main, Part000.readCurrentVersion, bind, readVersionFile.
    destruct (versionFile w); reflexivity.
  - unfold Release.branchOf; cbn [nth_error]; now rewrite eqb_refl.
Qed.

(** The other three choices do select their branch in
    [src/unnamed/part_000]. *)
Lemma part000_other_choices :
  map Part000.branchOf [START_NEXT; PROD_RELEASE; GENERATION]
  = [Some StartNextRelease; Some ProdRelease; Some Generation].
Proof. reflexivity. Qed.

(** ** The commits since a tag that does not exist *)

(** C6, the defect.  In [src/unnamed/part_000] the query has no test for
    the tag: on a repository without the tag 9.9.9.9 the git log it runs
    fails, and so does the query; it prints no warning and answers no
    list.  The query of [src/release.ts] tests for the tag first. *)
Theorem part000_changelog_of_missing_tag_fails :
  let w := repo (Some (lit "4.1.2.3")) [] in
  includes (names (tags w)) (lit "9.9.9.9") = false
  /\ fst (Part000.getChangelogSince (lit "9.9.9.9") w)
     = Throw (GitError [lit "log"; lit "9.9.9.9..HEAD"])
  /\ console (snd (Part000.getChangelogSince (lit "9.9.9.9") w)) = []
  /\ fst (Release.getChangelogSince (lit "9.9.9.9") w) = Ok []
  /\ console (snd (Release.getChangelogSince (lit "9.9.9.9") w))
     = [LogTags false (lit "9.9.9.9") [];
        Warn (lit "Tag '9.9.9.9' does not exist. Skipping changelog.")].
Proof. repeat split. Qed.

(** The later script does what the earlier one misses.  In
    [src/release.ts], for every tag name that is not a tag of the
    repository, the query answers the empty list and does not fail; it
    prints what it looked at and then the warning, and changes nothing
    else. *)
Lemma release_changelog_of_missing_tag (w : World) (fromTag : jsstring) :
  ~ In fromTag (names (tags w)) ->
  Release.getChangelogSince fromTag w
  = (Ok [],
     print (Warn (lit "Tag '" ++ fromTag
                  ++ lit "' does not exist. Skipping changelog."))
       (print (LogTags false fromTag
                 (sort descending (filter isVersionTag (names (tags w)))))
          w)).
Proof.
  intros H.
  assert (includes (names (tags w)) fromTag = false) as E.
  { destruct (includes _ _) eqn:E; [|reflexivity].
    now apply includes_In in E. }
  unfold Release.getChangelogSince, Release.tagExists, Release.getAllTags,
    bind, git_tags, gets, ret, modify, console_warn.
  now rewrite E.
Qed.

Lemma release_changelog_of_missing_tag_witness :
  Release.getChangelogSince (lit "9.9.9.9") (repo (Some (lit "4.1.2.3")) [])
  = (Ok [],
     print (Warn (lit "Tag '9.9.9.9' does not exist. Skipping changelog."))
       (print (LogTags false (lit "9.9.9.9") [])
          (repo (Some (lit "4.1.2.3")) []))).
Proof.
  apply (release_changelog_of_missing_tag
           (repo (Some (lit "4.1.2.3")) []) (lit "9.9.9.9")).
  simpl; tauto.
Defined.

(** ** Moving the PRODUCTION-LATEST marker *)

Lemma lookup_app (name : jsstring) (l l' : refs) :
  lookup name (l ++ l')
  = match lookup name l with
    | Some c => Some c
    | None => lookup name l'
    end.
Proof.
  induction l as [|[n c] l IH]; simpl; [reflexivity|].
  destruct (eqb n name); [reflexivity | assumption].
Qed.

(** Moving a marker raises no error, and the marker lands on [HEAD]:
    [addTag] drops the tag that was selected. *)
Lemma move_marker_lands_on_head (w : World) (marker selectedTag : jsstring) :
  let r := (deleteRemoteTag marker ;; git_addTag marker [selectedTag]) w in
  fst r = Ok tt /\ lookup marker (tags (snd r)) = Some (HEAD w).
Proof.
  unfold bind; simpl.
  pose proof (deleteRemoteTag_ok marker w) as Hok.
  pose proof (deleteRemoteTag_tags marker w) as Ht.
  pose proof (deleteRemoteTag_HEAD marker w) as Hh.
  destruct (deleteRemoteTag marker w) as [[[]|e] w1]; simpl in *;
    [|discriminate].
  unfold git_addTag; rewrite Ht, Hh.
  assert (includes (names (remove marker (tags w))) marker = false) as ->.
  { destruct (includes _ _) eqn:E; [|reflexivity].
    apply includes_lookup in E as [c E].
    now rewrite remove_lookup in E. }
  simpl; split; [reflexivity|].
  rewrite lookup_app, remove_lookup; simpl.
  now rewrite eqb_refl.
Qed.

(** C9, the defect.  A repository whose tag 4.1.2.3 is on one commit and
    whose [HEAD] is on a later one, with no PRODUCTION-LATEST marker: the
    PROD release of 4.1.2.3 raises no error, and it leaves the marker
    (and the 4.1.2.PRODUCTION marker) on [HEAD], not on the commit of the
    selected tag.  The script hands the selected tag to [addTag], which
    takes a name only. *)
Theorem production_latest_lands_on_head :
  let w := withTags [(lit "4.1.2.3", Existing 1)] (Existing 2)
             (repo (Some (lit "4.1.2.3")) []) in
  let outcome (getAllTags : M (list jsstring)) :=
    let r := prodRelease getAllTags 0 w in
    (fst r, lookup (lit "4.1.2.3") (tags (snd r)),
     lookup PRODUCTION_LATEST (tags (snd r)),
     lookup (lit "4.1.2.PRODUCTION") (tags (snd r))) in
  lookup PRODUCTION_LATEST (tags w) = None
  /\ outcome Release.getAllTags
     = (Ok tt, Some (Existing 1), Some (Existing 2), Some (Existing 2))
  /\ outcome Part000.getAllTags
     = (Ok tt, Some (Existing 1), Some (Existing 2), Some (Existing 2)).
Proof. repeat split. Qed.

(** ** The guard on the working tree *)

(** C10.  When the status query fails, [getUnchangedFileCount] prints the
    failure and answers -1; the guard stops the run only on a count above
    0, so the run goes on to the release.  When the query succeeds the
    count is the number of untracked, renamed and modified files; the
    deleted, the newly staged and the other files of the status are not
    counted. *)
Theorem dirty_tree_guard (w : World) (pick pickTag : nat) :
  let failed :=
    print (ErrorWith (lit "Failed to get unchanged file count:")
             (GitError [lit "status"])) w in
  Release.getUnchangedFileCount w
  = match status w with
    | None => (Ok (-1)%Z, failed)
    | Some st => (Ok (counted st), w)
    end
  /\ Release.main pick pickTag w
     = match status w with
       | None => Release.release pick pickTag failed
       | Some st =>
           if (0 <? counted st)%Z
           then (Ok tt,
                 print (Error (lit "There are "
                               ++ toString (Num (ofZ (counted st)))
                               ++ lit " unchanged files. Please commit or stash them"
                               ++ lit " before proceeding.")) w)
           else Release.release pick pickTag w
       end
  /\ (forall st cf cr de sg,
        counted {| not_added := not_added st; conflicted := cf;
                   created := cr; deleted := de; modified := modified st;
                   renamed := renamed st; staged := sg |}
        = counted st).
Proof.
  intros failed.
  assert (Release.getUnchangedFileCount w
          = match status w with
            | None => (Ok (-1)%Z, failed)
            | Some st => (Ok (counted st), w)
            end) as Hcount.
  { unfold Release.getUnchangedFileCount, catch, bind, git_status.
    destruct (status w); reflexivity. }
  split; [exact Hcount|split; [|reflexivity]].
  unfold Release.main, bind; rewrite Hcount.
  destruct (status w) as [st|]; [|reflexivity].
  destruct (0 <? counted st)%Z; reflexivity.
Qed.

(** ** Splitting and joining *)

Lemma split_no_sep (sep : codeUnit) (a : jsstring) :
  ~ In sep a -> split sep a = [a].
Proof.
  induction a as [|c a IH]; simpl; [reflexivity|].
  intros H.
  destruct (N.eqb_spec c sep) as [->|_]; [tauto|].
  rewrite IH; tauto.
Qed.

Lemma split_app_sep (sep : codeUnit) (a b : jsstring) :
  ~ In sep a -> split sep (a ++ sep :: b) = a :: split sep b.
Proof.
  induction a as [|c a IH]; simpl.
  - now rewrite N.eqb_refl.
  - intros H.
    destruct (N.eqb_spec c sep) as [->|_]; [tauto|].
    rewrite IH; tauto.
Qed.

Lemma split_join (sep : codeUnit) (l : list jsstring) :
  l <> [] -> (forall x, In x l -> ~ In sep x) ->
  split sep (join [sep] l) = l.
Proof.
  induction l as [|x l IH]; [easy|].
  intros _ H; destruct l as [|y l].
  - simpl; apply split_no_sep, H; now left.
  - change (join [sep] (x :: y :: l)) with (x ++ sep :: join [sep] (y :: l)).
    rewrite split_app_sep by (apply H; now left).
    f_equal; apply IH; [discriminate|].
    intros z Hz; apply H; now right.
Qed.

(** ** The changelog keeps the marked subjects *)

Lemma lookup_Some_includes (l : refs) (name : jsstring) (c : commit) :
  lookup name l = Some c -> includes (names l) name = true.
Proof.
  intros H; destruct (includes (names l) name) eqn:E; [reflexivity|].
  apply lookup_includes in E; congruence.
Qed.

(** The lines of a log that holds the given subjects, filtered. *)
Lemma filter_log_lines (subjects : list jsstring) :
  (forall s, In s subjects -> ~ In LF s) ->
  filter qualifies (split LF (join [LF] subjects)) = filter qualifies subjects.
Proof.
  intros H; destruct subjects as [|s l]; [reflexivity|].
  now rewrite split_join.
Qed.

(** Each marker is recognised, alone or before a text. *)
Lemma markers_recognised (rest : jsstring) :
  startsWithMarker (COLLISION ++ rest) = true
  /\ startsWithMarker (SPARKLES ++ rest) = true
  /\ startsWithMarker (BUG ++ rest) = true.
Proof. repeat split. Qed.

(** C7, counterexample.  A subject that starts with a space and then a
    marker does not have a marker as its first character, and the query
    keeps it: the test is on the trimmed line. *)
Lemma changelog_keeps_indented_marker :
  let subject := lit " " ++ SPARKLES ++ lit " add X" in
  let w := withTags [(lit "4.1.2.3", Existing 1)] (Existing 2)
             (repo (Some (lit "4.1.2.3")) subject) in
  firstCodePoint subject = Some 32%N
  /\ startsWithMarker subject = false
  /\ fst (Release.getChangelogSince (lit "4.1.2.3") w) = Ok [subject]
  /\ fst (Part000.getChangelogSince (lit "4.1.2.3") w) = Ok [subject].
Proof. repeat split. Qed.

(** C7, as the code has it.  When the log since an existing tag holds the
    given subject lines, the query of either script keeps exactly the
    subjects whose first character, leading white space apart, is one of
    the three markers; it keeps them as they are, in the order of the
    log. *)
Theorem changelog_keeps_marked_subjects
    (w : World) (fromTag : jsstring) (c : commit) (subjects : list jsstring) :
  lookup fromTag (tags w) = Some c ->
  logSince w c = join [LF] subjects ->
  (forall s, In s subjects -> ~ In LF s) ->
  let kept := filter (fun s => startsWithMarker (trim s)) subjects in
  fst (Release.getChangelogSince fromTag w) = Ok kept
  /\ fst (Part000.getChangelogSince fromTag w) = Ok kept.
Proof.
  intros Htag Hlog Hlines kept.
  pose proof (filter_log_lines subjects Hlines) as Hf.
  split.
  - unfold Release.getChangelogSince, Release.tagExists, Release.getAllTags,
      bind, git_tags, gets, ret, modify.
    rewrite (lookup_Some_includes _ _ Htag); simpl.
    unfold git_log_since, resolve; simpl; rewrite Htag; simpl.
    now rewrite Hlog, Hf.
  - unfold Part000.getChangelogSince, bind, git_log_since, resolve, ret.
    rewrite Htag; simpl.
    now rewrite Hlog, Hf.
Qed.

(** The example of the specification: of "(sparkles) add X", "fix typo"
    and "(bug) fix Y" the first and the third are kept. *)
Lemma changelog_keeps_marked_subjects_witness :
  let s1 := SPARKLES ++ lit " add X" in
  let s2 := lit "fix typo" in
  let s3 := BUG ++ lit " fix Y" in
  let w := withTags [(lit "4.1.2.3", Existing 1)] (Existing 2)
             (repo (Some (lit "4.1.2.3")) (join [LF] [s1; s2; s3])) in
  fst (Release.getChangelogSince (lit "4.1.2.3") w) = Ok [s1; s3]
  /\ fst (Part000.getChangelogSince (lit "4.1.2.3") w) = Ok [s1; s3].
Proof.
  intros s1 s2 s3 w.
  apply (@changelog_keeps_marked_subjects w (lit "4.1.2.3") (Existing 1)
           [s1; s2; s3]).
  - reflexivity.
  - reflexivity.
  - intros s [<-|[<-|[<-|[]]]]; vm_compute; intuition discriminate.
Defined.

(** ** Sorting with a comparator *)

Section SortFacts.
Variable A : Type.
Variable cmp : A -> A -> comparison.
Variable P : A -> Prop.

Hypothesis cmp_total :
  forall x y, P x -> P y -> cmp x y = Gt -> before cmp y x.
Hypothesis cmp_trans :
  forall x y z, P x -> P y -> P z -> before cmp x y -> before cmp y z -> before cmp x z.

Lemma insert_perm (x : A) (l : list A) :
  Permutation (x :: l) (insert cmp x l).
Proof.
  induction l as [|y l IH]; simpl; [reflexivity|].
  destruct (cmp x y); try reflexivity.
  rewrite perm_swap; now constructor.
Qed.

Lemma sort_perm (l : list A) : Permutation l (sort cmp l).
Proof.
  induction l as [|x l IH]; simpl; [reflexivity|].
  rewrite <- insert_perm; now constructor.
Qed.

Lemma insert_sorted (x : A) (l : list A) :
  P x -> Forall P l -> StronglySorted (before cmp) l ->
  StronglySorted (before cmp) (insert cmp x l).
Proof.
  intros Px; induction l as [|y l IH]; intros Pl Hs; simpl.
  - repeat constructor.
  - apply Forall_cons_iff in Pl as [Py Pl].
    apply StronglySorted_inv in Hs as [Hs Hy].
    destruct (cmp x y) eqn:E.
    + constructor; [now constructor|].
      constructor; [unfold before; congruence|].
      rewrite Forall_forall in *; intros z Hz.
      apply cmp_trans with y; auto; unfold before; congruence.
    + constructor; [now constructor|].
      constructor; [unfold before; congruence|].
      rewrite Forall_forall in *; intros z Hz.
      apply cmp_trans with y; auto; unfold before; congruence.
    + constructor; [auto|].
      rewrite Forall_forall in *; intros z Hz.
      apply Permutation_in with (l' := x :: l) in Hz;
        [|symmetry; apply insert_perm].
      destruct Hz as [<-|Hz]; auto.
Qed.

Lemma sort_sorted (l : list A) :
  Forall P l -> StronglySorted (before cmp) (sort cmp l).
Proof.
  induction l as [|x l IH]; intros Pl; simpl; [constructor|].
  apply Forall_cons_iff in Pl as [Px Pl].
  apply insert_sorted; auto.
  rewrite Forall_forall in *; intros z Hz; apply Pl.
  eapply Permutation_in; [symmetry; apply sort_perm | exact Hz].
Qed.
End SortFacts.

Lemma StronglySorted_weaken {A} (R R' : A -> A -> Prop) (P : A -> Prop)
    (l : list A) :
  (forall x y, P x -> P y -> R x y -> R' x y) ->
  Forall P l -> StronglySorted R l -> StronglySorted R' l.
Proof.
  intros H; induction l as [|x l IH]; intros Pl Hs; [constructor|].
  apply Forall_cons_iff in Pl as [Px Pl].
  apply StronglySorted_inv in Hs as [Hs Hx].
  constructor; [auto|].
  rewrite Forall_forall in *; auto.
Qed.

(** ** Versions as tuples of integers *)

Lemma compareVersions_antisym (a b : list Z) :
  compareVersions b a = CompOpp (compareVersions a b).
Proof.
  revert b; induction a as [|x a IH]; intros [|y b]; simpl; try reflexivity.
  rewrite (Z.compare_antisym x y).
  destruct (x ?= y)%Z; simpl; auto.
Qed.

Lemma compareVersions_eq (a b : list Z) :
  compareVersions a b = Eq -> a = b.
Proof.
  revert b; induction a as [|x a IH]; intros [|y b]; simpl; try easy.
  destruct (Z.compare_spec x y) as [Hxy|Hxy|Hxy]; try discriminate.
  intros E; subst; f_equal; auto.
Qed.

Lemma compareVersions_trans (a b c : list Z) :
  compareVersions a b <> Gt -> compareVersions b c <> Gt ->
  compareVersions a c <> Gt.
Proof.
  revert b c; induction a as [|x a IH]; intros [|y b] [|z c]; simpl;
    try easy.
  destruct (Z.compare_spec x y), (Z.compare_spec y z), (Z.compare_spec x z);
    try easy; try lia; subst; eauto.
Qed.

(** ** The shape of a version tag *)

Lemma spanDigits_spec (s : jsstring) :
  s = fst (spanDigits s) ++ snd (spanDigits s)
  /\ forallb isDigit (fst (spanDigits s)) = true.
Proof.
  induction s as [|c s [IH1 IH2]]; simpl; [split; reflexivity|].
  destruct (isDigit c) eqn:E; [|split; reflexivity].
  destruct (spanDigits s) as [d r]; simpl in *.
  rewrite E; split; [congruence | assumption].
Qed.

Lemma digits1_spec (s r : jsstring) :
  digits1 s = Some r ->
  exists d, s = d ++ r /\ d <> [] /\ forallb isDigit d = true.
Proof.
  unfold digits1; intros H.
  destruct (spanDigits_spec s) as [Hs Hd].
  destruct (spanDigits s) as [[|c d] r']; [discriminate|].
  injection H as Hr; subst r'; simpl in *.
  exists (c :: d); repeat split; [assumption | discriminate | assumption].
Qed.

Lemma dot_spec (s r : jsstring) : dot s = Some r -> s = DOT :: r.
Proof.
  destruct s as [|c s]; simpl; [discriminate|].
  destruct (N.eqb_spec c DOT); [|discriminate].
  intros H; injection H as Hr; congruence.
Qed.

Lemma tag_shape (s : jsstring) :
  isVersionTag s = true ->
  exists d1 d2 d3 d4,
    s = d1 ++ DOT :: d2 ++ DOT :: d3 ++ DOT :: d4
    /\ isRun d1 /\ isRun d2 /\ isRun d3 /\ isRun d4.
Proof.
  unfold isVersionTag, andThen; intros H.
  destruct (digits1 s) as [r1|] eqn:E1; [|discriminate].
  destruct (dot r1) as [r2|] eqn:E2; [|discriminate].
  destruct (digits1 r2) as [r3|] eqn:E3; [|discriminate].
  destruct (dot r3) as [r4|] eqn:E4; [|discriminate].
  destruct (digits1 r4) as [r5|] eqn:E5; [|discriminate].
  destruct (dot r5) as [r6|] eqn:E6; [|discriminate].
  destruct (digits1 r6) as [[|c r7]|] eqn:E7; try discriminate.
  apply digits1_spec in E1 as (d1 & -> & H1).
  apply dot_spec in E2 as ->.
  apply digits1_spec in E3 as (d2 & -> & H2).
  apply dot_spec in E4 as ->.
  apply digits1_spec in E5 as (d3 & -> & H3).
  apply dot_spec in E6 as ->.
  apply digits1_spec in E7 as (d4 & -> & H4).
  exists d1, d2, d3, d4; rewrite app_nil_r.
  repeat split; tauto.
Qed.

Lemma run_no_dot (d : jsstring) : forallb isDigit d = true -> ~ In DOT d.
Proof.
  rewrite forallb_forall; intros H Hin.
  now apply H in Hin.
Qed.

Lemma components_tag (d1 d2 d3 d4 : jsstring) :
  isRun d1 -> isRun d2 -> isRun d3 -> isRun d4 ->
  components (d1 ++ DOT :: d2 ++ DOT :: d3 ++ DOT :: d4)
  = [digitsValue d1; digitsValue d2; digitsValue d3; digitsValue d4].
Proof.
  intros [_ H1] [_ H2] [_ H3] [_ H4]; unfold components.
  rewrite !split_app_sep, split_no_sep by now apply run_no_dot.
  reflexivity.
Qed.

Lemma tokensFrom_run (d r : jsstring) (acc : option Z) :
  forallb isDigit d = true ->
  tokensFrom acc (d ++ r)
  = tokensFrom
      match d with
      | [] => acc
      | _ => Some (fold_left (fun a c => (10 * a + decDigit c)%Z) d
                     match acc with Some v => v | None => 0%Z end)
      end r.
Proof.
  revert acc; induction d as [|c d IH]; intros acc H; [reflexivity|].
  simpl in H; apply andb_prop in H as [Hc Hd].
  simpl; rewrite Hc, IH by assumption.
  destruct d; reflexivity.
Qed.

Lemma tokens_run_dot (d r : jsstring) :
  isRun d ->
  tokens (d ++ DOT :: r) = TNum (digitsValue d) :: TChar DOT :: tokens r.
Proof.
  intros [Hne Hd]; unfold tokens.
  rewrite tokensFrom_run by assumption.
  destruct d; [easy|reflexivity].
Qed.

Lemma tokens_run (d : jsstring) : isRun d -> tokens d = [TNum (digitsValue d)].
Proof.
  intros [Hne Hd]; unfold tokens.
  rewrite <- (app_nil_r d) at 1.
  rewrite tokensFrom_run by assumption.
  destruct d; [easy|reflexivity].
Qed.

(** On version tags the collation compares the components as integers. *)
Lemma localeCompareNumeric_tags (a b : jsstring) :
  isVersionTag a = true -> isVersionTag b = true ->
  localeCompareNumeric a b = compareVersions (components a) (components b).
Proof.
  intros Ha Hb.
  apply tag_shape in Ha as (a1 & a2 & a3 & a4 & -> & A1 & A2 & A3 & A4).
  apply tag_shape in Hb as (b1 & b2 & b3 & b4 & -> & B1 & B2 & B3 & B4).
  rewrite !components_tag by assumption.
  unfold localeCompareNumeric.
  rewrite !tokens_run_dot, !tokens_run by assumption.
  reflexivity.
Qed.

(** ** The tags are listed in descending order *)

Lemma descending_total (x y : jsstring) :
  versionTag x -> versionTag y ->
  descending x y = Gt -> before descending y x.
Proof.
  unfold before, descending; intros Hx Hy H.
  rewrite localeCompareNumeric_tags in * by assumption.
  rewrite compareVersions_antisym, H; discriminate.
Qed.

Lemma descending_trans (x y z : jsstring) :
  versionTag x -> versionTag y -> versionTag z ->
  before descending x y -> before descending y z -> before descending x z.
Proof.
  unfold before, descending; intros Hx Hy Hz.
  rewrite !localeCompareNumeric_tags by assumption.
  intros H1 H2; eapply compareVersions_trans; eassumption.
Qed.

Lemma filter_versionTag (l : list jsstring) :
  Forall versionTag (filter isVersionTag l).
Proof. apply Forall_forall; intros t Ht; now apply filter_In in Ht. Qed.

Lemma sort_descending_notBelow (l : list jsstring) :
  Forall versionTag l -> StronglySorted notBelow (sort descending l).
Proof.
  intros Hl.
  apply StronglySorted_weaken
    with (R := before descending) (P := versionTag).
  - unfold before, descending, notBelow; intros x y Hx Hy H.
    rewrite localeCompareNumeric_tags in H by assumption.
    rewrite compareVersions_antisym in H.
    destruct (compareVersions (components x) (components y)); easy.
  - rewrite Forall_forall in *; intros t Ht; apply Hl.
    eapply Permutation_in; [symmetry; apply sort_perm | exact Ht].
  - exact (@sort_sorted _ descending versionTag descending_total
             descending_trans l Hl).
Qed.

Lemma notBelow_distinct_above (l : list jsstring) :
  NoDup (map components l) -> StronglySorted notBelow l ->
  StronglySorted above l.
Proof.
  induction l as [|x l IH]; intros Hn Hs; [constructor|].
  simpl in Hn; apply NoDup_cons_iff in Hn as [Hx Hn].
  apply StronglySorted_inv in Hs as [Hs Hall].
  constructor; [auto|].
  rewrite Forall_forall in *; intros y Hy.
  specialize (Hall y Hy); unfold notBelow, above in *.
  destruct (compareVersions (components x) (components y)) eqn:E;
    [|easy|reflexivity].
  apply compareVersions_eq in E.
  exfalso; apply Hx; rewrite E; now apply in_map.
Qed.

(** C4, counterexample.  The tags 4.1.2.9 and 4.1.2.09 both match the
    pattern and denote the same four integers: the listing of either
    script holds both, and no order of the two is strictly descending. *)
Lemma tags_with_equal_versions_not_strictly_sorted :
  let a := lit "4.1.2.9" in
  let b := lit "4.1.2.09" in
  let w := withTags [(a, Existing 1); (b, Existing 2)] (Existing 2)
             (repo (Some a) []) in
  isVersionTag a = true /\ isVersionTag b = true /\ a <> b
  /\ components a = components b
  /\ (exists l, fst (Release.getAllTags w) = Ok l
                /\ Permutation [a; b] l /\ ~ StronglySorted above l)
  /\ (exists l, fst (bind Part000.getAllTags
                       (fun tags => ret (sort descending tags)) w) = Ok l
                /\ Permutation [a; b] l /\ ~ StronglySorted above l)
  /\ (forall l, Permutation [a; b] l -> ~ StronglySorted above l).
Proof.
  intros a b w.
  assert (~ StronglySorted above [a; b]) as Hab.
  { intros H; apply StronglySorted_inv in H as [_ H].
    apply Forall_inv in H; discriminate. }
  assert (~ StronglySorted above [b; a]) as Hba.
  { intros H; apply StronglySorted_inv in H as [_ H].
    apply Forall_inv in H; discriminate. }
  repeat split; try discriminate.
  - exists [a; b]; repeat split; [reflexivity | exact Hab].
  - exists [a; b]; repeat split; [reflexivity | exact Hab].
  - intros l Hl.
    apply Permutation_length_2_inv in Hl as [->| ->]; assumption.
Qed.

(** C4, as the code has it.  [getAllTags] of [src/release.ts], and the
    sort of the PROD release branch of [src/unnamed/part_000], answer the
    tags that match the four-integer pattern, each once, in descending
    order of (X, Y, Z, R) compared as integers: no tag is below a later
    one.  When no two of the tags denote the same four integers the order
    is strictly descending. *)
Theorem tags_listed_descending (w : World) :
  let matching := filter isVersionTag (names (tags w)) in
  let listed := sort descending matching in
  Release.getAllTags w = (Ok listed, w)
  /\ bind Part000.getAllTags (fun tags => ret (sort descending tags)) w
     = (Ok listed, w)
  /\ Permutation matching listed
  /\ StronglySorted notBelow listed
  /\ (NoDup (map components matching) -> StronglySorted above listed).
Proof.
  intros matching listed.
  assert (StronglySorted notBelow listed) as Hs
    by apply sort_descending_notBelow, filter_versionTag.
  repeat split; [apply sort_perm | exact Hs |].
  intros Hn; apply notBelow_distinct_above; [|exact Hs].
  eapply Permutation_NoDup; [|exact Hn].
  apply Permutation_map, sort_perm.
Qed.

(** The example of the specification: of the tags 4.1.2.9 and 4.1.2.10
    the second is listed first. *)
Lemma tags_listed_descending_witness :
  let w := withTags [(lit "4.1.2.9", Existing 1); (lit "4.1.2.10", Existing 2)]
             (Existing 2) (repo (Some (lit "4.1.2.10")) []) in
  Release.getAllTags w = (Ok [lit "4.1.2.10"; lit "4.1.2.9"], w)
  /\ StronglySorted above [lit "4.1.2.10"; lit "4.1.2.9"].
Proof.
  intros w.
  destruct (tags_listed_descending w) as (H1 & _ & _ & _ & H5).
  split; [exact H1|].
  apply H5.
  repeat constructor; simpl; intuition discriminate.
Defined.

(* ================================================================== *)
(** * Numbers of the version file *)
(* ================================================================== *)

Module Doubles.
Import Js Binary64.
Local Open Scope Z_scope.

(** ** Binary64 arithmetic on small integers is exact *)

Lemma iter_xO (p k : positive) : Pos.iter xO p k = (p * 2 ^ k)%positive.
Proof.
  induction k as [|k IH] using Pos.peano_ind.
  - simpl; lia.
  - rewrite Pos.iter_succ, IH, Pos.pow_succ_r; lia.
Qed.

Lemma digits2_double (p k : positive) :
  digits2_pos (p * 2 ^ k) = (digits2_pos p + k)%positive.
Proof.
  induction k as [|k IH] using Pos.peano_ind.
  - replace (p * 2 ^ 1)%positive with (p~0)%positive by lia.
    simpl; lia.
  - replace (p * 2 ^ Pos.succ k)%positive with ((p * 2 ^ k)~0)%positive
      by (rewrite Pos.pow_succ_r; lia).
    simpl; rewrite IH; lia.
Qed.

Lemma digits2_bounds (p : positive) :
  2 ^ (Z.pos (digits2_pos p) - 1) <= Z.pos p < 2 ^ Z.pos (digits2_pos p).
Proof.
  induction p as [p IH|p IH|]; simpl digits2_pos.
  - rewrite Pos2Z.inj_succ, Z.pow_succ_r by lia.
    replace (Z.succ (Z.pos (digits2_pos p)) - 1)
      with (Z.succ (Z.pos (digits2_pos p) - 1)) by lia.
    rewrite Z.pow_succ_r by lia; lia.
  - rewrite Pos2Z.inj_succ, Z.pow_succ_r by lia.
    replace (Z.succ (Z.pos (digits2_pos p)) - 1)
      with (Z.succ (Z.pos (digits2_pos p) - 1)) by lia.
    rewrite Z.pow_succ_r by lia; lia.
  - simpl; lia.
Qed.

Lemma digits2_small (p : positive) (n : Z) :
  0 <= n -> Z.pos p < 2 ^ n -> Z.pos (digits2_pos p) <= n.
Proof.
  intros Hn Hp.
  destruct (Z_le_gt_dec (Z.pos (digits2_pos p)) n) as [H|H]; [assumption|].
  pose proof (digits2_bounds p) as [Hlo _].
  assert (2 ^ n <= 2 ^ (Z.pos (digits2_pos p) - 1))
    by (apply Z.pow_le_mono_r; lia).
  lia.
Qed.

Lemma iter_pos_iter {A} (f : A -> A) (p : positive) (x : A) :
  iter_pos f p x = Pos.iter f x p.
Proof.
  revert x; induction p as [p IH|p IH|]; intros x; simpl.
  - now rewrite !IH, !Pos.iter_swap.
  - now rewrite !IH.
  - reflexivity.
Qed.

(** Shifting out zero bits loses nothing. *)
Lemma shr_zero_bits (p k : positive) :
  iter_pos shr_1 k (exactly (Z.pos (p * 2 ^ k))) = exactly (Z.pos p).
Proof.
  rewrite iter_pos_iter.
  induction k as [|k IH] using Pos.peano_ind.
  - replace (p * 2 ^ 1)%positive with (p~0)%positive by lia.
    reflexivity.
  - rewrite Pos.iter_succ_r.
    replace (p * 2 ^ Pos.succ k)%positive with ((p * 2 ^ k)~0)%positive
      by (rewrite Pos.pow_succ_r; lia).
    exact IH.
Qed.

(** A mantissa of 53 bits is kept as it is. *)
Lemma shr_fexp_full (m : positive) (e : Z) :
  digits2_pos m = 53%positive -> -1074 <= e ->
  shr_fexp prec emax (Z.pos m) e loc_Exact = (exactly (Z.pos m), e).
Proof.
  intros Hd He; unfold shr_fexp, fexp, emin, prec, emax; simpl Zdigits2.
  rewrite Hd.
  replace (Z.max (53 + e - 53) (3 - 1024 - 53) - e) with 0 by lia.
  reflexivity.
Qed.

Lemma round_aux_exact (s : bool) (mx : Z) (ex : Z) (m : positive) (e : Z) :
  shr_fexp prec emax mx ex loc_Exact = (exactly (Z.pos m), e) ->
  digits2_pos m = 53%positive -> -1074 <= e <= 971 ->
  binary_round_aux prec emax s mx ex loc_Exact = S754_finite s m e.
Proof.
  intros H Hd He; unfold binary_round_aux.
  rewrite H; simpl.
  rewrite shr_fexp_full by (assumption || lia); simpl.
  replace (e <=? 971) with true by (symmetry; apply Z.leb_le; lia).
  reflexivity.
Qed.

Lemma mantissa_digits (p : positive) :
  Z.pos (digits2_pos p) <= 53 -> digits2_pos (mantissa p) = 53%positive.
Proof.
  intros H; unfold mantissa.
  destruct (53 - Z.pos (digits2_pos p)) as [|k|k] eqn:E; try lia.
  rewrite digits2_double; lia.
Qed.

Lemma mantissa_value (p : positive) :
  Z.pos (digits2_pos p) <= 53 ->
  Z.pos (mantissa p) = Z.pos p * 2 ^ (- exponent p).
Proof.
  intros H; unfold mantissa, exponent.
  destruct (53 - Z.pos (digits2_pos p)) as [|k|k] eqn:E; try lia.
  - replace (- (Z.pos (digits2_pos p) - 53)) with 0 by lia; lia.
  - replace (- (Z.pos (digits2_pos p) - 53)) with (Z.pos k) by lia.
    rewrite Pos2Z.inj_mul, Pos2Z.inj_pow; reflexivity.
Qed.

(** An integer of at most 53 bits is a number. *)
Lemma binary_round_small (s : bool) (p : positive) :
  Z.pos (digits2_pos p) <= 53 ->
  binary_round prec emax s p 0 = S754_finite s (mantissa p) (exponent p).
Proof.
  intros H; unfold binary_round.
  assert (fexp prec emax (Z.pos (digits2_pos p) + 0)
          = Z.pos (digits2_pos p) - 53) as ->
    by (unfold fexp, emin, prec, emax; lia).
  pose proof (mantissa_digits p H) as Hd.
  unfold shl_align, mantissa, exponent in *.
  replace (Z.pos (digits2_pos p) - 53 - 0)
    with (- (53 - Z.pos (digits2_pos p))) by lia.
  destruct (53 - Z.pos (digits2_pos p)) as [|k|k] eqn:E; try lia; simpl Z.opp.
  - replace (Z.pos (digits2_pos p) - 53) with 0 by lia.
    apply round_aux_exact; [|assumption|lia].
    now apply shr_fexp_full.
  - cbv beta iota; change (PosDef.Pos.iter xO p k) with (Pos.iter xO p k); rewrite iter_xO.
    apply round_aux_exact; [|assumption|lia].
    apply shr_fexp_full; [assumption|lia].
Qed.

Lemma ofZ_small (p : positive) :
  Z.pos p < 2 ^ 53 ->
  ofZ (Z.pos p) = S754_finite false (mantissa p) (exponent p).
Proof.
  intros H; apply binary_round_small, digits2_small; lia.
Qed.

Lemma integerValue_small (p : positive) :
  Z.pos (digits2_pos p) <= 53 ->
  integerValue (mantissa p) (exponent p) = Some (Z.pos p).
Proof.
  intros H; unfold integerValue.
  rewrite (mantissa_value p H).
  assert (exponent p <= 0) as He by (unfold exponent; lia).
  destruct (Z.leb_spec 0 (exponent p)) as [H0|H0].
  - replace (exponent p) with 0 by lia.
    f_equal; simpl; lia.
  - assert (2 ^ (- exponent p) <> 0) as Hnz by (apply Z.pow_nonzero; lia).
    rewrite Z.mod_mul, Z.eqb_refl, Z.div_mul by assumption.
    reflexivity.
Qed.

Lemma pos_pow_Z (p k : positive) :
  Z.pos (p * 2 ^ k) = Z.pos p * 2 ^ Z.pos k.
Proof. now rewrite Pos2Z.inj_mul, Pos2Z.inj_pow. Qed.

(** The mantissa of a small integer, aligned on the exponent of 1. *)
Lemma align_small (p : positive) :
  Z.pos (digits2_pos p) <= 53 ->
  fst (shl_align (mantissa p) (exponent p) (-52)) = (p * 2 ^ 52)%positive.
Proof.
  intros H; unfold shl_align.
  pose proof (mantissa_value p H) as Hm.
  assert (0 < Z.pos (digits2_pos p)) as Hd by lia.
  unfold exponent in *.
  apply Pos2Z.inj; rewrite pos_pow_Z.
  destruct (-52 - (Z.pos (digits2_pos p) - 53)) as [|k|k] eqn:E; try lia;
    simpl fst.
  - rewrite Hm; do 2 f_equal; lia.
  - change (PosDef.Pos.iter xO (mantissa p) k)
      with (Pos.iter xO (mantissa p) k).
    rewrite iter_xO, pos_pow_Z, Hm, <- Z.mul_assoc, <- Z.pow_add_r by lia.
    do 2 f_equal; lia.
Qed.

(** A small integer scaled by [2 ^ 52], at exponent [-52], rounds to the
    integer. *)
Lemma binary_round_scaled (s : bool) (q : positive) :
  Z.pos (digits2_pos q) <= 53 ->
  binary_round prec emax s (q * 2 ^ 52) (-52)
  = S754_finite s (mantissa q) (exponent q).
Proof.
  intros H; unfold binary_round.
  rewrite digits2_double.
  assert (fexp prec emax (Z.pos (digits2_pos q + 52) + -52)
          = Z.pos (digits2_pos q) - 53) as ->
    by (unfold fexp, emin, prec, emax; lia).
  unfold shl_align.
  destruct (Z.pos (digits2_pos q) - 53 - -52) as [|k|k] eqn:E; try lia;
    cbv beta iota.
  - (* one bit: nothing to shift *)
    apply round_aux_exact;
      [|now apply mantissa_digits | unfold exponent; lia].
    unfold shr_fexp; simpl Zdigits2; rewrite digits2_double.
    assert (fexp prec emax (Z.pos (digits2_pos q + 52) + -52) - -52 = 0)
      as -> by (unfold fexp, emin, prec, emax; lia).
    unfold exponent, mantissa.
    replace (53 - Z.pos (digits2_pos q)) with 52 by lia.
    replace (Z.pos (digits2_pos q) - 53) with (-52) by lia.
    reflexivity.
  - apply round_aux_exact;
      [|now apply mantissa_digits | unfold exponent; lia].
    unfold shr_fexp; simpl Zdigits2; rewrite digits2_double.
    assert (fexp prec emax (Z.pos (digits2_pos q + 52) + -52) - -52
            = Z.pos k) as ->
      by (unfold fexp, emin, prec, emax; lia).
    unfold shr; simpl shr_record_of_loc.
    assert ((q * 2 ^ 52)%positive = (mantissa q * 2 ^ k)%positive) as ->.
    { apply Pos2Z.inj; rewrite !pos_pow_Z, (mantissa_value q H).
      unfold exponent.
      rewrite <- Z.mul_assoc, <- Z.pow_add_r by lia.
      do 2 f_equal; lia. }
    change {| shr_m := Z.pos (mantissa q * 2 ^ k); shr_r := false;
              shr_s := false |}
      with (exactly (Z.pos (mantissa q * 2 ^ k))).
    rewrite shr_zero_bits; unfold exponent; f_equal; lia.
Qed.

(** Adding 1 to an integer below [2 ^ 53] is exact. *)
Lemma add_one (r : Z) :
  0 <= r < 2 ^ 53 -> add (ofZ r) (ofZ 1) = ofZ (r + 1).
Proof.
  intros [H0 H1]; destruct r as [|p|p]; [reflexivity| |lia].
  assert (Z.pos (digits2_pos p) <= 53) as Hd by (apply digits2_small; lia).
  rewrite ofZ_small by assumption.
  change (ofZ 1) with (S754_finite false (2 ^ 52)%positive (-52)).
  unfold add, SFadd.
  assert (Z.min (exponent p) (-52) = -52) as ->
    by (unfold exponent; lia).
  rewrite align_small by assumption.
  change (fst (shl_align (2 ^ 52) (-52) (-52))) with (2 ^ 52)%positive.
  replace (cond_Zopp false (Z.pos (p * 2 ^ 52))
           + cond_Zopp false (Z.pos (2 ^ 52)))
    with (Z.pos ((p + 1) * 2 ^ 52)) by (simpl cond_Zopp; lia).
  unfold binary_normalize.
  destruct (Z.eq_dec (Z.pos p + 1) (2 ^ 53)) as [E|E].
  - assert (p = (2 ^ 53 - 1)%positive) as -> by lia.
    vm_compute; reflexivity.
  - assert (Z.pos (digits2_pos (p + 1)) <= 53) as Hd'
      by (apply digits2_small; lia).
    rewrite binary_round_scaled by assumption.
    change (Z.pos p + 1) with (Z.pos (p + 1)).
    unfold ofZ, binary_normalize.
    now rewrite binary_round_small.
Qed.

End Doubles.

(** ** Decimal digits *)

Section Digits.
Local Open Scope N_scope.

Lemma digitsAux_acc (fuel : nat) (n : N) (acc : jsstring) :
  digitsAux fuel n acc = digitsAux fuel n [] ++ acc.
Proof.
  revert n acc; induction fuel as [|f IH]; intros n acc; [reflexivity|].
  simpl; destruct (n <? 10); [reflexivity|].
  rewrite IH, (IH _ [_]), <- app_assoc; reflexivity.
Qed.

Lemma digitsAux_step (fuel : nat) (n : N) :
  digitsAux (S fuel) n []
  = if n <? 10 then [48 + n mod 10]
    else digitsAux fuel (n / 10) [] ++ [48 + n mod 10].
Proof. simpl; destruct (n <? 10); [reflexivity | apply digitsAux_acc]. Qed.

Lemma digitsValue_snoc (l : jsstring) (c : codeUnit) :
  digitsValue (l ++ [c]) = (10 * digitsValue l + decDigit c)%Z.
Proof. unfold digitsValue, valueIn; now rewrite fold_left_app. Qed.

Lemma decDigit_digit (n : N) : decDigit (48 + n mod 10) = Z.of_N (n mod 10).
Proof. unfold decDigit; now rewrite N.add_comm, N.add_sub. Qed.

Lemma isDigit_digit (n : N) : isDigit (48 + n mod 10) = true.
Proof.
  pose proof (N.mod_upper_bound n 10) as H.
  generalize dependent (n mod 10); intros r H.
  unfold isDigit; apply andb_true_intro; split; apply N.leb_le; lia.
Qed.

Lemma digitsAux_spec (fuel : nat) (n : N) :
  n < 2 ^ N.of_nat fuel ->
  digitsValue (digitsAux fuel n []) = Z.of_N n
  /\ forallb isDigit (digitsAux fuel n []) = true
  /\ (fuel <> O -> digitsAux fuel n [] <> []).
Proof.
  revert n; induction fuel as [|f IH]; intros n Hn.
  - simpl in Hn; assert (n = 0) as -> by lia; repeat split; easy.
  - rewrite digitsAux_step; destruct (N.ltb_spec n 10) as [H|H].
    + repeat split; [|cbn [forallb]; now rewrite isDigit_digit|easy].
      unfold digitsValue, valueIn; cbn [fold_left]; rewrite decDigit_digit.
      now rewrite N.mod_small by assumption.
    + assert (n / 10 < 2 ^ N.of_nat f) as Hq.
      { rewrite Nat2N.inj_succ, N.pow_succ_r' in Hn.
        apply N.Div0.div_lt_upper_bound; lia. }
      destruct (IH _ Hq) as (Hv & Hd & _).
      repeat split.
      * rewrite digitsValue_snoc, Hv, decDigit_digit.
        rewrite (N.div_mod n 10) at 3 by discriminate.
        now rewrite N2Z.inj_add, N2Z.inj_mul.
      * rewrite forallb_app, Hd; cbn [forallb]; now rewrite isDigit_digit.
      * intros _ E; now apply app_eq_nil in E as [_ E].
Qed.

Lemma digitsOf_fuel (n : N) : n < 2 ^ N.of_nat (S (N.to_nat (N.log2 n))).
Proof.
  rewrite Nat2N.inj_succ, N2Nat.id.
  destruct n as [|p]; [reflexivity|].
  apply N.log2_spec; lia.
Qed.

Lemma digitsOf_value (n : N) : digitsValue (digitsOf n) = Z.of_N n.
Proof. apply digitsAux_spec, digitsOf_fuel. Qed.

Lemma digitsOf_run (n : N) : isRun (digitsOf n).
Proof.
  destruct (digitsAux_spec _ (digitsOf_fuel n)) as (_ & Hd & Hne).
  split; [now apply Hne | exact Hd].
Qed.

End Digits.

(** ** Reading and printing a number of the version file *)

Lemma digit_not_space (c : codeUnit) :
  isDigit c = true -> isWhiteSpace c = false.
Proof.
  unfold isDigit, isWhiteSpace; intros H.
  apply andb_prop in H as [H1 H2].
  apply N.leb_le in H1, H2.
  repeat match goal with
         | |- context [(?a <=? ?b)%N] => destruct (N.leb_spec a b); try lia
         | |- context [(?a =? ?b)%N] => destruct (N.eqb_spec a b); try lia
         end; reflexivity.
Qed.

Lemma trimStart_clean (s : jsstring) :
  match s with c :: _ => isWhiteSpace c = false | [] => True end ->
  trimStart s = s.
Proof. destruct s as [|c s]; simpl; [easy | now intros ->]. Qed.

Lemma trim_clean (s : jsstring) : untrimmed s -> trim s = s.
Proof.
  intros [H1 H2]; unfold trim, trimEnd.
  rewrite (trimStart_clean s H1), (trimStart_clean (rev s) H2).
  apply rev_involutive.
Qed.

Lemma run_untrimmed (d : jsstring) :
  forallb isDigit d = true -> untrimmed d.
Proof.
  intros H; split.
  - destruct d as [|c d]; [easy|].
    simpl in H; apply andb_prop in H as [H _]; now apply digit_not_space.
  - destruct (rev d) as [|c r] eqn:E; [easy|].
    apply digit_not_space.
    rewrite forallb_forall in H; apply H, in_rev; rewrite E; now left.
Qed.

Lemma spanDigits_run (d : jsstring) :
  forallb isDigit d = true -> spanDigits d = (d, []).
Proof.
  induction d as [|c d IH]; simpl; [reflexivity|].
  intros H; apply andb_prop in H as [-> Hd].
  now rewrite IH.
Qed.

Lemma digitsValue_nonneg (d : jsstring) : (0 <= digitsValue d)%Z.
Proof.
  unfold digitsValue, valueIn.
  assert (forall a, (0 <= a)%Z ->
            (0 <= fold_left (fun acc c => 10 * acc + decDigit c) d a)%Z)
    as H; [|apply H; lia].
  induction d as [|c d IH]; intros a Ha; cbn [fold_left]; [assumption|].
  apply IH; unfold decDigit.
  pose proof (N2Z.is_nonneg (c - 48)) as Hc.
  generalize dependent (Z.of_N (c - 48)); intros; lia.
Qed.

(** [Number] of a run of digits is the number nearest to its value. *)
Lemma Number_run (d : jsstring) : isRun d -> Number d = ofZ (digitsValue d).
Proof.
  intros [Hne Hd]; unfold Number.
  rewrite (trim_clean (run_untrimmed d Hd)).
  destruct d as [|c d]; [easy|].
  pose proof Hd as Hall; simpl in Hd; apply andb_prop in Hd as [Hc Hd].
  assert (48 <= c <= 57)%N as Hr.
  { unfold isDigit in Hc; apply andb_prop in Hc as [H1 H2].
    apply N.leb_le in H1, H2; lia. }
  assert (nonDecimalLiteral (c :: d) = None) as ->.
  { unfold nonDecimalLiteral; destruct d as [|x d]; [reflexivity|].
    destruct (c =? 48)%N; [|reflexivity]; simpl negb; cbv iota.
    simpl in Hd; apply andb_prop in Hd as [Hx _].
    unfold isDigit in Hx; apply andb_prop in Hx as [H1 H2].
    apply N.leb_le in H1, H2.
    repeat match goal with
           | |- context [(x =? ?b)%N] => destruct (N.eqb_spec x b); try lia
           end; reflexivity. }
  unfold decimalLiteral, signed.
  destruct (N.eqb_spec c 43); [lia|].
  destruct (N.eqb_spec c 45); [lia|].
  assert (eqb (c :: d) (lit "Infinity") = false) as ->.
  { simpl; destruct (N.eqb_spec c 73); [lia | reflexivity]. }
  rewrite (spanDigits_run _ Hall), app_nil_r; simpl exponentPart; cbv iota.
  unfold ofDecimal; simpl List.length.
  pose proof (digitsValue_nonneg (c :: d)).
  destruct (digitsValue (c :: d)) as [|p|p]; [reflexivity| |lia].
  simpl; now rewrite Pos.mul_1_r.
Qed.

(** A natural number up to [2 ^ 53] prints as its digits. *)
Lemma numberToString_small (n : N) :
  (Z.of_N n <= 2 ^ 53)%Z -> numberToString (ofZ (Z.of_N n)) = digitsOf n.
Proof.
  intros H; destruct n as [|p]; [reflexivity|].
  destruct (Z.eq_dec (Z.pos p) (2 ^ 53)) as [E|E].
  - assert (p = (2 ^ 53)%positive) as -> by lia.
    vm_compute; reflexivity.
  - simpl Z.of_N in *.
    assert (Z.pos (digits2_pos p) <= 53)%Z as Hd
      by (apply Doubles.digits2_small; lia).
    unfold ofZ, binary_normalize.
    rewrite Doubles.binary_round_small by assumption.
    unfold numberToString.
    rewrite Doubles.integerValue_small by assumption.
    destruct (Z.leb_spec (Z.pos p) (2 ^ 53)); [reflexivity | lia].
Qed.

(** Read and printed back, a natural number up to [2 ^ 53] is
    unchanged. *)
Lemma number_roundtrip (n : N) :
  (Z.of_N n <= 2 ^ 53)%Z -> toString (Num (Number (digitsOf n))) = digitsOf n.
Proof.
  intros H; simpl.
  rewrite Number_run, digitsOf_value by apply digitsOf_run.
  now apply numberToString_small.
Qed.

(** ** Version files in canonical form *)

Lemma canonical_untrimmed (x y z r : N) : untrimmed (canonical x y z r).
Proof.
  unfold canonical; split.
  - destruct (digitsOf_run x) as [Hne Hd].
    destruct (digitsOf x) as [|c d]; [easy|].
    simpl in Hd; apply andb_prop in Hd as [Hc _].
    now apply digit_not_space.
  - rewrite !app_assoc, rev_app_distr.
    destruct (digitsOf_run r) as [Hne Hd].
    destruct (run_untrimmed _ Hd) as [_ Hr].
    destruct (rev (digitsOf r)) as [|c d] eqn:E; [|exact Hr].
    apply (f_equal (@rev _)) in E; rewrite rev_involutive in E; easy.
Qed.

Lemma split_canonical (x y z r : N) :
  split DOT (canonical x y z r)
  = [digitsOf x; digitsOf y; digitsOf z; digitsOf r].
Proof.
  unfold canonical; change (lit ".") with [DOT]; simpl app.
  rewrite !split_app_sep, split_no_sep
    by (apply run_no_dot, digitsOf_run).
  reflexivity.
Qed.

Lemma parseVersion_canonical (x y z r : N) :
  parseVersion (canonical x y z r) = versionOf x y z r.
Proof.
  unfold parseVersion, versionOf.
  rewrite (trim_clean (canonical_untrimmed x y z r)), split_canonical.
  simpl; now rewrite !Number_run, !digitsOf_value by apply digitsOf_run.
Qed.

Lemma versionString_versionOf (x y z r : N) :
  (Z.of_N x <= 2 ^ 53)%Z -> (Z.of_N y <= 2 ^ 53)%Z ->
  (Z.of_N z <= 2 ^ 53)%Z -> (Z.of_N r <= 2 ^ 53)%Z ->
  versionString (versionOf x y z r) = canonical x y z r.
Proof.
  intros Hx Hy Hz Hr; unfold versionString, versionOf, canonical, toString.
  cbn [Version.X Version.Y Version.Z Version.R].
  now rewrite !numberToString_small by assumption.
Qed.

Lemma plusOne_small (r : N) :
  (Z.of_N r < 2 ^ 53)%Z ->
  plusOne (Num (ofZ (Z.of_N r))) = Num (ofZ (Z.of_N (r + 1))).
Proof.
  intros H; unfold plusOne, toNumber.
  rewrite Doubles.add_one by lia.
  now rewrite N2Z.inj_add.
Qed.

(** ** Reading the version and writing it back *)

(** C5, counterexample.  The version (4, 1, 2, 9007199254740993) is four
    natural numbers in canonical form; read and written back, its last
    component is 9007199254740992: a JavaScript number does not hold
    [2 ^ 53 + 1]. *)
Lemma roundtrip_loses_large_component :
  let content := lit "4.1.2.9007199254740993" in
  let w := repo (Some content) [] in
  content = canonical 4 1 2 9007199254740993
  /\ rewritten Release.readCurrentVersionFromFile
       Release.writeVersionIntoFile w
     = Some (lit "4.1.2.9007199254740992")
  /\ rewritten Part000.readCurrentVersion Part000.writeVersion w
     = Some (lit "4.1.2.9007199254740992")
  /\ Some (lit "4.1.2.9007199254740992") <> versionFile w.
Proof. repeat split; vm_compute; (reflexivity || discriminate). Qed.

(** C5, as the code has it.  For every version whose four components
    are natural numbers up to [2 ^ 53], held by the file in canonical
    form, reading the file and writing the Version back leaves the file,
    and everything else, as it was; in both scripts. *)
Theorem version_roundtrip (w : World) (x y z r : N) :
  (Z.of_N x <= 2 ^ 53)%Z -> (Z.of_N y <= 2 ^ 53)%Z ->
  (Z.of_N z <= 2 ^ 53)%Z -> (Z.of_N r <= 2 ^ 53)%Z ->
  let w0 := setVersionFile (canonical x y z r) w in
  exists v : Version.t,
    Release.readCurrentVersionFromFile w0 = (Ok v, w0)
    /\ Release.writeVersionIntoFile v w0 = (Ok tt, w0)
    /\ Part000.readCurrentVersion w0 = (Ok v, w0)
    /\ Part000.writeVersion v w0 = (Ok tt, w0)
    /\ versionFile w0 = Some (versionString v).
Proof.
  intros Hx Hy Hz Hr w0; exists (versionOf x y z r).
  assert (Release.readCurrentVersionFromFile w0
          = (Ok (versionOf x y z r), w0)) as Hread.
  { unfold Release.readCurrentVersionFromFile, bind, readVersionFile, ret.
    simpl; now rewrite parseVersion_canonical. }
  assert (Release.writeVersionIntoFile (versionOf x y z r) w0 = (Ok tt, w0))
    as Hwrite.
  { unfold Release.writeVersionIntoFile, writeVersionFile, modify.
    now rewrite versionString_versionOf. }
  repeat split; try assumption.
  simpl; now rewrite versionString_versionOf.
Qed.

Lemma version_roundtrip_witness :
  let w0 := setVersionFile (canonical 4 1 2 10) (repo None []) in
  exists v : Version.t,
    Release.readCurrentVersionFromFile w0 = (Ok v, w0)
    /\ Release.writeVersionIntoFile v w0 = (Ok tt, w0)
    /\ Part000.readCurrentVersion w0 = (Ok v, w0)
    /\ Part000.writeVersion v w0 = (Ok tt, w0)
    /\ versionFile w0 = Some (versionString v).
Proof.
  apply (version_roundtrip (repo None []) 4 1 2 10); vm_compute; discriminate.
Defined.

(** ** The UAT release *)

(** Splits a computation into its primitives, through the script
    functions, the tests and the case analyses. *)
Ltac frame_script :=
  repeat first
    [ apply keeps_ret | apply keeps_throw | apply keeps_gets
    | apply keeps_prompt
    | apply keeps_bind; [|intro] | apply keeps_catch; [|intro]
    | apply keeps_print; reflexivity
    | match goal with
      | |- keeps _ (if ?b then _ else _) => destruct b
      | |- keeps _ (match ?l with [] => _ | _ :: _ => _ end) => destruct l
      end
    | progress cbv beta delta
        [deleteRemoteTag Release.getChangelogSince Release.tagExists
         Release.getAllTags Release.updateChangelogAndCommitIt
         Part000.getChangelogSince Part000.updateChangelog] ];
  try primitive.

(** Whatever happens next, the UAT release of [src/release.ts] has
    written the version with [R] incremented. *)
Lemma release_uat_version_file (w : World) (current : Version.t)
    (latestTagVersion latestVersion : option jsstring)
    (currentVersionStr newTag : jsstring) :
  versionFile
    (snd (Release.uatRelease current latestTagVersion latestVersion
            currentVersionStr newTag w))
  = Some (versionString (bumpR current)).
Proof.
  unfold Release.uatRelease, Release.writeVersionIntoFile, writeVersionFile.
  unfold bind at 1; cbn [modify].
  match goal with
  | |- versionFile (snd (?rest ?w1)) = _ =>
      assert (keeps versionFile rest) as Hk; [|now rewrite (Hk w1)]
  end.
  frame_script.
Qed.

(** So has the one of [src/unnamed/part_000]. *)
Lemma part000_uat_version_file (w : World) (current : Version.t)
    (currentTag newTag : jsstring) :
  versionFile (snd (Part000.uatRelease current currentTag newTag w))
  = Some (versionString (bumpR current)).
Proof.
  unfold Part000.uatRelease, Part000.writeVersion, writeVersionFile.
  unfold bind at 1; cbn [modify].
  match goal with
  | |- versionFile (snd (?rest ?w1)) = _ =>
      assert (keeps versionFile rest) as Hk; [|now rewrite (Hk w1)]
  end.
  frame_script.
Qed.

(** [current.R++] on a natural number below [2 ^ 53]: the other fields
    stay, and the version prints with [R + 1] as its last component. *)
Lemma bumpR_small (vx vy vz : jsval) (r : N) :
  (Z.of_N r < 2 ^ 53)%Z ->
  let current := {| Version.X := vx; Version.Y := vy; Version.Z := vz;
                    Version.R := Num (ofZ (Z.of_N r)) |} in
  bumpR current
  = {| Version.X := vx; Version.Y := vy; Version.Z := vz;
       Version.R := Num (ofZ (Z.of_N (r + 1))) |}
  /\ versionString (bumpR current)
     = toString vx ++ lit "." ++ toString vy ++ lit "." ++ toString vz
       ++ lit "." ++ digitsOf (r + 1).
Proof.
  intros Hr current; unfold bumpR, versionString.
  cbn [Version.X Version.Y Version.Z Version.R current].
  rewrite plusOne_small by assumption.
  split; [reflexivity|].
  unfold toString at 4.
  rewrite numberToString_small; [reflexivity|].
  rewrite N2Z.inj_add; simpl Z.of_N; lia.
Qed.

(** C8, counterexample.  From the version (4, 1, 2, 2 ^ 53) the UAT
    release writes the same version back: [R + 1] is not a JavaScript
    number and rounds to [R]. *)
Lemma uat_release_at_two_to_the_53 :
  let content := lit "4.1.2.9007199254740992" in
  let w := repo (Some content) [] in
  let current := parseVersion content in
  content = canonical 4 1 2 (2 ^ 53)
  /\ versionFile
       (snd (Release.uatRelease current None None content (nextTag current)
               w))
     = Some content
  /\ versionFile
       (snd (Part000.uatRelease current content (nextTag current) w))
     = Some content
  /\ content <> canonical 4 1 2 (2 ^ 53 + 1).
Proof. repeat split; vm_compute; (reflexivity || discriminate). Qed.

(** [current.R++] on the version the scripts read from the file
    [X.Y.Z.R]: the version (X, Y, Z, R + 1), which prints as
    [X.Y.Z.(R+1)]; so does the tag the menu announces. *)
Lemma bumpR_canonical (x y z r : N) :
  (Z.of_N x <= 2 ^ 53)%Z -> (Z.of_N y <= 2 ^ 53)%Z -> (Z.of_N z <= 2 ^ 53)%Z ->
  (Z.of_N r < 2 ^ 53)%Z ->
  versionString (bumpR (versionOf x y z r)) = canonical x y z (r + 1)
  /\ nextTag (versionOf x y z r) = canonical x y z (r + 1).
Proof.
  intros Hx Hy Hz Hr.
  assert (versionString (bumpR (versionOf x y z r)) = canonical x y z (r + 1))
    as H.
  { unfold bumpR, versionOf.
    cbn [Version.X Version.Y Version.Z Version.R].
    rewrite plusOne_small by assumption.
    apply (versionString_versionOf x y z (r + 1)); try assumption.
    rewrite N2Z.inj_add; simpl Z.of_N; lia. }
  split; [exact H|].
  rewrite <- H; reflexivity.
Qed.

(** Above [2 ^ 53] the other components do not come through either: from
    the file 9007199254740993.1.2.3 the UAT release writes
    9007199254740992.1.2.4, in both scripts. *)
Lemma uat_release_large_major :
  let content := lit "9007199254740993.1.2.3" in
  let w := repo (Some content) [] in
  let current := parseVersion content in
  versionFile
    (snd (Release.uatRelease current None None content (nextTag current) w))
  = Some (lit "9007199254740992.1.2.4")
  /\ versionFile
       (snd (Part000.uatRelease current content (nextTag current) w))
     = Some (lit "9007199254740992.1.2.4").
Proof. split; vm_compute; reflexivity. Qed.

(** C8, as the code has it.  For every version file [X.Y.Z.R], in
    decimal digits without leading zeros, with X, Y and Z natural numbers
    of at most [2 ^ 53] and R a natural number below [2 ^ 53]: the scripts
    read the version (X, Y, Z, R) from it, and the UAT release of either
    script writes [X.Y.Z.(R+1)] to the version file, whatever becomes of
    its later steps.  Read back, that file is the version (X, Y, Z, R + 1):
    R is incremented by exactly 1 and X, Y and Z are unchanged.  The tag
    the menu announces is [X.Y.Z.(R+1)] too. *)
Theorem uat_release_increments_revision
    (w : World) (x y z r : N)
    (latestTagVersion latestVersion : option jsstring)
    (shown newTag : jsstring) :
  (Z.of_N x <= 2 ^ 53)%Z -> (Z.of_N y <= 2 ^ 53)%Z -> (Z.of_N z <= 2 ^ 53)%Z ->
  (Z.of_N r < 2 ^ 53)%Z ->
  versionFile w = Some (canonical x y z r) ->
  let current := versionOf x y z r in
  let file := canonical x y z (r + 1) in
  Release.readCurrentVersionFromFile w = (Ok current, w)
  /\ Part000.readCurrentVersion w = (Ok current, w)
  /\ bumpR current = versionOf x y z (r + 1)
  /\ versionFile
       (snd (Release.uatRelease current latestTagVersion latestVersion shown
               newTag w))
     = Some file
  /\ versionFile (snd (Part000.uatRelease current shown newTag w))
     = Some file
  /\ parseVersion file = versionOf x y z (r + 1)
  /\ nextTag current = file.
Proof.
  intros Hx Hy Hz Hr Hv current file.
  destruct (bumpR_canonical x y z r Hx Hy Hz Hr) as [Hb Hn].
  fold current in Hb, Hn; fold file in Hb, Hn.
  rewrite release_uat_version_file, part000_uat_version_file, Hb.
  unfold Release.readCurrentVersionFromFile, Part000.readCurrentVersion,
    bind, readVersionFile, ret.
  rewrite Hv, parseVersion_canonical.
  repeat split; try assumption.
  - unfold current, bumpR, versionOf.
    cbn [Version.X Version.Y Version.Z Version.R].
    now rewrite plusOne_small.
  - apply parseVersion_canonical.
Qed.

(** From the file 4.1.2.9 the UAT release writes 4.1.2.10. *)
Lemma uat_release_increments_revision_witness :
  let w := repo (Some (lit "4.1.2.9")) [] in
  let current := versionOf 4 1 2 9 in
  Release.readCurrentVersionFromFile w = (Ok current, w)
  /\ Part000.readCurrentVersion w = (Ok current, w)
  /\ bumpR current = versionOf 4 1 2 10
  /\ versionFile
       (snd (Release.uatRelease current None None (lit "4.1.2.9")
               (lit "4.1.2.10") w))
     = Some (lit "4.1.2.10")
  /\ versionFile
       (snd (Part000.uatRelease current (lit "4.1.2.9") (lit "4.1.2.10") w))
     = Some (lit "4.1.2.10")
  /\ parseVersion (lit "4.1.2.10") = versionOf 4 1 2 10
  /\ nextTag current = lit "4.1.2.10".
Proof.
  assert (Z.of_N 4 <= 2 ^ 53)%Z as Hx by (vm_compute; discriminate).
  assert (Z.of_N 1 <= 2 ^ 53)%Z as Hy by (vm_compute; discriminate).
  assert (Z.of_N 2 <= 2 ^ 53)%Z as Hz by (vm_compute; discriminate).
  exact (@uat_release_increments_revision
           (repo (Some (lit "4.1.2.9")) []) 4 1 2 9 None None (lit "4.1.2.9")
           (lit "4.1.2.10") Hx Hy Hz eq_refl eq_refl).
Defined.

(** What [getChangelogSince] of [src/release.ts] answers, by whether the
    tag exists. *)
Lemma release_getChangelogSince (w : World) (fromTag : jsstring) :
  Release.getChangelogSince fromTag w
  = let allTags := sort descending (filter isVersionTag (names (tags w))) in
    match lookup fromTag (tags w) with
    | Some c =>
        (Ok (filter qualifies (split LF (logSince w c))),
         print (LogRaw (logSince w c))
           (print (LogTags true fromTag allTags) w))
    | None =>
        (Ok [],
         print (Warn (lit "Tag '" ++ fromTag
                      ++ lit "' does not exist. Skipping changelog."))
           (print (LogTags false fromTag allTags) w))
    end.
Proof.
  unfold Release.getChangelogSince, Release.tagExists, Release.getAllTags,
    bind, git_tags, gets, ret, modify, console_warn.
  destruct (lookup fromTag (tags w)) as [c|] eqn:E.
  - rewrite (lookup_Some_includes _ _ E); simpl.
    unfold git_log_since, resolve; simpl; now rewrite E.
  - destruct (includes (names (tags w)) fromTag) eqn:I; [|reflexivity].
    apply includes_lookup in I as [c I]; congruence.
Qed.

(** C2, counterexample.  Two runs of the UAT release on a log that
    holds no qualifying subject.  In [src/unnamed/part_000] the branch has
    no test on the commits it found: it creates the tag 4.1.2.4, pushes
    it, and writes a changelog entry with a heading and no line under it.
    In [src/release.ts], from the version (4, 1, 2, 2 ^ 53), no tag and no
    entry are made, and the version file is rewritten with the same R:
    [R + 1] is not a JavaScript number. *)
Lemma uat_release_without_changes_as_stated :
  let w := withTags [(lit "4.1.2.3", Existing 1)] (Existing 1)
             (repo (Some (lit "4.1.2.3")) (lit "fix typo")) in
  let current := parseVersion (lit "4.1.2.3") in
  let r := Part000.uatRelease current (lit "4.1.2.3") (lit "4.1.2.4") w in
  let big := lit "4.1.2.9007199254740992" in
  let w' := withTags [(big, Existing 1)] (Existing 1)
              (repo (Some big) (lit "fix typo")) in
  let r' := Release.uatRelease (parseVersion big) (Some big) None big
              (nextTag (parseVersion big)) w' in
  (fst (Part000.getChangelogSince (lit "4.1.2.3") w) = Ok []
   /\ fst r = Ok tt
   /\ lookup (lit "4.1.2.4") (tags w) = None
   /\ lookup (lit "4.1.2.4") (tags (snd r)) = Some (Existing 1)
   /\ lookup (lit "4.1.2.4") (originTags (snd r)) = Some (Existing 1)
   /\ changelogFile w = None
   /\ changelogFile (snd r)
      = Some (lit "## 4.1.2.4 (2025-01-31)" ++ [LF; LF; LF])
   /\ versionFile (snd r) = Some (lit "4.1.2.4"))
  /\ (fst (Release.getChangelogSince big w') = Ok []
      /\ fst r' = Ok tt
      /\ tags (snd r') = tags w'
      /\ changelogFile (snd r') = None
      /\ big = canonical 4 1 2 (2 ^ 53)
      /\ versionFile (snd r') = Some big
      /\ big <> canonical 4 1 2 (2 ^ 53 + 1)).
Proof. repeat split; vm_compute; (reflexivity || discriminate). Qed.

(** C2, as the code has it.  In [src/release.ts], whenever the commits
    since the last release ref hold no qualifying subject (the ref is not
    a tag, or no line of its log qualifies), the UAT release ends without
    an error and leaves the local tags, the tags of the remote, the
    changelog and [HEAD] as they were: no tag is created, no entry is
    written, no commit is made.  The version file has been rewritten by
    then, with [R] incremented: when R is a natural number below [2 ^ 53]
    the file holds X, Y and Z as they print and then the digits of
    R + 1. *)
Theorem release_uat_without_changes
    (w : World) (current : Version.t)
    (latestTagVersion latestVersion : option jsstring)
    (currentVersionStr newTag : jsstring) :
  let fromTag :=
    orElse latestTagVersion (orElse latestVersion currentVersionStr) in
  (forall c, lookup fromTag (tags w) = Some c ->
             filter qualifies (split LF (logSince w c)) = []) ->
  let r := Release.uatRelease current latestTagVersion latestVersion
             currentVersionStr newTag w in
  fst r = Ok tt
  /\ tags (snd r) = tags w
  /\ originTags (snd r) = originTags w
  /\ changelogFile (snd r) = changelogFile w
  /\ HEAD (snd r) = HEAD w
  /\ versionFile (snd r) = Some (versionString (bumpR current))
  /\ (forall n : N,
        (Z.of_N n < 2 ^ 53)%Z ->
        Version.R current = Num (ofZ (Z.of_N n)) ->
        versionFile (snd r)
        = Some (toString (Version.X current) ++ lit "."
                ++ toString (Version.Y current) ++ lit "."
                ++ toString (Version.Z current) ++ lit "."
                ++ digitsOf (n + 1))).
Proof.
  intros fromTag Hnone r.
  assert (versionFile (snd r) = Some (versionString (bumpR current))) as Hv
    by apply release_uat_version_file.
  assert (exists w', r = (Ok tt, w') /\ tags w' = tags w
          /\ originTags w' = originTags w
          /\ changelogFile w' = changelogFile w
          /\ HEAD w' = HEAD w) as (w' & Hr & H2 & H3 & H4 & H5).
  { subst r; unfold Release.uatRelease, Release.writeVersionIntoFile,
      writeVersionFile.
    unfold bind at 1; cbn [modify].
    unfold bind at 1; rewrite release_getChangelogSince.
    fold fromTag; cbn [tags setVersionFile logSince].
    destruct (lookup fromTag (tags w)) as [c|] eqn:E.
    - rewrite (Hnone c eq_refl).
      eexists; split; [reflexivity | repeat split].
    - eexists; split; [reflexivity | repeat split]. }
  rewrite Hr in *; cbn [fst snd] in *.
  repeat split; try assumption.
  intros n Hn HR.
  destruct current as [vx vy vz vr]; cbn [Version.R] in HR; subst vr.
  rewrite Hv; f_equal.
  apply (bumpR_small vx vy vz n Hn).
Qed.

Lemma release_uat_without_changes_witness :
  let w := withTags [(lit "4.1.2.3", Existing 1)] (Existing 2)
             (repo (Some (lit "4.1.2.3")) (lit "fix typo")) in
  let r := Release.uatRelease (versionOf 4 1 2 3) (Some (lit "4.1.2.3")) None
             (lit "4.1.2.3") (lit "4.1.2.4") w in
  fst r = Ok tt
  /\ tags (snd r) = tags w
  /\ originTags (snd r) = originTags w
  /\ changelogFile (snd r) = changelogFile w
  /\ HEAD (snd r) = HEAD w
  /\ versionFile (snd r) = Some (lit "4.1.2.4").
Proof.
  intros w r.
  assert (forall c,
            lookup (orElse (Some (lit "4.1.2.3")) (orElse None (lit "4.1.2.3")))
              (tags w) = Some c ->
            filter qualifies (split LF (logSince w c)) = []) as Hnone
    by (intros c Hc; vm_compute; reflexivity).
  destruct (@release_uat_without_changes w (versionOf 4 1 2 3)
              (Some (lit "4.1.2.3")) None (lit "4.1.2.3") (lit "4.1.2.4")
              Hnone)
    as (H1 & H2 & H3 & H4 & H5 & _ & H7).
  refine (conj H1 (conj H2 (conj H3 (conj H4 (conj H5 _))))).
  apply (H7 3%N); vm_compute; reflexivity.
Defined.

(* ================================================================== *)
(** * Further properties of the scripts *)
(* ================================================================== *)

(** ** Comparing the numbers of a version *)

Lemma compare_small_pos (p q : positive) :
  (Z.pos p < 2 ^ 53)%Z -> (Z.pos q < 2 ^ 53)%Z ->
  SFcompare (ofZ (Z.pos p)) (ofZ (Z.pos q)) = Some (Z.pos p ?= Z.pos q)%Z.
Proof.
  intros Hp Hq.
  assert (Z.pos (digits2_pos p) <= 53)%Z as Dp
    by (apply Doubles.digits2_small; lia).
  assert (Z.pos (digits2_pos q) <= 53)%Z as Dq
    by (apply Doubles.digits2_small; lia).
  rewrite !Doubles.ofZ_small by assumption.
  pose proof (Doubles.digits2_bounds p) as [Lp Up].
  pose proof (Doubles.digits2_bounds q) as [Lq Uq].
  unfold SFcompare, Binary64.exponent.
  change (Z.pos p ?= Z.pos q)%Z with (p ?= q)%positive.
  destruct (Z.compare_spec (Z.pos (digits2_pos p) - 53)
              (Z.pos (digits2_pos q) - 53)) as [E|E|E].
  - assert (digits2_pos p = digits2_pos q) as Ed by lia.
    change (PosDef.Pos.compare_cont Eq (Binary64.mantissa p)
              (Binary64.mantissa q))
      with (Binary64.mantissa p ?= Binary64.mantissa q)%positive.
    unfold Binary64.mantissa; rewrite Ed.
    destruct (53 - Z.pos (digits2_pos q))%Z; try reflexivity.
    now rewrite Pos.mul_compare_mono_r.
  - assert (2 ^ Z.pos (digits2_pos p) <= 2 ^ (Z.pos (digits2_pos q) - 1))%Z
      by (apply Z.pow_le_mono_r; lia).
    f_equal; symmetry; apply Pos.compare_lt_iff; lia.
  - assert (2 ^ Z.pos (digits2_pos q) <= 2 ^ (Z.pos (digits2_pos p) - 1))%Z
      by (apply Z.pow_le_mono_r; lia).
    f_equal; symmetry; apply Pos.compare_gt_iff; lia.
Qed.

(** Below [2 ^ 53] the numbers compare as the integers they hold. *)
Lemma compare_small (a b : Z) :
  (0 <= a < 2 ^ 53)%Z -> (0 <= b < 2 ^ 53)%Z ->
  SFcompare (ofZ a) (ofZ b) = Some (a ?= b)%Z.
Proof.
  intros Ha Hb; destruct a as [|p|p], b as [|q|q]; try lia.
  - reflexivity.
  - now rewrite Doubles.ofZ_small by lia.
  - now rewrite Doubles.ofZ_small by lia.
  - apply compare_small_pos; lia.
Qed.

Lemma gt_small (a b : Z) :
  (0 <= a < 2 ^ 53)%Z -> (0 <= b < 2 ^ 53)%Z ->
  gt (Num (ofZ a)) (Num (ofZ b))
  = match (a ?= b)%Z with Gt => true | _ => false end.
Proof. intros Ha Hb; unfold gt, toNumber; now rewrite compare_small. Qed.

Lemma strictEq_small (a b : Z) :
  (0 <= a < 2 ^ 53)%Z -> (0 <= b < 2 ^ 53)%Z ->
  strictEq (Num (ofZ a)) (Num (ofZ b))
  = match (a ?= b)%Z with Eq => true | _ => false end.
Proof. intros Ha Hb; unfold strictEq, SFeqb; now rewrite compare_small. Qed.

(** Nothing is above [undefined]. *)
Lemma gt_undefined (v : jsval) : gt v Undefined = false.
Proof.
  unfold gt, toNumber, NaN.
  destruct v as [|n]; [reflexivity|]; destruct n; reflexivity.
Qed.

(** ** The tags above the version of the file *)

Lemma compareVersions_refl (a : list Z) : compareVersions a a = Eq.
Proof.
  induction a as [|x a IH]; simpl; [reflexivity|].
  now rewrite Z.compare_refl.
Qed.

(** The numbers a version tag splits into are those of its components. *)
Lemma numbers_of_tag (tag : jsstring) :
  versionTag tag ->
  exists a b c d,
    components tag = [a; b; c; d]
    /\ map Number (split DOT tag) = [ofZ a; ofZ b; ofZ c; ofZ d]
    /\ (0 <= a)%Z /\ (0 <= b)%Z /\ (0 <= c)%Z /\ (0 <= d)%Z.
Proof.
  intros H; apply tag_shape in H as (d1 & d2 & d3 & d4 & -> & R1 & R2 & R3 & R4).
  exists (digitsValue d1), (digitsValue d2), (digitsValue d3), (digitsValue d4).
  rewrite components_tag by assumption.
  repeat split; try apply digitsValue_nonneg.
  pose proof (proj2 R1); pose proof (proj2 R2); pose proof (proj2 R3);
    pose proof (proj2 R4).
  rewrite !split_app_sep, split_no_sep by (apply run_no_dot; assumption).
  simpl; now rewrite !Number_run.
Qed.

(** On numbers below [2 ^ 53] the test of [findBiggerVersion] is the
    comparison of the components. *)
Lemma bigger_above (tag : jsstring) (x y z r : N) :
  versionTag tag ->
  Forall (fun v => v < 2 ^ 53)%Z (components tag) ->
  (Z.of_N x < 2 ^ 53)%Z -> (Z.of_N y < 2 ^ 53)%Z ->
  (Z.of_N z < 2 ^ 53)%Z -> (Z.of_N r < 2 ^ 53)%Z ->
  Release.bigger (versionOf x y z r) tag
  = match compareVersions (components tag)
            [Z.of_N x; Z.of_N y; Z.of_N z; Z.of_N r] with
    | Gt => true
    | _ => false
    end.
Proof.
  intros Ht Hb Hx Hy Hz Hr.
  destruct (numbers_of_tag Ht) as (a & b & c & d & Hc & Hn & Ha & Hb' & Hc' & Hd).
  rewrite Hc in *.
  repeat match goal with
         | H : Forall _ (_ :: _) |- _ =>
             apply Forall_cons_iff in H as [? H]
         end.
  unfold Release.bigger, versionOf; rewrite Hn.
  cbn [element nth_error Version.X Version.Y Version.Z Version.R
       compareVersions].
  rewrite !gt_small, !strictEq_small by lia.
  destruct (a ?= Z.of_N x)%Z, (b ?= Z.of_N y)%Z, (c ?= Z.of_N z)%Z;
    try reflexivity;
    destruct (d ?= Z.of_N r)%Z; reflexivity.
Qed.

(** The filter of [findBiggerVersion] keeps the tags whose version is
    above the one of the file, component by component as integers, when
    the numbers are below [2 ^ 53].  When the file has three segments only,
    so that R is [undefined], a tag is kept when its first three components
    are above those of the file, and never on account of its fourth. *)
Theorem bigger_is_lexicographic (tag : jsstring) (x y z r : N) :
  versionTag tag ->
  Forall (fun v => v < 2 ^ 53)%Z (components tag) ->
  (Z.of_N x < 2 ^ 53)%Z -> (Z.of_N y < 2 ^ 53)%Z ->
  (Z.of_N z < 2 ^ 53)%Z -> (Z.of_N r < 2 ^ 53)%Z ->
  Release.bigger (versionOf x y z r) tag
  = match compareVersions (components tag)
            [Z.of_N x; Z.of_N y; Z.of_N z; Z.of_N r] with
    | Gt => true
    | _ => false
    end
  /\ Release.bigger
       {| Version.X := Num (ofZ (Z.of_N x)); Version.Y := Num (ofZ (Z.of_N y));
          Version.Z := Num (ofZ (Z.of_N z)); Version.R := Undefined |} tag
     = match compareVersions (firstn 3 (components tag))
               [Z.of_N x; Z.of_N y; Z.of_N z] with
       | Gt => true
       | _ => false
       end.
Proof.
  intros Ht Hb Hx Hy Hz Hr.
  split; [now apply bigger_above|].
  destruct (numbers_of_tag Ht) as (a & b & c & d & Hc & Hn & Ha & Hb' & Hc' & Hd).
  rewrite Hc in *.
  repeat match goal with
         | H : Forall _ (_ :: _) |- _ =>
             apply Forall_cons_iff in H as [? H]
         end.
  unfold Release.bigger; rewrite Hn.
  cbn [element nth_error Version.X Version.Y Version.Z Version.R firstn
       compareVersions].
  rewrite gt_undefined, !gt_small, !strictEq_small by lia.
  destruct (a ?= Z.of_N x)%Z, (b ?= Z.of_N y)%Z, (c ?= Z.of_N z)%Z;
    reflexivity.
Qed.

Lemma bigger_is_lexicographic_witness :
  Release.bigger (versionOf 4 1 2 9) (lit "4.1.2.10") = true
  /\ Release.bigger
       {| Version.X := Num (ofZ 4); Version.Y := Num (ofZ 1);
          Version.Z := Num (ofZ 2); Version.R := Undefined |}
       (lit "4.1.2.10") = false.
Proof.
  assert (components (lit "4.1.2.10") = [4; 1; 2; 10]%Z) as Hc
    by (vm_compute; reflexivity).
  apply (@bigger_is_lexicographic (lit "4.1.2.10") 4 1 2 9);
    try reflexivity.
  rewrite Hc; repeat constructor.
Defined.

Lemma notBelow_above (t u : jsstring) (cur : list Z) :
  notBelow t u -> compareVersions (components u) cur = Gt ->
  compareVersions (components t) cur = Gt.
Proof.
  unfold notBelow; intros Htu Hu.
  destruct (compareVersions (components t) cur) eqn:E; [| |reflexivity];
    exfalso.
  - assert (compareVersions (components u) cur <> Gt); [|congruence].
    apply compareVersions_trans with (components t); [|congruence].
    rewrite compareVersions_antisym.
    destruct (compareVersions (components t) (components u)); easy.
  - assert (compareVersions (components u) cur <> Gt); [|congruence].
    apply compareVersions_trans with (components t); [|congruence].
    rewrite compareVersions_antisym.
    destruct (compareVersions (components t) (components u)); easy.
Qed.

(** In a descending list, the first element that is above a version is
    the head of the list, or there is none. *)
Lemma first_above_is_head (cur : list Z) (l : list jsstring) :
  StronglySorted notBelow l ->
  let f := fun t => match compareVersions (components t) cur with
                    | Gt => true
                    | _ => false
                    end in
  nth_error (filter f l) 0
  = match l with
    | t :: _ => if f t then Some t else None
    | [] => None
    end.
Proof.
  intros Hs f; destruct l as [|t l]; [reflexivity|].
  apply StronglySorted_inv in Hs as [_ Hall].
  simpl; destruct (f t) eqn:E; [reflexivity|].
  assert (filter f l = []) as ->; [|reflexivity].
  induction l as [|u l IH]; [reflexivity|].
  apply Forall_cons_iff in Hall as [Hu Hall].
  simpl; destruct (f u) eqn:Eu; [|now apply IH].
  subst f; simpl in *.
  destruct (compareVersions (components u) cur) eqn:Cu; try discriminate.
  now rewrite (notBelow_above _ Hu Cu) in E.
Qed.

(** What [getLatestTag] answers, when it answers: [null] exactly when no
    tag of the repository matches the pattern, and otherwise a tag of the
    repository that matches the pattern and is not below any other that
    does.  The repository is as it was, and [tagExists], when it answers
    for that tag, answers [true]. *)
Theorem latest_tag_is_greatest
    (w w' : World) (res : option jsstring) :
  Release.getLatestTag w = (Ok res, w') ->
  w' = w
  /\ (res = None <->
      forall t, In t (names (tags w)) -> isVersionTag t = false)
  /\ (forall t, res = Some t ->
        In t (names (tags w)) /\ versionTag t
        /\ (forall u, In u (names (tags w)) -> versionTag u ->
                      notBelow t u)
        /\ (forall b w'', Release.tagExists t w = (Ok b, w'') -> b = true)).
Proof.
  intros Hrun.
  set (matching := filter isVersionTag (names (tags w))).
  set (listed := sort descending matching).
  assert (res = nth_error listed 0 /\ w' = w) as [-> ->].
  { unfold Release.getLatestTag, Release.getAllTags, bind, git_tags, gets, ret
      in Hrun.
    fold matching in Hrun; fold listed in Hrun.
    destruct listed; injection Hrun as <- <-; split; reflexivity. }
  pose proof (sort_perm descending matching) as Hp; fold listed in Hp.
  pose proof (sort_descending_notBelow (filter_versionTag (names (tags w))))
    as Hs; fold matching listed in Hs.
  split; [reflexivity|split].
  - split.
    + intros E t Ht; destruct (isVersionTag t) eqn:Et; [|reflexivity].
      assert (In t listed) as Hin
        by (apply (Permutation_in _ Hp), filter_In; tauto).
      destruct listed; [easy | discriminate].
    + intros H; destruct listed as [|t l] eqn:El; [reflexivity|].
      assert (In t matching) as Hin
        by (apply (Permutation_in _ (Permutation_sym Hp)); now left).
      apply filter_In in Hin as [Hin Ht]; rewrite (H t Hin) in Ht; easy.
  - intros t E; destruct listed as [|t' l] eqn:El; [discriminate|].
    injection E as ->.
    assert (In t matching) as Hin
      by (apply (Permutation_in _ (Permutation_sym Hp)); now left).
    apply filter_In in Hin as [Hin Ht].
    apply StronglySorted_inv in Hs as [_ Hall].
    repeat split; try assumption.
    + intros u Hu Vu.
      assert (In u (t :: l)) as [<-|Hl]
        by (apply (Permutation_in _ Hp), filter_In; tauto).
      * unfold notBelow; now rewrite compareVersions_refl.
      * rewrite Forall_forall in Hall; auto.
    + intros b w'' Hex.
      unfold Release.tagExists, bind, git_tags, gets, ret in Hex.
      apply includes_In in Hin; rewrite Hin in Hex.
      now injection Hex as <- _.
Qed.

Lemma latest_tag_is_greatest_witness :
  let w := withTags [(lit "4.1.2.9", Existing 1); (lit "UAT-LATEST", Existing 2);
                     (lit "4.1.2.10", Existing 2)]
             (Existing 2) (repo (Some (lit "4.1.2.10")) []) in
  In (lit "4.1.2.10") (names (tags w))
  /\ versionTag (lit "4.1.2.10")
  /\ (forall u, In u (names (tags w)) -> versionTag u ->
                notBelow (lit "4.1.2.10") u).
Proof.
  intros w.
  assert (Release.getLatestTag w = (Ok (Some (lit "4.1.2.10")), w)) as Hrun
    by (vm_compute; reflexivity).
  destruct (@latest_tag_is_greatest _ _ _ Hrun) as (_ & _ & H).
  destruct (H (lit "4.1.2.10") eq_refl) as (H1 & H2 & H3 & _).
  exact (conj H1 (conj H2 H3)).
Defined.

(** With the version file [X.Y.Z.R] and a reachable remote none of whose
    tags is held locally on another commit, [findBiggerVersion] fetches
    the tags and answers the latest version tag when that tag is above the
    version of the file, and [null] when no version tag is; the numbers of
    the file and of the tags are below [2 ^ 53]. *)
Theorem findBiggerVersion_is_latest_if_above (w : World) (x y z r : N) :
  versionFile w = Some (canonical x y z r) -> originUp w = true ->
  clashes (originTags w) (tags w) = false ->
  (Z.of_N x < 2 ^ 53)%Z -> (Z.of_N y < 2 ^ 53)%Z ->
  (Z.of_N z < 2 ^ 53)%Z -> (Z.of_N r < 2 ^ 53)%Z ->
  let w1 := setTags (fetched (tags w) (originTags w)) w in
  let cur := [Z.of_N x; Z.of_N y; Z.of_N z; Z.of_N r] in
  (forall t, In t (names (tags w1)) -> versionTag t ->
             Forall (fun v => v < 2 ^ 53)%Z (components t)) ->
  exists res,
    Release.findBiggerVersion w = (Ok res, w1)
    /\ (forall t, res = Some t ->
          fst (Release.getLatestTag w1) = Ok (Some t)
          /\ compareVersions (components t) cur = Gt)
    /\ (res = None ->
        forall u, In u (names (tags w1)) -> versionTag u ->
                  compareVersions (components u) cur <> Gt).
Proof.
  intros Hv Hup Hcl Hx Hy Hz Hr w1 cur Hsmall.
  set (matching := filter isVersionTag (names (tags w1))).
  set (listed := sort descending matching).
  pose proof (sort_perm descending matching) as Hp; fold listed in Hp.
  pose proof (sort_descending_notBelow (filter_versionTag (names (tags w1))))
    as Hs; fold matching listed in Hs.
  assert (forall t, In t listed -> In t (names (tags w1)) /\ versionTag t)
    as Hlisted.
  { intros t Ht; apply (Permutation_in _ (Permutation_sym Hp)) in Ht.
    now apply filter_In in Ht. }
  set (f := fun t => match compareVersions (components t) cur with
                     | Gt => true
                     | _ => false
                     end).
  assert (filter (Release.bigger (versionOf x y z r)) listed = filter f listed)
    as Hf.
  { apply filter_ext_in; intros t Ht.
    destruct (Hlisted t Ht) as [Hin Vt].
    now apply bigger_above; auto. }
  exists (nth_error (filter f listed) 0).
  split.
  - unfold Release.findBiggerVersion, Release.loadRemoteTags,
      Release.readCurrentVersionFromFile, Release.getAllTags, bind, catch,
      git_fetch_tags, readVersionFile, git_tags, gets, ret.
    rewrite Hup, Hcl; cbn [versionFile setTags]; rewrite Hv.
    fold w1; fold matching; fold listed.
    now rewrite parseVersion_canonical, Hf.
  - pose proof (first_above_is_head cur Hs) as Hfa; cbv zeta in Hfa.
    fold f in Hfa; rewrite Hfa; clear Hfa.
    unfold Release.getLatestTag, Release.getAllTags, bind, git_tags, gets, ret.
    fold matching; fold listed; cbn [fst].
    destruct listed as [|t l] eqn:El.
    + split; [discriminate|].
      intros _ u Hu Vu.
      assert (In u []) as []
        by (apply (Permutation_in _ Hp), filter_In; tauto).
    + destruct (f t) eqn:E; split; try discriminate.
      * intros t' Et; injection Et as <-; split; [reflexivity|].
        subst f; simpl in E.
        destruct (compareVersions (components t) cur); easy.
      * intros _ u Hu Vu Cu.
        assert (In u (t :: l)) as Hin
          by (apply (Permutation_in _ Hp), filter_In; tauto).
        apply StronglySorted_inv in Hs as [_ Hall].
        rewrite Forall_forall in Hall.
        assert (notBelow t u) as Htu.
        { destruct Hin as [<-|Hin]; [|now apply Hall].
          unfold notBelow; now rewrite compareVersions_refl. }
        subst f; simpl in E.
        now rewrite (notBelow_above _ Htu Cu) in E.
Qed.

Lemma findBiggerVersion_is_latest_if_above_witness :
  let w := setOriginTags [(lit "4.1.2.10", Existing 1)]
             (withTags [(lit "4.1.2.3", Existing 1)] (Existing 1)
                (repo (Some (lit "4.1.2.9")) [])) in
  exists res,
    Release.findBiggerVersion w
    = (Ok res, setTags (fetched (tags w) (originTags w)) w)
    /\ (forall t, res = Some t ->
          fst (Release.getLatestTag
                 (setTags (fetched (tags w) (originTags w)) w))
          = Ok (Some t)
          /\ compareVersions (components t) [4; 1; 2; 9]%Z = Gt)
    /\ (res = None ->
        forall u,
          In u (names (tags (setTags (fetched (tags w) (originTags w)) w))) ->
          versionTag u ->
          compareVersions (components u) [4; 1; 2; 9]%Z <> Gt).
Proof.
  intros w.
  apply (@findBiggerVersion_is_latest_if_above w 4 1 2 9);
    try reflexivity.
  intros t Hin _.
  change (In t [lit "4.1.2.3"; lit "4.1.2.10"]) in Hin.
  destruct Hin as [<-|[<-|[]]].
  - assert (components (lit "4.1.2.3") = [4; 1; 2; 3]%Z) as ->
      by (vm_compute; reflexivity).
    repeat constructor.
  - assert (components (lit "4.1.2.10") = [4; 1; 2; 10]%Z) as ->
      by (vm_compute; reflexivity).
    repeat constructor.
Defined.

(** ** Starting the next release, and the next generation *)

Lemma part000_main_runs (w : World) (content : jsstring) (pickTag : nat) :
  versionFile w = Some content ->
  Part000.main 1 pickTag w = Part000.startNextRelease (parseVersion content) w
  /\ Part000.main 3 pickTag w = Part000.generation (parseVersion content) w.
Proof.
  intros Hv; unfold Part000.main, Part000.readCurrentVersion, bind,
    readVersionFile, ret.
  now rewrite Hv.
Qed.

(** On a clean tree the guard lets the run through. *)
Lemma release_main_clean
    (w : World) (st : StatusResult) (pick pickTag : nat) :
  status w = Some st -> counted st = 0%Z ->
  Release.main pick pickTag w = Release.release pick pickTag w.
Proof.
  intros Hs Hc.
  unfold Release.main, Release.getUnchangedFileCount, bind, catch, git_status.
  rewrite Hs; fold (counted st); rewrite Hc; reflexivity.
Qed.

Lemma release_main_runs
    (w : World) (content : jsstring) (st : StatusResult) (pickTag : nat) :
  versionFile w = Some content -> status w = Some st -> counted st = 0%Z ->
  originUp w = true -> clashes (originTags w) (tags w) = false ->
  let w1 := setTags (fetched (tags w) (originTags w)) w in
  Release.main 1 pickTag w = Release.startNextRelease (parseVersion content) w1
  /\ Release.main 3 pickTag w = Release.generation (parseVersion content) w1.
Proof.
  intros Hv Hs Hc Hup Hcl w1.
  rewrite !(release_main_clean w _ pickTag Hs Hc).
  unfold Release.release, Release.readCurrentVersionFromFile,
    Release.findBiggerVersion, Release.loadRemoteTags, Release.getLatestTag,
    Release.getAllTags, Release.readCurrentVersionFromFile.
  unfold bind, catch, readVersionFile, git_fetch_tags, git_tags, gets, ret,
    prompt.
  rewrite Hv, Hup, Hcl; cbn [versionFile setTags nth_error].
  rewrite Hv; unfold Release.branchOf, ret; cbn [nth_error].
  split; reflexivity.
Qed.

Lemma bumpZ_canonical (x y z r : N) :
  (Z.of_N x <= 2 ^ 53)%Z -> (Z.of_N y <= 2 ^ 53)%Z -> (Z.of_N z < 2 ^ 53)%Z ->
  versionString (bumpZ (versionOf x y z r)) = canonical x y (z + 1) 0.
Proof.
  intros Hx Hy Hz; unfold bumpZ, versionOf.
  cbn [Version.X Version.Y Version.Z Version.R].
  rewrite plusOne_small by assumption.
  apply (versionString_versionOf x y (z + 1) 0); try assumption;
    [rewrite N2Z.inj_add; simpl Z.of_N; lia | discriminate].
Qed.

Lemma bumpY_canonical (x y z r : N) :
  (Z.of_N x <= 2 ^ 53)%Z -> (Z.of_N y < 2 ^ 53)%Z ->
  versionString (bumpY (versionOf x y z r)) = canonical x (y + 1) 0 0.
Proof.
  intros Hx Hy; unfold bumpY, versionOf.
  cbn [Version.X Version.Y Version.Z Version.R].
  rewrite plusOne_small by assumption.
  apply (versionString_versionOf x (y + 1) 0 0); try assumption;
    [rewrite N2Z.inj_add; simpl Z.of_N; lia | discriminate | discriminate].
Qed.

(** The choice "UAT start work on next release", run from the menu on
    the version file [X.Y.Z.R] with X and Y natural numbers of at most
    [2 ^ 53] and Z one below [2 ^ 53]: the file becomes [X.Y.(Z+1).0], the
    line printed last shows that version, and the changelog, [HEAD] and
    the tags of the remote stay as they were.  So it is in [part_000],
    which leaves the local tags alone too; and so it is in [release.ts]
    when git reports no untracked, renamed or modified file, the remote
    can be reached and none of its tags is held locally on another commit:
    there the tags of the remote have been fetched by then. *)
Theorem start_next_release_run
    (w : World) (x y z r : N) (pickTag : nat) :
  versionFile w = Some (canonical x y z r) ->
  (Z.of_N x <= 2 ^ 53)%Z -> (Z.of_N y <= 2 ^ 53)%Z -> (Z.of_N z < 2 ^ 53)%Z ->
  let file := canonical x y (z + 1) 0 in
  let said := Log (CHECK_MARK ++ lit " Started work on UAT release: "
                   ++ file) in
  Part000.main 1 pickTag w = (Ok tt, print said (setVersionFile file w))
  /\ (forall st, status w = Some st -> counted st = 0%Z ->
        originUp w = true -> clashes (originTags w) (tags w) = false ->
        Release.main 1 pickTag w
        = (Ok tt,
           print said
             (setVersionFile file
                (setTags (fetched (tags w) (originTags w)) w)))).
Proof.
  intros Hv Hx Hy Hz file said.
  split.
  - rewrite (proj1 (part000_main_runs w pickTag Hv)).
    rewrite parseVersion_canonical.
    unfold Part000.startNextRelease, Part000.writeVersion, writeVersionFile,
      console_log, bind, modify.
    now rewrite bumpZ_canonical.
  - intros st Hs Hc Hup Hcl.
    rewrite (proj1 (release_main_runs w pickTag Hv Hs Hc Hup Hcl)).
    rewrite parseVersion_canonical.
    unfold Release.startNextRelease, Release.writeVersionIntoFile,
      writeVersionFile, console_log, bind, modify.
    now rewrite bumpZ_canonical.
Qed.

Lemma start_next_release_run_witness :
  let w := repo (Some (lit "4.1.2.9")) [] in
  Part000.main 1 0 w
  = (Ok tt,
     print (Log (CHECK_MARK ++ lit " Started work on UAT release: 4.1.3.0"))
       (setVersionFile (lit "4.1.3.0") w))
  /\ Release.main 1 0 w
     = (Ok tt,
        print (Log (CHECK_MARK ++ lit " Started work on UAT release: 4.1.3.0"))
          (setVersionFile (lit "4.1.3.0")
             (setTags (fetched (tags w) (originTags w)) w))).
Proof.
  intros w.
  assert (Z.of_N 4 <= 2 ^ 53)%Z as Hx by (vm_compute; discriminate).
  assert (Z.of_N 1 <= 2 ^ 53)%Z as Hy by (vm_compute; discriminate).
  destruct (@start_next_release_run w 4 1 2 9 0 eq_refl Hx Hy eq_refl)
    as [H1 H2].
  split; [exact H1|].
  apply (H2 cleanStatus); reflexivity.
Defined.

(** The choice "GENERATION", run from the menu on the version file
    [X.Y.Z.R] with X a natural number of at most [2 ^ 53] and Y one below
    [2 ^ 53]: the file becomes [X.(Y+1).0.0], and the line printed, which
    spells the two zeros out, shows exactly what the file holds; the
    changelog, [HEAD] and the tags of the remote stay as they were.  So it
    is in [part_000]; and so it is in [release.ts] when git reports no
    untracked, renamed or modified file, the remote can be reached and
    none of its tags is held locally on another commit: there the tags of
    the remote have been fetched by then. *)
Theorem generation_run (w : World) (x y z r : N) (pickTag : nat) :
  versionFile w = Some (canonical x y z r) ->
  (Z.of_N x <= 2 ^ 53)%Z -> (Z.of_N y < 2 ^ 53)%Z ->
  let file := canonical x (y + 1) 0 0 in
  let said := Log (CHECK_MARK ++ lit " Generation version updated to: "
                   ++ file) in
  Part000.main 3 pickTag w = (Ok tt, print said (setVersionFile file w))
  /\ (forall st, status w = Some st -> counted st = 0%Z ->
        originUp w = true -> clashes (originTags w) (tags w) = false ->
        Release.main 3 pickTag w
        = (Ok tt,
           print said
             (setVersionFile file
                (setTags (fetched (tags w) (originTags w)) w)))).
Proof.
  intros Hv Hx Hy file said.
  assert (forall v, v = versionOf x y z r ->
            toString (Version.X (bumpY v)) ++ lit "."
            ++ toString (Version.Y (bumpY v)) ++ lit ".0.0" = file) as Hsaid.
  { intros v ->; unfold file; rewrite <- (bumpY_canonical x y z r Hx Hy).
    unfold versionString, bumpY;
      cbn [Version.X Version.Y Version.Z Version.R].
    reflexivity. }
  split.
  - rewrite (proj2 (part000_main_runs w pickTag Hv)).
    rewrite parseVersion_canonical.
    unfold Part000.generation, Part000.writeVersion, writeVersionFile,
      console_log, bind, modify.
    now rewrite bumpY_canonical, (Hsaid _ eq_refl).
  - intros st Hs Hc Hup Hcl.
    rewrite (proj2 (release_main_runs w pickTag Hv Hs Hc Hup Hcl)).
    rewrite parseVersion_canonical.
    unfold Release.generation, Release.writeVersionIntoFile,
      writeVersionFile, console_log, bind, modify.
    now rewrite bumpY_canonical, (Hsaid _ eq_refl).
Qed.

Lemma generation_run_witness :
  let w := repo (Some (lit "4.1.2.9")) [] in
  Part000.main 3 0 w
  = (Ok tt,
     print (Log (CHECK_MARK ++ lit " Generation version updated to: 4.2.0.0"))
       (setVersionFile (lit "4.2.0.0") w))
  /\ Release.main 3 0 w
     = (Ok tt,
        print (Log (CHECK_MARK
                    ++ lit " Generation version updated to: 4.2.0.0"))
          (setVersionFile (lit "4.2.0.0")
             (setTags (fetched (tags w) (originTags w)) w))).
Proof.
  intros w.
  assert (Z.of_N 4 <= 2 ^ 53)%Z as Hx by (vm_compute; discriminate).
  destruct (@generation_run w 4 1 2 9 0 eq_refl Hx eq_refl) as [H1 H2].
  split; [exact H1|].
  apply (H2 cleanStatus); reflexivity.
Defined.

(** ** What stops a run before the menu *)

(** What stops a run before the menu.  Without the version file
    [part_000] stops with the error of the file system and changes
    nothing; so does [release.ts] when git reports no untracked, renamed or
    modified file.  With the file and such a report, [release.ts] stops at
    the fetch when the remote cannot be reached, and when the remote holds
    a tag that is on another commit locally: it prints the failure of the
    fetch and stops with it.  The files and [HEAD] are as they were; the
    tags are too when the remote cannot be reached, and in the other case
    the tags that the fetch accepted have come in. *)
Theorem run_stops_before_menu (w : World) (pick pickTag : nat) :
  let failed := GitError [lit "fetch"; lit "--tags"] in
  let said := ErrorWith (lit "Failed to fetch remote tags:") failed in
  (versionFile w = None ->
   Part000.main pick pickTag w = (Throw (FsError VERSION_TXT), w)
   /\ (forall st, status w = Some st -> counted st = 0%Z ->
         Release.main pick pickTag w = (Throw (FsError VERSION_TXT), w)))
  /\ (forall content st,
        versionFile w = Some content -> status w = Some st ->
        counted st = 0%Z ->
        (originUp w = false ->
         Release.main pick pickTag w = (Throw failed, print said w))
        /\ (originUp w = true -> clashes (originTags w) (tags w) = true ->
            Release.main pick pickTag w
            = (Throw failed,
               print said (setTags (fetched (tags w) (originTags w)) w)))).
Proof.
  intros failed said; split.
  - intros Hv; split.
    + unfold Part000.main, Part000.readCurrentVersion, bind, readVersionFile.
      now rewrite Hv.
    + intros st Hs Hc.
      rewrite (release_main_clean w pick pickTag Hs Hc).
      unfold Release.release, Release.readCurrentVersionFromFile, bind,
        readVersionFile.
      now rewrite Hv.
  - intros content st Hv Hs Hc.
    rewrite (release_main_clean w pick pickTag Hs Hc).
    unfold Release.release, Release.readCurrentVersionFromFile,
      Release.findBiggerVersion, Release.loadRemoteTags, bind, catch,
      readVersionFile, git_fetch_tags, ret, modify, throw.
    rewrite Hv; split.
    + intros Hup; now rewrite Hup.
    + intros Hup Hcl; now rewrite Hup, Hcl.
Qed.

Lemma run_stops_before_menu_witness :
  let offline :=
    {| versionFile := Some (lit "4.1.2.3"); changelogFile := None;
       tags := []; originTags := []; originUp := false; HEAD := Existing 0;
       revisions := []; logSince := fun _ => []; status := Some cleanStatus;
       console := []; today := lit "2025-01-31" |} in
  let moved :=
    setOriginTags [(lit "UAT-LATEST", Existing 2); (lit "4.1.2.4", Existing 2)]
      (withTags [(lit "UAT-LATEST", Existing 1)] (Existing 1)
         (repo (Some (lit "4.1.2.3")) [])) in
  let failed := GitError [lit "fetch"; lit "--tags"] in
  let said := ErrorWith (lit "Failed to fetch remote tags:") failed in
  Part000.main 0 0 (repo None []) = (Throw (FsError VERSION_TXT), repo None [])
  /\ Release.main 0 0 (repo None [])
     = (Throw (FsError VERSION_TXT), repo None [])
  /\ Release.main 0 0 offline = (Throw failed, print said offline)
  /\ Release.main 1 0 moved
     = (Throw failed,
        print said
          (setTags [(lit "UAT-LATEST", Existing 1); (lit "4.1.2.4", Existing 2)]
             moved)).
Proof.
  intros offline moved failed said.
  destruct (run_stops_before_menu (repo None []) 0 0) as [H _].
  destruct (H eq_refl) as [H1 H2].
  destruct (run_stops_before_menu offline 0 0) as [_ H3].
  destruct (H3 (lit "4.1.2.3") cleanStatus eq_refl eq_refl eq_refl)
    as [H4 _].
  destruct (run_stops_before_menu moved 1 0) as [_ H5].
  destruct (H5 (lit "4.1.2.3") cleanStatus eq_refl eq_refl eq_refl)
    as [_ H6].
  split; [exact H1|split; [exact (H2 cleanStatus eq_refl eq_refl)|]].
  split; [exact (H4 eq_refl)|].
  exact (H6 eq_refl eq_refl).
Defined.

(** ** Deleting a tag everywhere *)

Lemma remove_lookup_other (name other : jsstring) (l : refs) :
  other <> name -> lookup other (remove name l) = lookup other l.
Proof.
  intros Hne; induction l as [|[n c] l IH]; simpl; [reflexivity|].
  destruct (eqb n name) eqn:E; simpl.
  - apply eqb_eq in E; subst n.
    destruct (eqb name other) eqn:E'; [|assumption].
    apply eqb_eq in E'; congruence.
  - now rewrite IH.
Qed.


(** ** The changelog *)

Lemma split_app (sep : codeUnit) (a b : jsstring) :
  split sep (a ++ sep :: b) = split sep a ++ split sep b.
Proof.
  induction a as [|c a IH]; simpl.
  - now rewrite N.eqb_refl.
  - destruct (c =? sep)%N; rewrite IH; [reflexivity|].
    pose proof (split_nonempty sep a) as Hne.
    destruct (split sep a); [easy | reflexivity].
Qed.

(** The lines of a changelog entry: the heading with the version and the
    date, one line ["- subject"] for each subject in the order given, and
    two empty lines' worth of line ends.  With no subject at all the entry
    still has one, empty, line under the heading. *)
Theorem changelog_entry_lines
    (version date : jsstring) (logLines : list jsstring) :
  ~ In LF version -> ~ In LF date ->
  (forall l, In l logLines -> ~ In LF l) ->
  split LF (changelogEntry version date logLines)
  = (lit "## " ++ version ++ lit " (" ++ date ++ lit ")")
    :: match logLines with
       | [] => [[]]
       | _ => map (fun l => lit "- " ++ l) logLines
       end ++ [[]; []].
Proof.
  intros Hv Hd Hl; unfold changelogEntry.
  assert (~ In LF (lit "## " ++ version ++ lit " (" ++ date ++ lit ")"))
    as Hhead.
  { rewrite !in_app_iff; intros [H|[H|[H|[H|H]]]]; try tauto;
      vm_compute in H; intuition discriminate. }
  set (body := join [LF] (map (fun l => lit "- " ++ l) logLines)).
  change ([LF] ++ body ++ [LF; LF]) with (LF :: body ++ LF :: [LF]).
  replace (lit "## " ++ version ++ lit " (" ++ date ++ lit ")"
           ++ LF :: body ++ LF :: [LF])
    with ((lit "## " ++ version ++ lit " (" ++ date ++ lit ")")
          ++ LF :: body ++ LF :: [LF])
    by (now rewrite <- !app_assoc).
  rewrite (@split_app_sep LF _ _ Hhead); f_equal.
  rewrite split_app; f_equal.
  subst body; destruct logLines as [|l ls]; [reflexivity|].
  apply split_join; [discriminate|].
  intros b Hb; apply in_map_iff in Hb as (l' & <- & Hin).
  rewrite in_app_iff; intros [H|H]; [|now apply (Hl l')].
  vm_compute in H; intuition discriminate.
Qed.

Lemma changelog_entry_lines_witness :
  split LF (changelogEntry (lit "4.1.2.4") (lit "2025-01-31")
              [SPARKLES ++ lit " add X"; BUG ++ lit " fix Y"])
  = [lit "## 4.1.2.4 (2025-01-31)"; lit "- " ++ SPARKLES ++ lit " add X";
     lit "- " ++ BUG ++ lit " fix Y"; []; []].
Proof.
  apply (@changelog_entry_lines (lit "4.1.2.4") (lit "2025-01-31")
           [SPARKLES ++ lit " add X"; BUG ++ lit " fix Y"]).
  - vm_compute; intuition discriminate.
  - vm_compute; intuition discriminate.
  - intros l [<-|[<-|[]]]; vm_compute; intuition discriminate.
Defined.

(** ** Version tags and marker tags *)

Lemma spanDigits_run_dot (d r : jsstring) :
  forallb isDigit d = true -> spanDigits (d ++ DOT :: r) = (d, DOT :: r).
Proof.
  induction d as [|c d IH]; simpl; [reflexivity|].
  intros H; apply andb_prop in H as [-> Hd].
  now rewrite IH.
Qed.

Lemma digits1_run_dot (d r : jsstring) :
  isRun d -> digits1 (d ++ DOT :: r) = Some (DOT :: r).
Proof.
  intros [Hne Hd]; unfold digits1; rewrite spanDigits_run_dot by assumption.
  destruct d; [easy | reflexivity].
Qed.

Lemma digits1_run (d : jsstring) : isRun d -> digits1 d = Some [].
Proof.
  intros [Hne Hd]; unfold digits1; rewrite spanDigits_run by assumption.
  destruct d; [easy | reflexivity].
Qed.

Lemma isVersionTag_runs (d1 d2 d3 d4 : jsstring) :
  isRun d1 -> isRun d2 -> isRun d3 -> isRun d4 ->
  isVersionTag (d1 ++ DOT :: d2 ++ DOT :: d3 ++ DOT :: d4) = true.
Proof.
  intros R1 R2 R3 R4; unfold isVersionTag, andThen.
  rewrite (digits1_run_dot _ R1); cbn [dot]; rewrite N.eqb_refl.
  rewrite (digits1_run_dot _ R2); cbn [dot]; rewrite N.eqb_refl.
  rewrite (digits1_run_dot _ R3); cbn [dot]; rewrite N.eqb_refl.
  now rewrite (digits1_run R4).
Qed.

(** The pattern of [getAllTags] accepts exactly the strings made of four
    runs of ASCII digits, one digit at least each, with a dot between
    them: no sign, no space, no fifth segment. *)
Theorem version_tag_pattern (s : jsstring) :
  isVersionTag s = true <->
  exists d1 d2 d3 d4,
    s = d1 ++ lit "." ++ d2 ++ lit "." ++ d3 ++ lit "." ++ d4
    /\ isRun d1 /\ isRun d2 /\ isRun d3 /\ isRun d4.
Proof.
  split.
  - intros H; destruct (tag_shape s H) as (d1 & d2 & d3 & d4 & E & R).
    now exists d1, d2, d3, d4.
  - intros (d1 & d2 & d3 & d4 & -> & R1 & R2 & R3 & R4).
    now apply isVersionTag_runs.
Qed.

Lemma digitsValue_inj_digitsOf (n m : N) : digitsOf n = digitsOf m -> n = m.
Proof.
  intros H; apply (f_equal digitsValue) in H.
  rewrite !digitsOf_value in H; lia.
Qed.

(** The version file and the tags share one format.  For a version of
    four natural numbers of at most [2 ^ 53], what [writeVersionIntoFile]
    and [writeVersion] write is a version tag for the pattern of
    [getAllTags], its components are the four numbers, and two such
    versions that differ are written differently. *)
Theorem written_version_is_version_tag (w : World) (x y z r : N) :
  (Z.of_N x <= 2 ^ 53)%Z -> (Z.of_N y <= 2 ^ 53)%Z ->
  (Z.of_N z <= 2 ^ 53)%Z -> (Z.of_N r <= 2 ^ 53)%Z ->
  let written := versionString (versionOf x y z r) in
  Release.writeVersionIntoFile (versionOf x y z r) w
  = (Ok tt, setVersionFile written w)
  /\ Part000.writeVersion (versionOf x y z r) w
     = (Ok tt, setVersionFile written w)
  /\ isVersionTag written = true
  /\ components written = [Z.of_N x; Z.of_N y; Z.of_N z; Z.of_N r]
  /\ (forall x' y' z' r',
        (Z.of_N x' <= 2 ^ 53)%Z -> (Z.of_N y' <= 2 ^ 53)%Z ->
        (Z.of_N z' <= 2 ^ 53)%Z -> (Z.of_N r' <= 2 ^ 53)%Z ->
        versionString (versionOf x' y' z' r') = written ->
        x = x' /\ y = y' /\ z = z' /\ r = r').
Proof.
  intros Hx Hy Hz Hr written.
  assert (forall a b c d,
            components (canonical a b c d)
            = [Z.of_N a; Z.of_N b; Z.of_N c; Z.of_N d]) as Hc.
  { intros a b c d; unfold components; rewrite split_canonical.
    simpl; now rewrite !digitsOf_value. }
  assert (written = canonical x y z r) as E
    by now apply versionString_versionOf.
  split; [reflexivity|split; [reflexivity|]].
  rewrite E; split; [|split; [apply Hc|]].
  - apply (isVersionTag_runs (digitsOf_run x) (digitsOf_run y)
             (digitsOf_run z) (digitsOf_run r)).
  - intros x' y' z' r' Hx' Hy' Hz' Hr' H.
    rewrite versionString_versionOf in H by assumption.
    apply (f_equal components) in H; rewrite !Hc in H.
    injection H; lia.
Qed.

Lemma written_version_is_version_tag_witness :
  let w := repo None [] in
  Release.writeVersionIntoFile (versionOf 4 1 2 10) w
  = (Ok tt, setVersionFile (lit "4.1.2.10") w)
  /\ isVersionTag (lit "4.1.2.10") = true
  /\ components (lit "4.1.2.10") = [4; 1; 2; 10]%Z.
Proof.
  intros w.
  assert (Z.of_N 4 <= 2 ^ 53)%Z as Hx by (vm_compute; discriminate).
  assert (Z.of_N 1 <= 2 ^ 53)%Z as Hy by (vm_compute; discriminate).
  assert (Z.of_N 2 <= 2 ^ 53)%Z as Hz by (vm_compute; discriminate).
  assert (Z.of_N 10 <= 2 ^ 53)%Z as Hr by (vm_compute; discriminate).
  assert (versionString (versionOf 4 1 2 10) = lit "4.1.2.10") as E
    by (vm_compute; reflexivity).
  destruct (@written_version_is_version_tag w 4 1 2 10 Hx Hy Hz Hr)
    as (H1 & _ & H3 & H4 & _).
  rewrite E in H1, H3, H4.
  exact (conj H1 (conj H3 H4)).
Defined.

(** Beyond [2 ^ 53] none of this holds: two versions are written alike,
    and a large one is written in a form that is no version tag. *)
Lemma written_version_beyond_the_bound :
  versionString (versionOf 4 1 2 (2 ^ 53 + 1))
  = versionString (versionOf 4 1 2 (2 ^ 53))
  /\ versionString (versionOf 4 1 2 (10 ^ 21)) = lit "4.1.2.1e+21"
  /\ isVersionTag (lit "4.1.2.1e+21") = false.
Proof. repeat split; vm_compute; reflexivity. Qed.

Lemma productionTag_runs (d1 d2 d3 d4 : jsstring) :
  isRun d1 -> isRun d2 -> isRun d3 -> isRun d4 ->
  productionTag (d1 ++ DOT :: d2 ++ DOT :: d3 ++ DOT :: d4)
  = d1 ++ DOT :: d2 ++ DOT :: d3 ++ lit ".PRODUCTION".
Proof.
  intros [_ H1] [_ H2] [_ H3] [_ H4]; unfold productionTag.
  rewrite !split_app_sep, split_no_sep by now apply run_no_dot.
  cbn [firstn join]; change (lit ".") with [DOT].
  now rewrite <- !app_assoc.
Qed.

(** The release marker of a version tag [X.Y.Z.R] is [X.Y.Z.PRODUCTION]:
    it does not depend on R, so every revision of a release moves the same
    marker.  No marker matches the pattern of the version tags, so
    [getAllTags] never lists one and the PROD release never offers one. *)
Theorem production_marker
    (w : World) (tag : jsstring) :
  versionTag tag ->
  (exists d1 d2 d3 d4,
     tag = d1 ++ lit "." ++ d2 ++ lit "." ++ d3 ++ lit "." ++ d4
     /\ productionTag tag = d1 ++ lit "." ++ d2 ++ lit "." ++ d3
                            ++ lit ".PRODUCTION"
     /\ (forall d4', isRun d4' ->
           productionTag (d1 ++ lit "." ++ d2 ++ lit "." ++ d3 ++ lit "."
                          ++ d4')
           = productionTag tag))
  /\ isVersionTag (productionTag tag) = false
  /\ isVersionTag PRODUCTION_LATEST = false
  /\ isVersionTag UAT_LATEST = false
  /\ (forall l, fst (Release.getAllTags w) = Ok l
                \/ fst (Part000.getAllTags w) = Ok l ->
        ~ In (productionTag tag) l /\ ~ In PRODUCTION_LATEST l
        /\ ~ In UAT_LATEST l).
Proof.
  intros Ht.
  destruct (tag_shape tag Ht) as (d1 & d2 & d3 & d4 & -> & R1 & R2 & R3 & R4).
  assert (isVersionTag
            (productionTag (d1 ++ DOT :: d2 ++ DOT :: d3 ++ DOT :: d4))
          = false) as Hp.
  { rewrite productionTag_runs by assumption.
    unfold isVersionTag, andThen.
    rewrite (digits1_run_dot _ R1); cbn [dot]; rewrite N.eqb_refl.
    rewrite (digits1_run_dot _ R2); cbn [dot]; rewrite N.eqb_refl.
    change (lit ".PRODUCTION") with (DOT :: lit "PRODUCTION").
    rewrite (digits1_run_dot _ R3); cbn [dot]; rewrite N.eqb_refl.
    reflexivity. }
  repeat split; try assumption.
  - exists d1, d2, d3, d4; repeat split.
    + now apply productionTag_runs.
    + intros d4' R4'; change (lit ".") with [DOT]; simpl app.
      now rewrite !productionTag_runs.
  - destruct H as [H|H].
    + unfold Release.getAllTags, bind, git_tags, gets, ret in H.
      injection H as <-; intros Hin.
      apply (Permutation_in _ (Permutation_sym (sort_perm _ _))) in Hin.
      apply filter_In in Hin as [_ Hin]; congruence.
    + unfold Part000.getAllTags, bind, git_tags, gets, ret in H.
      injection H as <-; intros Hin.
      apply filter_In in Hin as [_ Hin]; congruence.
  - destruct H as [H|H].
    + unfold Release.getAllTags, bind, git_tags, gets, ret in H.
      injection H as <-; intros Hin.
      apply (Permutation_in _ (Permutation_sym (sort_perm _ _))) in Hin.
      apply filter_In in Hin as [_ Hin]; discriminate.
    + unfold Part000.getAllTags, bind, git_tags, gets, ret in H.
      injection H as <-; intros Hin.
      apply filter_In in Hin as [_ Hin]; discriminate.
  - destruct H as [H|H].
    + unfold Release.getAllTags, bind, git_tags, gets, ret in H.
      injection H as <-; intros Hin.
      apply (Permutation_in _ (Permutation_sym (sort_perm _ _))) in Hin.
      apply filter_In in Hin as [_ Hin]; discriminate.
    + unfold Part000.getAllTags, bind, git_tags, gets, ret in H.
      injection H as <-; intros Hin.
      apply filter_In in Hin as [_ Hin]; discriminate.
Qed.

Lemma production_marker_witness :
  isVersionTag (productionTag (lit "4.1.2.10")) = false
  /\ productionTag (lit "4.1.2.10") = lit "4.1.2.PRODUCTION".
Proof.
  destruct (@production_marker (repo None []) (lit "4.1.2.10") eq_refl)
    as (_ & H & _).
  split; [exact H | reflexivity].
Defined.

(** ** The PROD release *)

Lemma sort_sorted_id {A} (cmp : A -> A -> comparison) (l : list A) :
  StronglySorted (before cmp) l -> sort cmp l = l.
Proof.
  induction l as [|x l IH]; intros Hs; [reflexivity|].
  apply StronglySorted_inv in Hs as [Hs Hall].
  simpl; rewrite (IH Hs).
  destruct l as [|y l]; [reflexivity|].
  apply Forall_inv in Hall; unfold before in Hall.
  simpl; destruct (cmp x y); easy.
Qed.

(** The PROD release of the later script sorts the list that [getAllTags]
    has sorted already: the second sort changes nothing, and the tags are
    offered in the order [getAllTags] answered. *)
Theorem prod_release_sorts_twice (w : World) :
  exists listed,
    Release.getAllTags w = (Ok listed, w)
    /\ sort descending listed = listed.
Proof.
  exists (sort descending (filter isVersionTag (names (tags w)))).
  split; [reflexivity|].
  apply sort_sorted_id.
  exact (@sort_sorted _ descending versionTag descending_total
           descending_trans _ (filter_versionTag (names (tags w)))).
Qed.

Lemma keeps_addTag {A} (f : World -> A) (name : jsstring)
    (rest : list jsstring) :
  (forall t w, f (setTags t w) = f w) -> keeps f (git_addTag name rest).
Proof.
  intros Ht w; unfold git_addTag.
  destruct (includes (names (tags w)) name); [reflexivity | apply Ht].
Qed.

Lemma keeps_pushTags {A} (f : World -> A) :
  (forall t w, f (setOriginTags t w) = f w) -> keeps f git_pushTags.
Proof.
  intros Ho w; unfold git_pushTags.
  destruct (originUp w); [|reflexivity].
  destruct (clashes (tags w) (originTags w)); apply Ho.
Qed.

(** Whatever its outcome, the PROD release of either script leaves the
    version file, the changelog and [HEAD] as they were: it moves tags and
    nothing else. *)
Theorem prod_release_keeps_version (w : World) (pickTag : nat) :
  let r := prodRelease Release.getAllTags pickTag w in
  let p := prodRelease Part000.getAllTags pickTag w in
  (versionFile (snd r) = versionFile w
   /\ changelogFile (snd r) = changelogFile w /\ HEAD (snd r) = HEAD w)
  /\ (versionFile (snd p) = versionFile w
      /\ changelogFile (snd p) = changelogFile w /\ HEAD (snd p) = HEAD w).
Proof.
  assert (forall A (f : World -> A) g,
            (forall t w, f (setTags t w) = f w) ->
            (forall t w, f (setOriginTags t w) = f w) ->
            (forall o w, f (print o w) = f w) ->
            (g = Release.getAllTags \/ g = Part000.getAllTags) ->
            keeps f (prodRelease g pickTag)) as Hk.
  { intros A f g Ht Ho Hp Hg; unfold prodRelease.
    apply keeps_bind; [|intro].
    { destruct Hg as [-> | ->];
        (apply keeps_bind; [apply keeps_gets | intro; apply keeps_ret]). }
    cbv zeta.
    apply keeps_bind; [apply keeps_prompt | intro].
    apply keeps_bind; [now apply deleteRemoteTag_keeps_files | intro].
    apply keeps_bind; [now apply keeps_addTag | intro].
    apply keeps_bind; [now apply keeps_pushTags | intro].
    apply keeps_bind; [now apply deleteRemoteTag_keeps_files | intro].
    apply keeps_bind; [now apply keeps_addTag | intro].
    apply keeps_bind; [now apply keeps_pushTags | intro].
    unfold console_log; apply keeps_print; intro; apply Hp. }
  repeat split; apply Hk; auto.
Qed.

(** ** The changelog query of the later script *)

(** What [getChangelogSince] of [src/release.ts] answers, when it
    answers.  Every line qualifies and is a line of the log since the tag;
    lines are answered only for a name that is a tag; for a name that is
    no tag the answer is the empty list and the last line printed is the
    warning.  Nothing but the console has changed. *)
Theorem release_changelog_answers
    (w w' : World) (fromTag : jsstring) (lines : list jsstring) :
  Release.getChangelogSince fromTag w = (Ok lines, w') ->
  Forall (fun l => qualifies l = true) lines
  /\ (lines <> [] ->
      exists c, lookup fromTag (tags w) = Some c
                /\ forall l, In l lines -> In l (split LF (logSince w c)))
  /\ (lookup fromTag (tags w) = None ->
      lines = []
      /\ exists shown,
           console w'
           = console w
             ++ [shown;
                 Warn (lit "Tag '" ++ fromTag
                       ++ lit "' does not exist. Skipping changelog.")])
  /\ versionFile w' = versionFile w /\ changelogFile w' = changelogFile w
  /\ tags w' = tags w /\ originTags w' = originTags w /\ HEAD w' = HEAD w.
Proof.
  rewrite release_getChangelogSince.
  destruct (lookup fromTag (tags w)) as [c|] eqn:E; cbv zeta;
    intros H; injection H as <- <-.
  - repeat split; try discriminate.
    + apply Forall_forall; intros l Hl; now apply filter_In in Hl.
    + intros _; exists c; split; [reflexivity|].
      intros l Hl; now apply filter_In in Hl.
  - repeat split; try easy.
    eexists; cbn [console print]; rewrite <- app_assoc; reflexivity.
Qed.

Lemma release_changelog_answers_witness :
  let w := withTags [(lit "4.1.2.3", Existing 1)] (Existing 2)
             (repo (Some (lit "4.1.2.3"))
                (lit "fix typo" ++ [LF] ++ SPARKLES ++ lit " add X")) in
  Forall (fun l => qualifies l = true) [SPARKLES ++ lit " add X"]
  /\ exists c, lookup (lit "4.1.2.3") (tags w) = Some c
               /\ forall l, In l [SPARKLES ++ lit " add X"] ->
                            In l (split LF (logSince w c)).
Proof.
  intros w.
  assert (Release.getChangelogSince (lit "4.1.2.3") w
          = (Ok [SPARKLES ++ lit " add X"],
             snd (Release.getChangelogSince (lit "4.1.2.3") w))) as Hrun
    by (vm_compute; reflexivity).
  destruct (@release_changelog_answers _ _ _ _ Hrun) as (H1 & H2 & _).
  split; [exact H1 | apply H2; discriminate].
Defined.

(** ** The UAT release with changes *)

Lemma commit_eqb_eq (a b : commit) : commit_eqb a b = true -> a = b.
Proof.
  revert b; induction a as [i|p IH m]; intros [j|q n]; simpl; try easy.
  - intros H; apply Nat.eqb_eq in H; now subst.
  - intros H; apply andb_prop in H as [Hp Hm].
    apply IH in Hp; apply eqb_eq in Hm; now subst.
Qed.

Lemma lookup_In (name : jsstring) (l : refs) (c : commit) :
  lookup name l = Some c -> In (name, c) l.
Proof.
  induction l as [|[n c'] l IH]; simpl; [discriminate|].
  destruct (eqb n name) eqn:E.
  - intros H; injection H as ->; apply eqb_eq in E; subst; now left.
  - intros H; right; auto.
Qed.

Lemma lookup_filter_name (f : jsstring -> bool) (name : jsstring) (l : refs) :
  f name = true ->
  lookup name (filter (fun p => f (fst p)) l) = lookup name l.
Proof.
  intros Hf; induction l as [|[n c] l IH]; simpl; [reflexivity|].
  destruct (eqb n name) eqn:E.
  - apply eqb_eq in E; subst n; rewrite Hf; simpl; now rewrite eqb_refl.
  - destruct (f n); simpl; [now rewrite E | assumption].
Qed.

Lemma lookup_single (name other : jsstring) (c : commit) :
  other <> name -> lookup other [(name, c)] = None.
Proof.
  intros Hne; cbn [lookup].
  destruct (eqb name other) eqn:E; [|reflexivity].
  apply eqb_eq in E; congruence.
Qed.

(** A push that met no clash leaves every local tag on the remote, on
    the commit it has locally. *)
Lemma pushed_lookup (local remote : refs) (name : jsstring) (c : commit) :
  clashes local remote = false -> lookup name local = Some c ->
  lookup name (pushed local remote) = Some c.
Proof.
  intros Hc Hl; unfold pushed; rewrite lookup_app.
  destruct (lookup name remote) as [c0|] eqn:Er.
  - unfold clashes in Hc.
    assert (forall p, In p local ->
              match lookup (fst p) remote with
              | Some c1 => negb (commit_eqb c1 (snd p))
              | None => false
              end = false) as Hall.
    { intros p Hp; destruct (match lookup (fst p) remote with
                             | Some c1 => negb (commit_eqb c1 (snd p))
                             | None => false
                             end) eqn:E; [|reflexivity].
      assert (existsb (fun p => match lookup (fst p) remote with
                                | Some c1 => negb (commit_eqb c1 (snd p))
                                | None => false
                                end) local = true)
        by (apply existsb_exists; eauto).
      congruence. }
    specialize (Hall _ (lookup_In _ _ Hl)); simpl in Hall.
    rewrite Er in Hall; apply negb_false_iff, commit_eqb_eq in Hall.
    now subst.
  - rewrite (lookup_filter_name
               (fun n => negb (includes (names remote) n))); [assumption|].
    destruct (includes (names remote) name) eqn:E; [|reflexivity].
    apply includes_lookup in E as [c1 E]; congruence.
Qed.

(** What the UAT release of [src/release.ts] has done when the log holds a
    qualifying subject and it reaches the creation of the tag: the version
    file and the changelog are written, and no tag has changed. *)
Lemma release_uat_before_tag
    (w : World) (current : Version.t)
    (latestTagVersion latestVersion : option jsstring)
    (currentVersionStr newTag : jsstring) (c : commit) :
  let fromTag :=
    orElse latestTagVersion (orElse latestVersion currentVersionStr) in
  let logs := filter qualifies (split LF (logSince w c)) in
  lookup fromTag (tags w) = Some c -> logs <> [] ->
  exists w5,
    Release.uatRelease current latestTagVersion latestVersion
      currentVersionStr newTag w
    = (git_addTag newTag [] ;;
       deleteRemoteTag UAT_LATEST ;;
       git_addTag UAT_LATEST [] ;;
       git_pushTags ;;
       console_log (CHECK_MARK ++ lit " UAT released: " ++ newTag)) w5
    /\ versionFile w5 = Some (versionString (bumpR current))
    /\ changelogFile w5
       = Some (changelogEntry newTag (today w) logs
               ++ match changelogFile w with Some s => s | None => [] end)
    /\ tags w5 = tags w /\ originTags w5 = originTags w
    /\ originUp w5 = originUp w.
Proof.
  intros fromTag logs Hc Hne.
  unfold Release.uatRelease, Release.writeVersionIntoFile, writeVersionFile.
  unfold bind at 1; cbn [modify].
  unfold bind at 1; rewrite release_getChangelogSince.
  fold fromTag; cbn [tags setVersionFile logSince]; rewrite Hc.
  fold logs; destruct logs as [|l0 ls] eqn:El; [easy|].
  cbv beta iota zeta.
  unfold bind at 1; unfold console_log at 1; cbn [modify].
  unfold bind at 1; unfold console_log at 1; cbn [modify].
  unfold bind at 1.
  eexists; split; [reflexivity|].
  repeat split.
Qed.

(** The tags and the log line at the end of the UAT release leave
    alone what the tags do not hold. *)
Lemma uat_tail_keeps {A} (f : World -> A) (newTag said : jsstring) :
  (forall t w, f (setTags t w) = f w) ->
  (forall t w, f (setOriginTags t w) = f w) ->
  (forall o w, f (print o w) = f w) ->
  keeps f (git_addTag newTag [] ;;
           deleteRemoteTag UAT_LATEST ;;
           git_addTag UAT_LATEST [] ;;
           git_pushTags ;;
           console_log said).
Proof.
  intros Ht Ho Hp.
  apply keeps_bind; [now apply keeps_addTag | intro].
  apply keeps_bind; [now apply deleteRemoteTag_keeps_files | intro].
  apply keeps_bind; [now apply keeps_addTag | intro].
  apply keeps_bind; [now apply keeps_pushTags | intro].
  unfold console_log; apply keeps_print; intro; apply Hp.
Qed.

(** The UAT release of [src/release.ts] does not undo what it wrote.
    Once the changelog query has found a qualifying subject in the log
    since the tag, the run ends, whether the tagging and the push that
    follow succeed or fail, with the version file rewritten and the new
    entry at the head of the changelog.  When the tag to create exists
    already, it ends with the error of git on that tag, and no tag has
    changed, locally or on the remote.  Nothing is said of the commit of
    the changelog, which the script does not wait for. *)
Theorem release_uat_no_rollback
    (w : World) (current : Version.t)
    (latestTagVersion latestVersion : option jsstring)
    (currentVersionStr newTag : jsstring) (c : commit) :
  let fromTag :=
    orElse latestTagVersion (orElse latestVersion currentVersionStr) in
  let logs := filter qualifies (split LF (logSince w c)) in
  lookup fromTag (tags w) = Some c -> logs <> [] ->
  let r := Release.uatRelease current latestTagVersion latestVersion
             currentVersionStr newTag w in
  versionFile (snd r) = Some (versionString (bumpR current))
  /\ changelogFile (snd r)
     = Some (changelogEntry newTag (today w) logs
             ++ match changelogFile w with Some s => s | None => [] end)
  /\ (In newTag (names (tags w)) ->
      fst r = Throw (GitError [lit "tag"; newTag])
      /\ tags (snd r) = tags w /\ originTags (snd r) = originTags w).
Proof.
  intros fromTag logs Hc Hne r.
  destruct (@release_uat_before_tag w current latestTagVersion latestVersion
              currentVersionStr newTag c Hc Hne)
    as (w5 & Hr & Hv & Hl & Ht & Ho & _).
  unfold r; rewrite Hr; clear Hr r.
  split; [|split].
  - rewrite (@uat_tail_keeps _ versionFile newTag _
               (fun _ _ => eq_refl) (fun _ _ => eq_refl)
               (fun _ _ => eq_refl) w5).
    exact Hv.
  - rewrite (@uat_tail_keeps _ changelogFile newTag _
               (fun _ _ => eq_refl) (fun _ _ => eq_refl)
               (fun _ _ => eq_refl) w5).
    exact Hl.
  - intros Hin.
    assert ((git_addTag newTag [] ;;
             deleteRemoteTag UAT_LATEST ;;
             git_addTag UAT_LATEST [] ;;
             git_pushTags ;;
             console_log (CHECK_MARK ++ lit " UAT released: " ++ newTag)) w5
            = (Throw (GitError [lit "tag"; newTag]), w5)) as Hstop.
    { unfold bind at 1; unfold git_addTag at 1.
      rewrite Ht; apply includes_In in Hin; now rewrite Hin. }
    rewrite Hstop; cbn [fst snd].
    repeat split; assumption.
Qed.

Lemma release_uat_no_rollback_witness :
  let w := withTags [(lit "4.1.2.3", Existing 1); (lit "4.1.2.4", Existing 1)]
             (Existing 2)
             (repo (Some (lit "4.1.2.3")) (SPARKLES ++ lit " add X")) in
  let r := Release.uatRelease (versionOf 4 1 2 3) (Some (lit "4.1.2.3")) None
             (lit "4.1.2.3") (lit "4.1.2.4") w in
  versionFile (snd r) = Some (lit "4.1.2.4")
  /\ changelogFile (snd r)
     = Some (lit "## 4.1.2.4 (2025-01-31)" ++ [LF] ++ lit "- " ++ SPARKLES
             ++ lit " add X" ++ [LF; LF])
  /\ fst r = Throw (GitError [lit "tag"; lit "4.1.2.4"])
  /\ tags (snd r) = tags w /\ originTags (snd r) = originTags w.
Proof.
  intros w r.
  assert (filter qualifies (split LF (logSince w (Existing 1))) <> [])
    as Hne by (vm_compute; discriminate).
  assert (In (lit "4.1.2.4") (names (tags w))) as Hin
    by (vm_compute; tauto).
  destruct (@release_uat_no_rollback w (versionOf 4 1 2 3)
              (Some (lit "4.1.2.3")) None (lit "4.1.2.3") (lit "4.1.2.4")
              (Existing 1) eq_refl Hne)
    as (H1 & H2 & H3).
  exact (conj H1 (conj H2 (H3 Hin))).
Defined.

(** From the creation of the tag on: when the rest of the UAT release
    raises no error, the new tag and the UAT-LATEST marker are on [HEAD],
    locally and on the remote, the new tag was free before, and the other
    tags, the files and [HEAD] are untouched. *)
Lemma uat_tail (w5 : World) (newTag said : jsstring) :
  newTag <> UAT_LATEST ->
  let r := (git_addTag newTag [] ;;
            deleteRemoteTag UAT_LATEST ;;
            git_addTag UAT_LATEST [] ;;
            git_pushTags ;;
            console_log said) w5 in
  fst r = Ok tt ->
  HEAD (snd r) = HEAD w5
  /\ lookup newTag (tags (snd r)) = Some (HEAD w5)
  /\ lookup UAT_LATEST (tags (snd r)) = Some (HEAD w5)
  /\ lookup newTag (originTags (snd r)) = Some (HEAD w5)
  /\ lookup UAT_LATEST (originTags (snd r)) = Some (HEAD w5)
  /\ lookup newTag (tags w5) = None
  /\ changelogFile (snd r) = changelogFile w5
  /\ versionFile (snd r) = versionFile w5
  /\ (forall other, other <> newTag -> other <> UAT_LATEST ->
        lookup other (tags (snd r)) = lookup other (tags w5)).
Proof.
  intros Hnew r Hok.
  destruct (includes (names (tags w5)) newTag) eqn:Einc.
  { unfold r in Hok; unfold bind at 1 in Hok; unfold git_addTag at 1 in Hok.
    rewrite Einc in Hok; discriminate. }
  set (w6 := setTags (tags w5 ++ [(newTag, HEAD w5)]) w5).
  assert (r = (deleteRemoteTag UAT_LATEST ;;
               git_addTag UAT_LATEST [] ;;
               git_pushTags ;;
               console_log said) w6) as E1.
  { unfold r; unfold bind at 1; unfold git_addTag at 1; now rewrite Einc. }
  pose proof (deleteRemoteTag_ok UAT_LATEST w6) as D1.
  pose proof (deleteRemoteTag_tags UAT_LATEST w6) as D2.
  pose proof (deleteRemoteTag_HEAD UAT_LATEST w6) as D3.
  pose proof (@deleteRemoteTag_keeps_files _ versionFile UAT_LATEST
                (fun _ _ => eq_refl) (fun _ _ => eq_refl) w6) as D4.
  pose proof (@deleteRemoteTag_keeps_files _ changelogFile UAT_LATEST
                (fun _ _ => eq_refl) (fun _ _ => eq_refl) w6) as D5.
  destruct (deleteRemoteTag UAT_LATEST w6) as [[[]|e] w7] eqn:E7;
    cbn [fst snd] in D1, D2, D3, D4, D5; [|discriminate D1].
  assert (r = (git_addTag UAT_LATEST [] ;;
               git_pushTags ;;
               console_log said) w7) as E2.
  { rewrite E1; unfold bind at 1; now rewrite E7. }
  assert (includes (names (tags w7)) UAT_LATEST = false) as Einc7.
  { destruct (includes (names (tags w7)) UAT_LATEST) eqn:E; [|reflexivity].
    apply includes_lookup in E as [c7 E].
    now rewrite D2, remove_lookup in E. }
  set (w8 := setTags (tags w7 ++ [(UAT_LATEST, HEAD w7)]) w7).
  assert (r = (git_pushTags ;; console_log said) w8) as E3.
  { rewrite E2; unfold bind at 1; unfold git_addTag at 1; now rewrite Einc7. }
  assert (lookup newTag (tags w8) = Some (HEAD w5)) as Hnew8.
  { unfold w8; cbn [tags setTags]; rewrite lookup_app, D2.
    rewrite (remove_lookup_other _ Hnew).
    unfold w6; cbn [tags setTags]; rewrite lookup_app.
    rewrite (lookup_includes _ _ Einc); simpl.
    now rewrite eqb_refl. }
  assert (lookup UAT_LATEST (tags w8) = Some (HEAD w5)) as Huat8.
  { unfold w8; cbn [tags setTags]; rewrite lookup_app, D2, remove_lookup; simpl.
    rewrite D3; reflexivity. }
  destruct (originUp w8) eqn:Eup.
  2: { rewrite E3 in Hok; unfold bind, git_pushTags in Hok.
       rewrite Eup in Hok; discriminate. }
  destruct (clashes (tags w8) (originTags w8)) eqn:Ecl.
  { rewrite E3 in Hok; unfold bind, git_pushTags in Hok.
    rewrite Eup, Ecl in Hok; discriminate. }
  assert (r = (Ok tt,
               print (Log said)
                 (setOriginTags (pushed (tags w8) (originTags w8)) w8)))
    as E4.
  { rewrite E3; unfold bind, git_pushTags, console_log, modify.
    now rewrite Eup, Ecl. }
  rewrite E4; cbn [fst snd].
  cbn [HEAD tags originTags changelogFile versionFile print setOriginTags].
  repeat split.
  - unfold w8; cbn [HEAD setTags]; rewrite D3; reflexivity.
  - exact Hnew8.
  - exact Huat8.
  - now apply pushed_lookup.
  - now apply pushed_lookup.
  - now apply lookup_includes.
  - unfold w8; cbn [changelogFile setTags]; rewrite D5; reflexivity.
  - unfold w8; cbn [versionFile setTags]; rewrite D4; reflexivity.
  - intros other Hn1 Hn2; unfold w8; cbn [tags setTags].
    rewrite lookup_app, D2, (remove_lookup_other _ Hn2).
    unfold w6; cbn [tags setTags]; rewrite lookup_app.
    rewrite !lookup_single by assumption.
    destruct (lookup other (tags w5)); reflexivity.
Qed.

(** When the UAT release of [src/release.ts] ends without an error on a
    log that holds a qualifying subject: the new tag, which did not exist
    before, and the UAT-LATEST marker are tags of the repository and of
    the remote, each on the same commit here and there; every other local
    tag is where it was; the changelog starts with the new entry and the
    version file holds the incremented version.  Which commit the two
    tags are on is not stated: the script does not wait for its commit. *)
Theorem release_uat_with_changes
    (w : World) (current : Version.t)
    (latestTagVersion latestVersion : option jsstring)
    (currentVersionStr newTag : jsstring) (c : commit) :
  let fromTag :=
    orElse latestTagVersion (orElse latestVersion currentVersionStr) in
  let logs := filter qualifies (split LF (logSince w c)) in
  lookup fromTag (tags w) = Some c -> logs <> [] ->
  newTag <> UAT_LATEST ->
  let r := Release.uatRelease current latestTagVersion latestVersion
             currentVersionStr newTag w in
  fst r = Ok tt ->
  lookup newTag (tags w) = None
  /\ (exists c1, lookup newTag (tags (snd r)) = Some c1
                 /\ lookup newTag (originTags (snd r)) = Some c1)
  /\ (exists c2, lookup UAT_LATEST (tags (snd r)) = Some c2
                 /\ lookup UAT_LATEST (originTags (snd r)) = Some c2)
  /\ (forall other, other <> newTag -> other <> UAT_LATEST ->
        lookup other (tags (snd r)) = lookup other (tags w))
  /\ changelogFile (snd r)
     = Some (changelogEntry newTag (today w) logs
             ++ match changelogFile w with Some s => s | None => [] end)
  /\ versionFile (snd r) = Some (versionString (bumpR current)).
Proof.
  intros fromTag logs Hc Hne Hnew r Hok.
  destruct (@release_uat_before_tag w current latestTagVersion latestVersion
              currentVersionStr newTag c Hc Hne)
    as (w5 & Hr & Hv & Hl & Ht & Ho & Hup).
  unfold r in *; clear r; rewrite Hr in Hok |- *; clear Hr.
  destruct (@uat_tail w5 newTag
              (CHECK_MARK ++ lit " UAT released: " ++ newTag) Hnew Hok)
    as (_ & T2 & T3 & T4 & T5 & T6 & T7 & T8 & T9).
  rewrite Ht in T6.
  split; [exact T6|].
  split; [eexists; split; [exact T2 | exact T4]|].
  split; [eexists; split; [exact T3 | exact T5]|].
  split; [intros other H1 H2; now rewrite T9, Ht|].
  split; [now rewrite T7 | now rewrite T8].
Qed.

Lemma release_uat_with_changes_witness :
  let w := withTags [(lit "4.1.2.3", Existing 1)] (Existing 2)
             (repo (Some (lit "4.1.2.3")) (SPARKLES ++ lit " add X")) in
  let r := Release.uatRelease (versionOf 4 1 2 3) (Some (lit "4.1.2.3")) None
             (lit "4.1.2.3") (lit "4.1.2.4") w in
  lookup (lit "4.1.2.4") (tags w) = None
  /\ (exists c1, lookup (lit "4.1.2.4") (tags (snd r)) = Some c1
                 /\ lookup (lit "4.1.2.4") (originTags (snd r)) = Some c1)
  /\ (exists c2, lookup UAT_LATEST (tags (snd r)) = Some c2
                 /\ lookup UAT_LATEST (originTags (snd r)) = Some c2)
  /\ lookup (lit "4.1.2.3") (tags (snd r)) = Some (Existing 1)
  /\ changelogFile (snd r)
     = Some (lit "## 4.1.2.4 (2025-01-31)" ++ [LF] ++ lit "- " ++ SPARKLES
             ++ lit " add X" ++ [LF; LF])
  /\ versionFile (snd r) = Some (lit "4.1.2.4").
Proof.
  intros w r.
  assert (filter qualifies (split LF (logSince w (Existing 1))) <> [])
    as Hne by (vm_compute; discriminate).
  assert (lit "4.1.2.4" <> UAT_LATEST) as Hnew by discriminate.
  assert (fst (Release.uatRelease (versionOf 4 1 2 3) (Some (lit "4.1.2.3"))
                 None (lit "4.1.2.3") (lit "4.1.2.4") w) = Ok tt) as Hok
    by (vm_compute; reflexivity).
  destruct (@release_uat_with_changes w (versionOf 4 1 2 3)
              (Some (lit "4.1.2.3")) None (lit "4.1.2.3") (lit "4.1.2.4")
              (Existing 1) eq_refl Hne Hnew Hok)
    as (H1 & H2 & H3 & H4 & H5 & H6).
  refine (conj H1 (conj H2 (conj H3 (conj _ (conj H5 H6))))).
  apply (H4 (lit "4.1.2.3")); discriminate.
Defined.

(** ** A repository without a version tag *)

Lemma filter_none {A} (f : A -> bool) (l : list A) :
  (forall a, In a l -> f a = false) -> filter f l = [].
Proof.
  induction l as [|a l IH]; intros H; simpl; [reflexivity|].
  rewrite (H a) by now left.
  apply IH; intros b Hb; apply H; now right.
Qed.

Lemma canonical_versionTag (x y z r : N) :
  isVersionTag (canonical x y z r) = true.
Proof.
  apply (isVersionTag_runs (digitsOf_run x) (digitsOf_run y)
           (digitsOf_run z) (digitsOf_run r)).
Qed.

(** In a repository that holds no version tag, not even after the fetch,
    the UAT release of [src/release.ts] does not release.  The version
    file is [X.Y.Z.R] with X, Y and Z natural numbers of at most [2 ^ 53]
    and R one below [2 ^ 53], git reports no untracked, renamed or modified
    file, the remote can be reached and none of its tags is held locally
    on another commit.  The range of the changelog then starts at the
    version of the file, which is no tag, so the query answers no subject:
    the run rewrites the version file with R incremented, warns that the
    tag does not exist, and stops at "No changes to release".  No tag is
    created, whatever the log holds. *)
Theorem release_uat_needs_a_version_tag
    (w : World) (x y z r : N) (st : StatusResult) (pickTag : nat) :
  versionFile w = Some (canonical x y z r) ->
  (Z.of_N x <= 2 ^ 53)%Z -> (Z.of_N y <= 2 ^ 53)%Z -> (Z.of_N z <= 2 ^ 53)%Z ->
  (Z.of_N r < 2 ^ 53)%Z ->
  status w = Some st -> counted st = 0%Z -> originUp w = true ->
  clashes (originTags w) (tags w) = false ->
  let w1 := setTags (fetched (tags w) (originTags w)) w in
  (forall t, In t (names (tags w1)) -> isVersionTag t = false) ->
  Release.main 0 pickTag w
  = (Ok tt,
     print (Log (lit "No changes to release, exiting."))
       (print (Log (lit "Preparing UAT release: " ++ canonical x y z (r + 1)))
          (print (Warn (lit "Tag '" ++ canonical x y z r
                        ++ lit "' does not exist. Skipping changelog."))
             (print (LogTags false (canonical x y z r) [])
                (setVersionFile (canonical x y z (r + 1)) w1))))).
Proof.
  intros Hv Hx Hy Hz Hr Hs Hc Hup Hcl w1 Hnone.
  rewrite (release_main_clean w 0 pickTag Hs Hc).
  rewrite (release_first_choice_runs_uat w pickTag Hv Hup Hcl).
  fold w1; rewrite parseVersion_canonical.
  rewrite (filter_none _ _ Hnone).
  change (sort descending []) with (@nil jsstring); cbn [filter nth_error].
  destruct (bumpR_canonical x y z r Hx Hy Hz Hr) as [Hb Hn].
  rewrite Hn, versionString_versionOf by lia.
  unfold Release.uatRelease, Release.writeVersionIntoFile, writeVersionFile.
  unfold bind at 1; cbn [modify].
  unfold bind at 1; rewrite release_getChangelogSince.
  cbn [orElse tags setVersionFile].
  rewrite (filter_none _ _ Hnone).
  change (sort descending []) with (@nil jsstring).
  assert (lookup (canonical x y z r) (tags w1) = None) as ->.
  { apply lookup_includes.
    destruct (includes (names (tags w1)) (canonical x y z r)) eqn:E;
      [|reflexivity].
    apply includes_In, Hnone in E.
    now rewrite canonical_versionTag in E. }
  rewrite Hb; reflexivity.
Qed.

Lemma release_uat_needs_a_version_tag_witness :
  let w := withTags [(lit "UAT-LATEST", Existing 1)] (Existing 2)
             (repo (Some (lit "4.1.2.3")) (SPARKLES ++ lit " add X")) in
  let r := Release.main 0 0 w in
  fst r = Ok tt
  /\ versionFile (snd r) = Some (lit "4.1.2.4")
  /\ tags (snd r) = tags w
  /\ changelogFile (snd r) = None
  /\ HEAD (snd r) = HEAD w.
Proof.
  intros w r.
  assert (Z.of_N 4 <= 2 ^ 53)%Z as Hx by (vm_compute; discriminate).
  assert (Z.of_N 1 <= 2 ^ 53)%Z as Hy by (vm_compute; discriminate).
  assert (Z.of_N 2 <= 2 ^ 53)%Z as Hz by (vm_compute; discriminate).
  assert (forall t,
            In t (names (tags (setTags (fetched (tags w) (originTags w)) w))) ->
            isVersionTag t = false) as Hnone.
  { intros t Hin; change (In t [lit "UAT-LATEST"]) in Hin.
    destruct Hin as [<-|[]]; reflexivity. }
  pose proof (@release_uat_needs_a_version_tag w 4 1 2 3 cleanStatus 0
                eq_refl Hx Hy Hz eq_refl eq_refl eq_refl eq_refl eq_refl
                Hnone) as H.
  unfold r; rewrite H; cbn [fst snd].
  repeat split.
Defined.

(** ** Moving the production markers *)

Lemma bind_seq3 {B} (m1 m2 m3 : M unit) (k : M B) (w : World) :
  (m1 ;; m2 ;; m3 ;; k) w
  = match (m1 ;; m2 ;; m3) w with
    | (Ok _, w') => k w'
    | (Throw e, w') => (Throw e, w')
    end.
Proof.
  unfold bind.
  destruct (m1 w) as [[[]|e] w1]; [|reflexivity].
  destruct (m2 w1) as [[[]|e] w2]; [|reflexivity].
  destruct (m3 w2) as [[[]|e] w3]; reflexivity.
Qed.

Lemma deleteRemoteTag_originTags (tag : jsstring) (w : World) :
  originTags (snd (deleteRemoteTag tag w))
  = if originUp w then remove tag (originTags w) else originTags w.
Proof.
  unfold deleteRemoteTag, bind, catch, ret, git_push_delete, git_tag_delete.
  destruct (originUp w); simpl.
  - destruct (includes (names (originTags w)) tag) eqn:E; simpl;
      destruct (includes (names (tags w)) tag); simpl;
      try reflexivity; now rewrite remove_absent.
  - destruct (includes (names (tags w)) tag); reflexivity.
Qed.

(** Moving a marker: the tag is deleted on the remote and locally, created
    again and pushed.  Whether or not the push succeeds, the marker is on
    [HEAD] locally and every other local tag is where it was; when it
    succeeds the remote holds every local tag; without a reachable remote
    it fails and the remote is as it was. *)
Lemma move_marker_pushed
    (w : World) (marker : jsstring) (rest : list jsstring) :
  let r := (deleteRemoteTag marker ;; git_addTag marker rest ;;
            git_pushTags) w in
  lookup marker (tags (snd r)) = Some (HEAD w)
  /\ (forall other, other <> marker ->
        lookup other (tags (snd r)) = lookup other (tags w))
  /\ HEAD (snd r) = HEAD w /\ originUp (snd r) = originUp w
  /\ (fst r = Ok tt ->
      forall name c, lookup name (tags (snd r)) = Some c ->
                     lookup name (originTags (snd r)) = Some c)
  /\ (originUp w = false ->
      fst r = Throw (GitError [lit "push"; lit "--tags"])
      /\ originTags (snd r) = originTags w).
Proof.
  intros r.
  pose proof (deleteRemoteTag_ok marker w) as D1.
  pose proof (deleteRemoteTag_tags marker w) as D2.
  pose proof (deleteRemoteTag_HEAD marker w) as D3.
  pose proof (@deleteRemoteTag_keeps_files _ originUp marker
                (fun _ _ => eq_refl) (fun _ _ => eq_refl) w) as D4.
  pose proof (deleteRemoteTag_originTags marker w) as D5.
  destruct (deleteRemoteTag marker w) as [[[]|e] w1] eqn:E1;
    cbn [fst snd] in D1, D2, D3, D4, D5; [|discriminate D1].
  assert (includes (names (tags w1)) marker = false) as Einc.
  { destruct (includes (names (tags w1)) marker) eqn:E; [|reflexivity].
    apply includes_lookup in E as [c E].
    now rewrite D2, remove_lookup in E. }
  set (w2 := setTags (tags w1 ++ [(marker, HEAD w1)]) w1).
  assert (r = git_pushTags w2) as E2.
  { unfold r; unfold bind at 1; rewrite E1.
    unfold bind, git_addTag; now rewrite Einc. }
  assert (lookup marker (tags w2) = Some (HEAD w)) as Hm.
  { unfold w2; cbn [tags setTags]; rewrite lookup_app, D2, remove_lookup.
    simpl; now rewrite eqb_refl, D3. }
  assert (forall other, other <> marker ->
            lookup other (tags w2) = lookup other (tags w)) as Ho.
  { intros other Hne; unfold w2; cbn [tags setTags].
    rewrite lookup_app, D2, (remove_lookup_other _ Hne).
    destruct (lookup other (tags w)); [reflexivity|].
    simpl; destruct (eqb marker other) eqn:E; [|reflexivity].
    apply eqb_eq in E; congruence. }
  assert (tags (snd r) = tags w2 /\ HEAD (snd r) = HEAD w
          /\ originUp (snd r) = originUp w) as (Ht & Hh & Hu).
  { rewrite E2; unfold git_pushTags.
    destruct (originUp w2) eqn:Eup; [destruct (clashes _ _)|];
      cbn [snd tags HEAD originUp setOriginTags];
      (split; [reflexivity|split; [exact D3 | exact D4]]). }
  rewrite Ht.
  repeat split; try assumption.
  - rewrite E2; unfold git_pushTags.
    destruct (originUp w2) eqn:Eup; [|discriminate].
    destruct (clashes (tags w2) (originTags w2)) eqn:Ecl; [discriminate|].
    intros _ name c Hl; cbn [snd originTags setOriginTags].
    now apply pushed_lookup.
  - rewrite E2; unfold git_pushTags.
    assert (originUp w2 = false) as -> by (unfold w2; simpl; congruence).
    reflexivity.
  - rewrite E2; unfold git_pushTags.
    assert (originUp w2 = false) as -> by (unfold w2; simpl; congruence).
    cbn [snd]; unfold w2; cbn [originTags setTags].
    now rewrite D5, H.
Qed.

Lemma productionTag_not_versionTag (tag : jsstring) :
  versionTag tag ->
  isVersionTag (productionTag tag) = false
  /\ productionTag tag <> PRODUCTION_LATEST.
Proof.
  intros Ht.
  destruct (tag_shape tag Ht) as (d1 & d2 & d3 & d4 & -> & R1 & R2 & R3 & R4).
  rewrite productionTag_runs by assumption.
  split.
  - unfold isVersionTag, andThen.
    rewrite (digits1_run_dot _ R1); cbn [dot]; rewrite N.eqb_refl.
    rewrite (digits1_run_dot _ R2); cbn [dot]; rewrite N.eqb_refl.
    change (lit ".PRODUCTION") with (DOT :: lit "PRODUCTION").
    rewrite (digits1_run_dot _ R3); cbn [dot]; rewrite N.eqb_refl.
    reflexivity.
  - destruct R1 as [Hne Hd]; destruct d1 as [|c d1]; [easy|].
    cbn [forallb] in Hd; apply andb_prop in Hd as [Hc _].
    intros E; injection E as -> _; discriminate.
Qed.

(** The list the PROD release offers is the same in both scripts: the
    version tags in descending order. *)
Lemma prodRelease_run
    (w : World) (pickTag : nat) (selectedTag : jsstring)
    (getAllTags : M (list jsstring)) :
  getAllTags = Release.getAllTags \/ getAllTags = Part000.getAllTags ->
  nth_error (sort descending (filter isVersionTag (names (tags w)))) pickTag
  = Some selectedTag ->
  prodRelease getAllTags pickTag w
  = (deleteRemoteTag PRODUCTION_LATEST ;;
     git_addTag PRODUCTION_LATEST [selectedTag] ;;
     git_pushTags ;;
     deleteRemoteTag (productionTag selectedTag) ;;
     git_addTag (productionTag selectedTag) [selectedTag] ;;
     git_pushTags ;;
     console_log (CHECK_MARK ++ lit " Promoted " ++ selectedTag ++ lit " -> "
                  ++ productionTag selectedTag ++ lit " & PRODUCTION-LATEST"))
      w.
Proof.
  intros Hg Hn; unfold prodRelease.
  unfold bind at 1.
  assert (exists listed,
            getAllTags w = (Ok listed, w)
            /\ sort descending listed
               = sort descending (filter isVersionTag (names (tags w))))
    as (listed & -> & Hl).
  { destruct Hg as [-> | ->]; eexists; (split; [reflexivity|]).
    - apply sort_sorted_id.
      exact (@sort_sorted _ descending versionTag descending_total
               descending_trans _ (filter_versionTag (names (tags w)))).
    - reflexivity. }
  cbv zeta; rewrite Hl.
  unfold bind at 1; unfold prompt; rewrite Hn; reflexivity.
Qed.

Lemma offered_is_versionTag (w : World) (pickTag : nat) (t : jsstring) :
  nth_error (sort descending (filter isVersionTag (names (tags w)))) pickTag
  = Some t ->
  versionTag t /\ In t (names (tags w)).
Proof.
  intros Hn; apply nth_error_In in Hn.
  apply (Permutation_in _ (Permutation_sym (sort_perm _ _))) in Hn.
  apply filter_In in Hn; tauto.
Qed.

(** The PROD release of either script, when it ends without an error: the
    PRODUCTION-LATEST marker and the marker [X.Y.Z.PRODUCTION] of the
    selected tag are both on [HEAD], locally and on the remote, wherever
    the selected tag is; the selected tag and every other tag are where
    they were, and [HEAD] has not moved. *)
Theorem prod_release_moves_markers
    (w : World) (pickTag : nat) (selectedTag : jsstring)
    (getAllTags : M (list jsstring)) :
  getAllTags = Release.getAllTags \/ getAllTags = Part000.getAllTags ->
  nth_error (sort descending (filter isVersionTag (names (tags w)))) pickTag
  = Some selectedTag ->
  let r := prodRelease getAllTags pickTag w in
  fst r = Ok tt ->
  let prodTag := productionTag selectedTag in
  lookup PRODUCTION_LATEST (tags (snd r)) = Some (HEAD w)
  /\ lookup prodTag (tags (snd r)) = Some (HEAD w)
  /\ lookup PRODUCTION_LATEST (originTags (snd r)) = Some (HEAD w)
  /\ lookup prodTag (originTags (snd r)) = Some (HEAD w)
  /\ (forall other, other <> PRODUCTION_LATEST -> other <> prodTag ->
        lookup other (tags (snd r)) = lookup other (tags w))
  /\ lookup selectedTag (tags (snd r)) = lookup selectedTag (tags w)
  /\ HEAD (snd r) = HEAD w.
Proof.
  intros Hg Hn r Hok prodTag.
  destruct (offered_is_versionTag w pickTag Hn) as [Hv _].
  destruct (productionTag_not_versionTag Hv) as [Hp Hne].
  fold prodTag in Hp, Hne.
  unfold r in *; clear r.
  rewrite (prodRelease_run w pickTag Hg Hn) in *; fold prodTag in Hok |- *.
  rewrite bind_seq3 in *.
  pose proof (move_marker_pushed w PRODUCTION_LATEST [selectedTag]) as M.
  cbv zeta in M.
  destruct ((deleteRemoteTag PRODUCTION_LATEST ;;
             git_addTag PRODUCTION_LATEST [selectedTag] ;;
             git_pushTags) w) as [[[]|e] w3]; [|discriminate Hok].
  cbn [fst snd] in M; destruct M as (M1 & M2 & M3 & _ & _ & _).
  rewrite bind_seq3 in *.
  pose proof (move_marker_pushed w3 prodTag [selectedTag]) as N.
  cbv zeta in N.
  destruct ((deleteRemoteTag prodTag ;;
             git_addTag prodTag [selectedTag] ;;
             git_pushTags) w3) as [[[]|e] w6]; [|discriminate Hok].
  cbn [fst snd] in N; destruct N as (N1 & N2 & N3 & _ & N5 & _).
  specialize (N5 eq_refl).
  unfold console_log, modify; cbn [fst snd tags originTags HEAD print].
  assert (lookup PRODUCTION_LATEST (tags w6) = Some (HEAD w)) as Hl.
  { rewrite N2 by (intros E; now rewrite E in Hne). exact M1. }
  assert (forall other, other <> PRODUCTION_LATEST -> other <> prodTag ->
            lookup other (tags w6) = lookup other (tags w)) as Ho.
  { intros other H1 H2; now rewrite N2, M2. }
  repeat split.
  - exact Hl.
  - now rewrite N1, M3.
  - now apply N5.
  - apply N5; now rewrite N1, M3.
  - exact Ho.
  - apply Ho; intros E; rewrite E in Hv; unfold versionTag in Hv.
    + discriminate Hv.
    + congruence.
  - now rewrite N3, M3.
Qed.

Lemma prod_release_moves_markers_witness :
  let w := withTags [(lit "4.1.2.3", Existing 1); (lit "4.1.2.10", Existing 2)]
             (Existing 3) (repo (Some (lit "4.1.2.10")) []) in
  let r := prodRelease Release.getAllTags 1 w in
  lookup PRODUCTION_LATEST (tags (snd r)) = Some (Existing 3)
  /\ lookup (lit "4.1.2.PRODUCTION") (tags (snd r)) = Some (Existing 3)
  /\ lookup PRODUCTION_LATEST (originTags (snd r)) = Some (Existing 3)
  /\ lookup (lit "4.1.2.PRODUCTION") (originTags (snd r)) = Some (Existing 3)
  /\ lookup (lit "4.1.2.3") (tags (snd r)) = Some (Existing 1).
Proof.
  intros w r.
  assert (nth_error (sort descending (filter isVersionTag (names (tags w)))) 1
          = Some (lit "4.1.2.3")) as Hn by (vm_compute; reflexivity).
  assert (fst (prodRelease Release.getAllTags 1 w) = Ok tt) as Hok
    by (vm_compute; reflexivity).
  destruct (@prod_release_moves_markers w 1 (lit "4.1.2.3")
              Release.getAllTags (or_introl eq_refl) Hn Hok)
    as (H1 & H2 & H3 & H4 & _ & H6 & _).
  exact (conj H1 (conj H2 (conj H3 (conj H4 H6)))).
Defined.

(** Without a reachable remote the PROD release of either script stops at
    its first push, with the error of git: by then PRODUCTION-LATEST has
    moved to [HEAD] locally, the marker of the release and every other
    local tag are where they were, and the remote is as it was. *)
Theorem prod_release_offline
    (w : World) (pickTag : nat) (selectedTag : jsstring)
    (getAllTags : M (list jsstring)) :
  getAllTags = Release.getAllTags \/ getAllTags = Part000.getAllTags ->
  nth_error (sort descending (filter isVersionTag (names (tags w)))) pickTag
  = Some selectedTag ->
  originUp w = false ->
  let r := prodRelease getAllTags pickTag w in
  fst r = Throw (GitError [lit "push"; lit "--tags"])
  /\ lookup PRODUCTION_LATEST (tags (snd r)) = Some (HEAD w)
  /\ (forall other, other <> PRODUCTION_LATEST ->
        lookup other (tags (snd r)) = lookup other (tags w))
  /\ originTags (snd r) = originTags w
  /\ HEAD (snd r) = HEAD w.
Proof.
  intros Hg Hn Hup r.
  unfold r; clear r.
  rewrite (prodRelease_run w pickTag Hg Hn).
  rewrite bind_seq3.
  pose proof (move_marker_pushed w PRODUCTION_LATEST [selectedTag]) as M.
  cbv zeta in M.
  destruct M as (M1 & M2 & M3 & _ & _ & M6).
  destruct (M6 Hup) as [M7 M8].
  destruct ((deleteRemoteTag PRODUCTION_LATEST ;;
             git_addTag PRODUCTION_LATEST [selectedTag] ;;
             git_pushTags) w) as [[[]|e] w3]; cbn [fst snd] in *;
    [discriminate M7|].
  injection M7 as ->.
  repeat split; assumption.
Qed.

Lemma prod_release_offline_witness :
  let w :=
    {| versionFile := Some (lit "4.1.2.3"); changelogFile := None;
       tags := [(lit "4.1.2.3", Existing 1);
                (lit "4.1.2.PRODUCTION", Existing 0)];
       originTags := [(lit "4.1.2.PRODUCTION", Existing 0)];
       originUp := false; HEAD := Existing 2;
       revisions := []; logSince := fun _ => []; status := Some cleanStatus;
       console := []; today := lit "2025-01-31" |} in
  let r := prodRelease Part000.getAllTags 0 w in
  fst r = Throw (GitError [lit "push"; lit "--tags"])
  /\ lookup PRODUCTION_LATEST (tags (snd r)) = Some (Existing 2)
  /\ lookup (lit "4.1.2.PRODUCTION") (tags (snd r)) = Some (Existing 0)
  /\ originTags (snd r) = [(lit "4.1.2.PRODUCTION", Existing 0)].
Proof.
  intros w r.
  assert (nth_error (sort descending (filter isVersionTag (names (tags w)))) 0
          = Some (lit "4.1.2.3")) as Hn by (vm_compute; reflexivity).
  destruct (@prod_release_offline w 0 (lit "4.1.2.3") Part000.getAllTags
              (or_intror eq_refl) Hn eq_refl)
    as (H1 & H2 & H3 & H4 & _).
  refine (conj H1 (conj H2 (conj _ H4))).
  apply (H3 (lit "4.1.2.PRODUCTION")); discriminate.
Defined.

(** ** The UAT release, from the menu *)

(** A run of [src/release.ts] from the menu, first choice, on the version
    file [X.Y.Z.R] with X, Y and Z natural numbers of at most [2 ^ 53] and
    R one below [2 ^ 53], when git reports no untracked, renamed or
    modified file, the remote can be reached and none of its tags is held
    locally on another commit.  The changelog is taken since the greatest
    version tag of the repository as fetched, whatever the version of the
    file is.  When the log since that tag holds a qualifying subject, the
    run ends, whether the tagging and the push that follow succeed or
    fail, with the entry of [X.Y.Z.(R+1)] for those subjects at the head
    of the changelog and with [X.Y.Z.(R+1)] in the version file; and when
    it ends without an error, [X.Y.Z.(R+1)],
    which was no tag, and the UAT-LATEST marker are tags of the repository
    and of the remote, each on the same commit here and there.  Which
    commit that is is not stated: the script does not wait for its
    commit. *)
Theorem release_main_uat_run
    (w : World) (x y z r : N) (st : StatusResult) (pickTag : nat)
    (t : jsstring) (c : commit) :
  versionFile w = Some (canonical x y z r) ->
  (Z.of_N x <= 2 ^ 53)%Z -> (Z.of_N y <= 2 ^ 53)%Z -> (Z.of_N z <= 2 ^ 53)%Z ->
  (Z.of_N r < 2 ^ 53)%Z ->
  status w = Some st -> counted st = 0%Z -> originUp w = true ->
  clashes (originTags w) (tags w) = false ->
  let w1 := setTags (fetched (tags w) (originTags w)) w in
  fst (Release.getLatestTag w1) = Ok (Some t) ->
  lookup t (tags w1) = Some c ->
  let logs := filter qualifies (split LF (logSince w c)) in
  logs <> [] ->
  let res := Release.main 0 pickTag w in
  let newTag := canonical x y z (r + 1) in
  changelogFile (snd res)
  = Some (changelogEntry newTag (today w) logs
          ++ match changelogFile w with Some s => s | None => [] end)
  /\ versionFile (snd res) = Some newTag
  /\ (fst res = Ok tt ->
      lookup newTag (tags w1) = None
      /\ (exists c1, lookup newTag (tags (snd res)) = Some c1
                     /\ lookup newTag (originTags (snd res)) = Some c1)
      /\ (exists c2, lookup UAT_LATEST (tags (snd res)) = Some c2
                     /\ lookup UAT_LATEST (originTags (snd res)) = Some c2)).
Proof.
  intros Hv Hx Hy Hz Hr Hs Hc Hup Hcl w1 Hlatest Hl logs Hne res newTag.
  unfold res in *; clear res.
  rewrite (release_main_clean w 0 pickTag Hs Hc) in *.
  rewrite (release_first_choice_runs_uat w pickTag Hv Hup Hcl) in *.
  fold w1; rewrite parseVersion_canonical in *.
  destruct (bumpR_canonical x y z r Hx Hy Hz Hr) as [Hb Hn].
  rewrite Hn in *; fold newTag in Hb |- *.
  assert (nth_error (sort descending (filter isVersionTag (names (tags w1)))) 0
          = Some t) as Ht.
  { unfold Release.getLatestTag, Release.getAllTags, bind, git_tags, gets, ret
      in Hlatest.
    cbn [fst] in Hlatest; congruence. }
  rewrite Ht in *.
  destruct (offered_is_versionTag w1 0 Ht) as [Vt _].
  set (lv := nth_error
               (filter (Release.bigger (versionOf x y z r))
                  (sort descending (filter isVersionTag (names (tags w1)))))
               0) in *.
  set (cvs := versionString (versionOf x y z r)) in *.
  assert (lookup (orElse (Some t) (orElse lv cvs)) (tags w1) = Some c) as Hl'
    by (destruct t; [discriminate Vt | exact Hl]).
  destruct (@release_uat_before_tag w1 (versionOf x y z r) (Some t)
              lv cvs newTag c Hl' Hne)
    as (w5 & Hrun & H5v & H5l & H5t & H5o & _).
  rewrite Hrun; clear Hrun.
  split; [|split].
  - rewrite (@uat_tail_keeps _ changelogFile newTag _
               (fun _ _ => eq_refl) (fun _ _ => eq_refl)
               (fun _ _ => eq_refl) w5).
    exact H5l.
  - rewrite (@uat_tail_keeps _ versionFile newTag _
               (fun _ _ => eq_refl) (fun _ _ => eq_refl)
               (fun _ _ => eq_refl) w5).
    now rewrite H5v, Hb.
  - intros Hok.
    assert (newTag <> UAT_LATEST) as Hnew.
    { intros E; pose proof (canonical_versionTag x y z (r + 1)) as V.
      fold newTag in V; rewrite E in V; discriminate V. }
    destruct (@uat_tail w5 newTag
                (CHECK_MARK ++ lit " UAT released: " ++ newTag) Hnew Hok)
      as (_ & T2 & T3 & T4 & T5 & T6 & _).
    rewrite H5t in T6.
    split; [exact T6|].
    split; eexists; split; eassumption.
Qed.

Lemma release_main_uat_run_witness :
  let w := setOriginTags [(lit "4.1.2.3", Existing 1)]
             (withTags [(lit "4.1.2.3", Existing 1)] (Existing 2)
                (repo (Some (lit "4.1.3.0")) (SPARKLES ++ lit " add X"))) in
  let r := Release.main 0 0 w in
  changelogFile (snd r)
  = Some (lit "## 4.1.3.1 (2025-01-31)" ++ [LF] ++ lit "- " ++ SPARKLES
          ++ lit " add X" ++ [LF; LF])
  /\ versionFile (snd r) = Some (lit "4.1.3.1")
  /\ lookup (lit "4.1.3.1") (tags w) = None
  /\ (exists c1, lookup (lit "4.1.3.1") (tags (snd r)) = Some c1
                 /\ lookup (lit "4.1.3.1") (originTags (snd r)) = Some c1)
  /\ (exists c2, lookup UAT_LATEST (tags (snd r)) = Some c2
                 /\ lookup UAT_LATEST (originTags (snd r)) = Some c2).
Proof.
  intros w r.
  assert (Z.of_N 4 <= 2 ^ 53)%Z as Hx by (vm_compute; discriminate).
  assert (Z.of_N 1 <= 2 ^ 53)%Z as Hy by (vm_compute; discriminate).
  assert (Z.of_N 3 <= 2 ^ 53)%Z as Hz by (vm_compute; discriminate).
  assert (fst (Release.getLatestTag
                 (setTags (fetched (tags w) (originTags w)) w))
          = Ok (Some (lit "4.1.2.3"))) as Hlatest
    by (vm_compute; reflexivity).
  assert (filter qualifies (split LF (logSince w (Existing 1))) <> [])
    as Hne by (vm_compute; discriminate).
  assert (fst (Release.main 0 0 w) = Ok tt) as Hok
    by (vm_compute; reflexivity).
  destruct (@release_main_uat_run w 4 1 3 0 cleanStatus 0 (lit "4.1.2.3")
              (Existing 1) eq_refl Hx Hy Hz eq_refl eq_refl eq_refl eq_refl
              eq_refl Hlatest eq_refl Hne)
    as (H1 & H2 & H3).
  destruct (H3 Hok) as (H4 & H5 & H6).
  exact (conj H1 (conj H2 (conj H4 (conj H5 H6)))).
Defined.
